(** * power-eagle-mods: the file-backed configuration store

    A shallow embedding of the persistence core of [@eagle-cooler/utils]:
    - [utils/_traverse.js]  : deep path access on a document,
    - [utils/_jsonFile.js]  : the [JsonFile] store (lock, watcher, proxy),
    - [config/index.js]     : the scoped [Config] facade.

    JavaScript strings are modelled by [string] (8-bit code units), JSON
    numbers by integers.  Host built-ins whose code is not part of the
    repository ([String.prototype.localeCompare], [Math.random], the
    [eagle] object, [os.homedir], [path.join]) are fields of a [Host]
    record. *)

From Stdlib Require Import ZArith Lia Ascii String List Bool Permutation Sorted.
From stdpp Require Import base list strings gmap sorting.

Set Warnings "-register-all".
Local Open Scope string_scope.
Local Open Scope Z_scope.
Local Open Scope list_scope.

(** ** JavaScript string helpers *)

Module Str.

(** [s.split(sep)] for a one-character separator: never empty. *)
Fixpoint split (sep : ascii) (s : string) : list string :=
  match s with
  | EmptyString => [EmptyString]
  | String c s' =>
      if Ascii.eqb c sep then EmptyString :: split sep s'
      else match split sep s' with
           | [] => [String c EmptyString]
           | w :: ws => String c w :: ws
           end
  end.

(** [l.join(sep)] *)
Fixpoint join (sep : string) (l : list string) : string :=
  match l with
  | [] => EmptyString
  | [x] => x
  | x :: l' => x +:+ sep +:+ join sep l'
  end.

Fixpoint mem (c : ascii) (s : string) : bool :=
  match s with
  | EmptyString => false
  | String d s' => Ascii.eqb c d || mem c s'
  end.

Definition nonempty (s : string) : bool :=
  match s with EmptyString => false | _ => true end.

(** [s.startsWith(p)] *)
Definition startsWith (p s : string) : bool := String.prefix p s.

(** [s.substring(1)] *)
Definition tail (s : string) : string :=
  match s with EmptyString => EmptyString | String _ s' => s' end.

(** Line terminators of the regular-expression dot (within 8 bits). *)
Definition is_line_terminator (c : ascii) : bool :=
  Ascii.eqb c "010"%char || Ascii.eqb c "013"%char.

Fixpoint has_line_terminator (s : string) : bool :=
  match s with
  | EmptyString => false
  | String c s' => is_line_terminator c || has_line_terminator s'
  end.

(** Longest prefix without [c], and what follows the first [c]. *)
Fixpoint break_at (c : ascii) (s : string) : option (string * string) :=
  match s with
  | EmptyString => None
  | String d s' =>
      if Ascii.eqb d c then Some (EmptyString, s')
      else match break_at c s' with
           | Some (a, r) => Some (String d a, r)
           | None => None
           end
  end.

End Str.

(** ** [Array.prototype.sort] with a comparator

    ECMAScript requires the sort to be stable; for a comparator that is a
    consistent total preorder every stable sort yields the same array, so
    the model is a stable insertion sort. *)

Section JsSort.
Context {A : Type} (cmp : A -> A -> Z).

Fixpoint sort_insert (x : A) (l : list A) : list A :=
  match l with
  | [] => [x]
  | y :: l' => if cmp x y <=? 0 then x :: l else y :: sort_insert x l'
  end.

Definition js_sort (l : list A) : list A := foldr sort_insert [] l.

(** [l.every((x, i) => p x i)], with the running index. *)
Fixpoint every_from (p : A -> nat -> bool) (i : nat) (l : list A) : bool :=
  match l with
  | [] => true
  | x :: l' => p x i && every_from p (S i) l'
  end.

Definition every (p : A -> nat -> bool) (l : list A) : bool := every_from p 0 l.

(** The order a comparator sorts by. *)
Definition cmp_le (x y : A) : Prop := cmp x y <= 0.

End JsSort.

(** What the sort needs of a string comparator to determine its result:
    the order [cmp a b <= 0] is total, transitive and antisymmetric. *)
Record Collation (cmp : string -> string -> Z) : Prop := {
  collation_total : forall a b, cmp a b <= 0 \/ cmp b a <= 0;
  collation_trans : forall a b c, cmp a b <= 0 -> cmp b c <= 0 -> cmp a c <= 0;
  collation_antisym : forall a b, cmp a b <= 0 -> cmp b a <= 0 -> a = b
}.

(** The same, with the last condition asked of the strings of [l] only,
    which is all that sorting [l] needs: a comparator that orders all
    strings and ties no two distinct strings of [l]. *)
Record CollationOn (cmp : string -> string -> Z) (l : list string) : Prop := {
  on_total : forall a b, cmp a b <= 0 \/ cmp b a <= 0;
  on_trans : forall a b c, cmp a b <= 0 -> cmp b c <= 0 -> cmp a c <= 0;
  on_antisym : forall a b, a ∈ l -> b ∈ l -> cmp a b <= 0 -> cmp b a <= 0 -> a = b
}.

(** ** Plain objects: own properties in insertion order *)

Module Obj.
Section Props.
Context {V : Type}.

Definition props := list (string * V).

Fixpoint set (k : string) (v : V) (o : props) : props :=
  match o with
  | [] => [(k, v)]
  | (k', v') :: o' =>
      if String.eqb k k' then (k, v) :: o' else (k', v') :: set k v o'
  end.

Fixpoint get (k : string) (o : props) : option V :=
  match o with
  | [] => None
  | (k', v') :: o' => if String.eqb k k' then Some v' else get k o'
  end.

Definition has (k : string) (o : props) : bool :=
  match get k o with Some _ => true | None => false end.

Fixpoint remove (k : string) (o : props) : props :=
  match o with
  | [] => []
  | (k', v') :: o' =>
      if String.eqb k k' then o' else (k', v') :: remove k o'
  end.

Definition digit (c : ascii) : option N :=
  let n := N_of_ascii c in
  if ((48 <=? n) && (n <=? 57))%N then Some (n - 48)%N else None.

Fixpoint digits (acc : N) (s : string) : option N :=
  match s with
  | EmptyString => Some acc
  | String c s' =>
      match digit c with
      | Some d => digits (10 * acc + d)%N s'
      | None => None
      end
  end.

(** Array-index property names: canonical decimal strings below 2^32 - 1. *)
Definition array_index (s : string) : option N :=
  match s with
  | EmptyString => None
  | String "0"%char EmptyString => Some 0%N
  | String "0"%char _ => None
  | _ => match digits 0 s with
         | Some n => if (n <=? 4294967294)%N then Some n else None
         | None => None
         end
  end.

Definition index_of (e : string * V) : N :=
  match array_index (fst e) with Some n => n | None => 0%N end.

Definition is_index (e : string * V) : bool :=
  match array_index (fst e) with Some _ => true | None => false end.

Definition by_index (a b : string * V) : Z :=
  Z.of_N (index_of a) - Z.of_N (index_of b).

(** [Object.entries(o)]: array-index keys ascending, then the other
    keys in insertion order. *)
Definition entries (o : props) : list (string * V) :=
  js_sort by_index (List.filter is_index o)
  ++ List.filter (fun e => negb (is_index e)) o.

End Props.
Arguments props : clear implicits.

(** Names every object inherits from [Object.prototype]. *)
Definition proto_members : list string :=
  [ "__proto__"; "constructor"; "hasOwnProperty"; "isPrototypeOf";
    "propertyIsEnumerable"; "toLocaleString"; "toString"; "valueOf";
    "__defineGetter__"; "__defineSetter__"; "__lookupGetter__";
    "__lookupSetter__" ].

Definition inherited (k : string) : bool :=
  existsb (String.eqb k) proto_members.

End Obj.

(** ** Key attributes ([Config.#parseKeyWithAttributes], [#buildKeyWithAttributes]) *)

Module Key.

(** The attribute object; its values are only ever rendered by a
    template literal, so they are kept as their string rendering. *)
Definition attrs := Obj.props string.

(** [o[k] = v] on an object literal: assigning a string to [__proto__]
    goes to the inherited setter, which ignores it. *)
Definition obj_assign (k v : string) (o : attrs) : attrs :=
  if String.eqb k "__proto__" then o else Obj.set k v o.

(** [{...o, k: v}] *)
Definition spread_with (o : attrs) (k v : string) : attrs :=
  Obj.set k v (Obj.entries o).

(** The match of [/^\{([^}]+)\}(.+)$/]: the two captured groups. *)
Definition match_attr_prefix (key : string) : option (string * string) :=
  match key with
  | String "{"%char rest =>
      match Str.break_at "}"%char rest with
      | Some (attrsStr, actualKey) =>
          if Str.nonempty attrsStr && Str.nonempty actualKey
             && negb (Str.has_line_terminator actualKey)
          then Some (attrsStr, actualKey) else None
      | None => None
      end
  | _ => None
  end.

Definition add_pair (attributes : attrs) (pair : string) : attrs :=
  match Str.split "="%char pair with
  | k :: v :: _ =>
      if Str.nonempty k && Str.nonempty v then obj_assign k v attributes
      else attributes
  | _ => attributes
  end.

Definition parseKeyWithAttributes (key : string) : attrs * string :=
  match match_attr_prefix key with
  | None => ([], key)
  | Some (attrsStr, actualKey) =>
      (fold_left add_pair (Str.split "&"%char attrsStr) [], actualKey)
  end.

Definition render_pair (e : string * string) : string :=
  fst e +:+ "=" +:+ snd e.

Definition render (l : list (string * string)) : string :=
  Str.join "&" (map render_pair l).

(** A key that carries the attribute prefix of [l]. *)
Definition prefixed (l : list (string * string)) (key : string) : string :=
  "{" +:+ render l +:+ "}" +:+ key.

(** A name or value the key grammar can carry. *)
Definition token (s : string) : bool :=
  Str.nonempty s && negb (Str.mem "&" s) && negb (Str.mem "=" s)
  && negb (Str.mem "}" s).

Definition wf_attr (e : string * string) : bool :=
  token (fst e) && token (snd e) && negb (String.eqb (fst e) "__proto__").

Definition wf_base (key : string) : bool :=
  Str.nonempty key && negb (Str.has_line_terminator key).

(** Two attribute objects with the same properties, whatever their
    insertion order. *)
Definition same_attrs (o1 o2 : attrs) : Prop :=
  Permutation o1 o2 /\ NoDup (map fst o1).

Section WithCollation.
Variable localeCompare : string -> string -> Z.

Definition by_name (a b : string * string) : Z :=
  localeCompare (fst a) (fst b).

Definition buildKeyWithAttributes (attributes : attrs) (key : string) : string :=
  match Obj.entries attributes with
  | [] => key
  | es => prefixed (js_sort by_name es) key
  end.

End WithCollation.

End Key.

(** ** Target descriptors and the set-equality check ([Config.#areArraysEqual]) *)

Record Descriptor := { d_id : string; filePath : string }.

Section ArraysEqual.
Variable localeCompare : string -> string -> Z.

Definition by_path (a b : Descriptor) : Z :=
  localeCompare (filePath a) (filePath b).

(** The arguments are arrays of descriptors, objects with a string
    [filePath]; an argument is [None] when it is not an array. *)
Definition areArraysEqual (arr1 arr2 : option (list Descriptor)) : bool :=
  match arr1, arr2 with
  | Some a1, Some a2 =>
      if negb (length a1 =? length a2)%nat then false
      else
        let sorted1 := js_sort by_path a1 in
        let sorted2 := js_sort by_path a2 in
        every (fun item i =>
                 match sorted2 !! i with
                 | Some other => String.eqb (filePath item) (filePath other)
                 | None => false
                 end) sorted1
  | _, _ => false
  end.

End ArraysEqual.

(** ** Outcomes and the state-and-exception monad *)

Inductive exn :=
| JsError (msg : string)        (* new Error(msg) *)
| JsTypeError (msg : string)
| JsRangeError (msg : string)
| JsSyntaxError (msg : string)
| FsError (code : string)       (* error.code of a failed fs call *)
| Unmodelled (why : string).    (* behaviour outside this embedding *)

Inductive res (A : Type) :=
| Ok (a : A)
| Throw (e : exn)
| Diverge.                      (* the fuel of a loop ran out *)
Arguments Ok {A} a.
Arguments Throw {A} e.
Arguments Diverge {A}.

(** A computation over a mutable state [S]; a thrown exception keeps the
    mutations made so far. *)
Definition M (S A : Type) := S -> res A * S.

Definition ret {S A} (a : A) : M S A := fun s => (Ok a, s).
Definition throw {S A} (e : exn) : M S A := fun s => (Throw e, s).
Definition diverge {S A} : M S A := fun s => (Diverge, s).

Definition bind {S A B} (c : M S A) (k : A -> M S B) : M S B :=
  fun s =>
    match c s with
    | (Ok a, s') => k a s'
    | (Throw e, s') => (Throw e, s')
    | (Diverge, s') => (Diverge, s')
    end.

(** An outcome of the program: neither a loop cut short by its fuel nor
    behaviour that the embedding leaves out. *)
Definition covered {A} (r : res A) : Prop :=
  match r with
  | Diverge | Throw (Unmodelled _) => False
  | _ => True
  end.

Definition gets {S A} (f : S -> A) : M S A := fun s => (Ok (f s), s).
Definition modify {S} (f : S -> S) : M S unit := fun s => (Ok tt, f s).

(** [try { c } catch (error) { h error }]; what the embedding does not
    cover is not an exception of the program and is never caught. *)
Definition try_catch {S A} (c : M S A) (h : exn -> M S A) : M S A :=
  fun s =>
    match c s with
    | (Throw (Unmodelled w), s') => (Throw (Unmodelled w), s')
    | (Throw e, s') => h e s'
    | r => r
    end.

(** [try { c } finally { f }] *)
Definition try_finally {S A} (c : M S A) (f : M S unit) : M S A :=
  fun s =>
    match c s with
    | (Ok a, s') => match f s' with
                    | (Ok _, s'') => (Ok a, s'')
                    | (Throw e, s'') => (Throw e, s'')
                    | (Diverge, s'') => (Diverge, s'')
                    end
    | (Throw (Unmodelled w), s') => (Throw (Unmodelled w), s')
    | (Throw e, s') => match f s' with
                       | (Ok _, s'') => (Throw e, s'')
                       | (Throw e', s'') => (Throw e', s'')
                       | (Diverge, s'') => (Diverge, s'')
                       end
    | (Diverge, s') => (Diverge, s')
    end.

(** Run a computation on a component of the state. *)
Definition zoom {S T A} (proj : S -> T) (inj : T -> S -> S) (c : M T A) : M S A :=
  fun s => let '(r, t) := c (proj s) in (r, inj t s).

Declare Scope monad_scope.
Delimit Scope monad_scope with monad.
Notation "'let*' x ':=' c 'in' k" := (bind c (fun x => k))
  (at level 10, x name, c at level 100, k at level 200) : monad_scope.
Notation "c ';;' k" := (bind c (fun _ => k))
  (at level 100, k at level 200, right associativity) : monad_scope.
Local Open Scope monad_scope.

(** Whatever its outcome, [c] leaves the state related to the one it
    started from. *)
Definition preserves {S A} (R : S -> S -> Prop) (c : M S A) : Prop :=
  forall s, R s (snd (c s)).

Fixpoint repeatM {S} (n : nat) (c : M S unit) : M S unit :=
  match n with
  | O => ret tt
  | S n' => c ;; repeatM n' c
  end.

(** ** JSON documents and the object heap *)

Inductive json :=
| JNull
| JBool (b : bool)
| JNum (n : Z)
| JStr (s : string)
| JArr (l : list json)
| JObj (l : list (string * json)).

Definition loc := nat.

Inductive jsval :=
| VUndef
| VNull
| VBool (b : bool)
| VNum (n : Z)
| VStr (s : string)
| VRef (l : loc).

Inductive cell :=
| CObj (props : Obj.props jsval)
| CArr (elems : list jsval) (props : Obj.props jsval).

(** What a traversal holds in [curr]: the store's [Proxy], or a value. *)
Inductive ref :=
| RProxy (l : loc)
| RPlain (v : jsval).

(** The heap, and the number of proxy-trap invocations so far. *)
Record Mem := { cells : list cell; traps : nat }.

Definition jsval_eqb (a b : jsval) : bool :=          (* a === b *)
  match a, b with
  | VUndef, VUndef | VNull, VNull => true
  | VBool x, VBool y => Bool.eqb x y
  | VNum x, VNum y => x =? y
  | VStr x, VStr y => String.eqb x y
  | VRef x, VRef y => (x =? y)%nat
  | _, _ => false
  end.

Module Heap.

Definition read (l : loc) : M Mem cell :=
  fun m => match cells m !! l with
           | Some c => (Ok c, m)
           | None => (Throw (Unmodelled "dangling reference"), m)
           end.

Definition write (l : loc) (c : cell) : M Mem unit :=
  modify (fun m => {| cells := <[l := c]> (cells m); traps := traps m |}).

Definition new (c : cell) : M Mem jsval :=
  fun m => (Ok (VRef (length (cells m))),
            {| cells := cells m ++ [c]; traps := traps m |}).

Definition same_traps (m m' : Mem) : Prop := traps m' = traps m.

(** A [set] or [deleteProperty] trap ran [n] times. *)
Definition trap (r : ref) (n : nat) : M Mem unit :=
  match r with
  | RProxy _ => modify (fun m => {| cells := cells m; traps := traps m + n |})
  | RPlain _ => ret tt
  end.

(** [JSON.parse] of the text of [j]. *)
Fixpoint alloc (j : json) (h : list cell) : jsval * list cell :=
  match j with
  | JNull => (VNull, h)
  | JBool b => (VBool b, h)
  | JNum n => (VNum n, h)
  | JStr s => (VStr s, h)
  | JArr l =>
      let '(vs, h') :=
        (fix go (l : list json) (h : list cell) : list jsval * list cell :=
           match l with
           | [] => ([], h)
           | x :: l' =>
               let '(v, h1) := alloc x h in
               let '(vs, h2) := go l' h1 in
               (v :: vs, h2)
           end) l h in
      (VRef (length h'), h' ++ [CArr vs []])
  | JObj l =>
      let '(ps, h') :=
        (fix go (l : list (string * json)) (acc : Obj.props jsval) (h : list cell)
           : Obj.props jsval * list cell :=
           match l with
           | [] => (acc, h)
           | (k, x) :: l' =>
               let '(v, h1) := alloc x h in
               go l' (Obj.set k v acc) h1
           end) l [] h in
      (VRef (length h'), h' ++ [CObj ps])
  end.

Definition parse (j : json) : M Mem jsval :=
  fun m => let '(v, h) := alloc j (cells m) in
           (Ok v, {| cells := h; traps := traps m |}).

(** [JSON.stringify]: [SUndef] is the JavaScript [undefined] result. *)
Inductive text := SJson (j : json) | SUndef | SCycle.

Fixpoint stringify (h : list cell) (fuel : nat) (v : jsval) : text :=
  match v with
  | VUndef => SUndef
  | VNull => SJson JNull
  | VBool b => SJson (JBool b)
  | VNum n => SJson (JNum n)
  | VStr s => SJson (JStr s)
  | VRef l =>
      match fuel with
      | O => SCycle
      | S fuel' =>
          match h !! l with
          | None => SCycle
          | Some (CArr elems _) =>
              (fix go (vs : list jsval) (acc : list json) : text :=
                 match vs with
                 | [] => SJson (JArr (rev acc))
                 | x :: vs' =>
                     match stringify h fuel' x with
                     | SJson j => go vs' (j :: acc)
                     | SUndef => go vs' (JNull :: acc)
                     | SCycle => SCycle
                     end
                 end) elems []
          | Some (CObj ps) =>
              (fix go (es : list (string * jsval)) (acc : list (string * json)) : text :=
                 match es with
                 | [] => SJson (JObj (rev acc))
                 | (k, x) :: es' =>
                     match stringify h fuel' x with
                     | SJson j => go es' ((k, j) :: acc)
                     | SUndef => go es' acc
                     | SCycle => SCycle
                     end
                 end) (Obj.entries ps) []
          end
      end
  end.

(** A chain of more references than the heap has cells repeats one. *)
Definition serialize (h : list cell) (v : jsval) : text :=
  stringify h (S (length h)) v.

End Heap.

(** ** Numbers read from path segments *)

Module Num.

Definition is_ws (c : ascii) : bool :=
  let n := N_of_ascii c in
  ((9 <=? n) && (n <=? 13) || (n =? 32) || (n =? 160))%N.

Fixpoint skip_ws (s : string) : string :=
  match s with
  | String c s' => if is_ws c then skip_ws s' else s
  | EmptyString => s
  end.

Definition dec_digit (c : ascii) : option Z :=
  let n := Z.of_N (N_of_ascii c) in
  if (48 <=? n) && (n <=? 57) then Some (n - 48) else None.

Definition hex_digit (c : ascii) : option Z :=
  let n := Z.of_N (N_of_ascii c) in
  if (48 <=? n) && (n <=? 57) then Some (n - 48)
  else if (65 <=? n) && (n <=? 70) then Some (n - 55)
  else if (97 <=? n) && (n <=? 102) then Some (n - 87)
  else None.

(** The longest run of digits; [None] when there is none. *)
Fixpoint read_digits (radix : Z) (digit : ascii -> option Z)
         (acc : option Z) (s : string) : option Z :=
  match s with
  | EmptyString => acc
  | String c s' =>
      match digit c with
      | Some d =>
          read_digits radix digit
            (Some (radix * (match acc with Some a => a | None => 0 end) + d)) s'
      | None => acc
      end
  end.

(** [parseInt(s)]; [None] is [NaN]. *)
Definition parseInt (s : string) : option Z :=
  let s1 := skip_ws s in
  let '(sign, s2) :=
    match s1 with
    | String "-"%char r => (-1, r)
    | String "+"%char r => (1, r)
    | _ => (1, s1)
    end in
  let magnitude :=
    match s2 with
    | String "0"%char (String "x"%char r)
    | String "0"%char (String "X"%char r) => read_digits 16 hex_digit None r
    | _ => read_digits 10 dec_digit None s2
    end in
  match magnitude with
  | Some n => Some (sign * n)
  | None => None
  end.

Fixpoint dec_of_pos (fuel : nat) (n : Z) (acc : string) : string :=
  match fuel with
  | O => acc
  | S fuel' =>
      let acc' := String (ascii_of_N (Z.to_N (48 + n mod 10))) acc in
      if n / 10 =? 0 then acc' else dec_of_pos fuel' (n / 10) acc'
  end.

(** The property name of a number used as a key (integers in decimal);
    a number has no more decimal digits than binary ones. *)
Definition to_key (n : option Z) : string :=
  match n with
  | None => "NaN"
  | Some z =>
      if z <? 0 then "-" +:+ dec_of_pos (S (Z.to_nat (Z.log2 (- z)))) (- z) EmptyString
      else dec_of_pos (S (Z.to_nat (Z.log2 z))) z EmptyString
  end.

(** [n >= len] and [n < len], both false on [NaN]. *)
Definition ge_len (n : option Z) (len : nat) : bool :=
  match n with Some z => Z.of_nat len <=? z | None => false end.

Definition lt_len (n : option Z) (len : nat) : bool :=
  match n with Some z => z <? Z.of_nat len | None => false end.

End Num.

(** ** [utils/_traverse.js] *)

Module Traverse.

Definition max_array_length : Z := 4294967295.

(** The number of arguments a spread call is known to take.  With
    more, the stack of the engine decides: the call throws
    [RangeError: Maximum call stack size exceeded] as soon as they no
    longer fit, at a count that depends on the stack.  The embedding
    does not cover such calls. *)
Definition max_spread_arguments : Z := 65535.

(** [arr[index]] *)
Definition arr_get (elems : list jsval) (props : Obj.props jsval)
           (index : option Z) : jsval :=
  match index with
  | Some i =>
      if (0 <=? i) && (i <? Z.of_nat (length elems))
      then default VUndef (elems !! Z.to_nat i)
      else default VUndef (Obj.get (Num.to_key index) props)
  | None => default VUndef (Obj.get (Num.to_key index) props)
  end.

(** [arr[index] = v]; an index below zero or [NaN] names a property. *)
Definition arr_set (r : ref) (l : loc) (elems : list jsval)
           (props : Obj.props jsval) (index : option Z) (v : jsval) : M Mem unit :=
  match index with
  | Some i =>
      if (0 <=? i) && (i <? Z.of_nat (length elems))
      then Heap.write l (CArr (<[Z.to_nat i := v]> elems) props) ;; Heap.trap r 1
      else if 0 <=? i then throw (Unmodelled "array write past the end")
      else Heap.write l (CArr elems (Obj.set (Num.to_key index) v props)) ;;
           Heap.trap r 1
  | None =>
      Heap.write l (CArr elems (Obj.set (Num.to_key index) v props)) ;;
      Heap.trap r 1
  end.

(** [arr.push(...Array(index - arr.length + 1).fill(filler))]; through
    the proxy each new slot and the new [length] run the [set] trap. *)
Definition push_fill (r : ref) (l : loc) (elems : list jsval)
           (props : Obj.props jsval) (index : Z) (filler : jsval) : M Mem unit :=
  let n := Z.to_nat (index - Z.of_nat (length elems) + 1) in
  if max_spread_arguments <? Z.of_nat n
  then throw (Unmodelled "spread call with more arguments than the stack is known to hold")
  else
    Heap.write l (CArr (elems ++ replicate n filler) props) ;;
    Heap.trap r (S n).

Definition check_length (index : Z) : M Mem unit :=
  if max_array_length <=? index
  then throw (JsRangeError "Invalid array length")
  else ret tt.

(** [key in obj] *)
Definition obj_in (props : Obj.props jsval) (key : string) : M Mem bool :=
  if Obj.has key props then ret true
  else if Obj.inherited key then throw (Unmodelled "inherited property")
  else ret false.

(** [obj[key]] *)
Definition obj_get (props : Obj.props jsval) (key : string) : M Mem jsval :=
  match Obj.get key props with
  | Some v => ret v
  | None => if Obj.inherited key then throw (Unmodelled "inherited property")
            else ret VUndef
  end.

(** [obj[key] = v] *)
Definition obj_set (r : ref) (l : loc) (props : Obj.props jsval)
           (key : string) (v : jsval) : M Mem unit :=
  if negb (Obj.has key props) && String.eqb key "__proto__"
  then throw (Unmodelled "prototype assignment")
  else Heap.write l (CObj (Obj.set key v props)) ;; Heap.trap r 1.

Definition _traverse_step (createMissing : bool) (curr : ref) (key : string)
  : M Mem ref :=
  match curr with
  | RPlain VNull | RPlain VUndef =>
      throw (JsError ("Cannot traverse through null/undefined at key " +:+ key))
  | RPlain (VBool _) | RPlain (VNum _) | RPlain (VStr _) =>
      throw (JsError ("Cannot traverse through non-object type at key " +:+ key))
  | RProxy l | RPlain (VRef l) =>
      let* c := Heap.read l in
      match c with
      | CArr elems props =>
          let index := Num.parseInt key in
          (if createMissing && Num.ge_len index (length elems)
           then
             let i := default 0 index in
             check_length i ;;
             let* fresh := Heap.new (CObj []) in
             push_fill curr l elems props i fresh
           else ret tt) ;;
          let* c' := Heap.read l in
          match c' with
          | CArr elems' props' => ret (RPlain (arr_get elems' props' index))
          | CObj _ => throw (Unmodelled "array became an object")
          end
      | CObj props =>
          let* present := (if createMissing then obj_in props key else ret true) in
          (if negb present
           then
             let* fresh := Heap.new (CObj []) in
             obj_set curr l props key fresh
           else ret tt) ;;
          let* c' := Heap.read l in
          match c' with
          | CObj props' => let* v := obj_get props' key in ret (RPlain v)
          | CArr _ _ => throw (Unmodelled "object became an array")
          end
      end
  end.

Fixpoint _traverse (curr : ref) (keys : list string) (createMissing : bool)
  : M Mem ref :=
  match keys with
  | [] => ret curr
  | key :: keys' =>
      let* next := _traverse_step createMissing curr key in
      _traverse next keys' createMissing
  end.

Definition deref (r : ref) : jsval :=
  match r with RProxy l => VRef l | RPlain v => v end.

(** [keys.pop()]: the last key and the keys before it. *)
Definition pop_last (keys : list string) : list string * string :=
  (List.removelast keys, List.last keys EmptyString).

Definition getDeep (obj : ref) (path : string) : M Mem jsval :=
  let keys := Str.split "/"%char path in
  let* r := _traverse obj keys false in
  ret (deref r).

Definition setDeep (obj : ref) (path : string) (value : jsval) : M Mem unit :=
  let '(keys, lastKey) := pop_last (Str.split "/"%char path) in
  let* target := _traverse obj keys true in
  match target with
  | RProxy l | RPlain (VRef l) =>
      let* c := Heap.read l in
      match c with
      | CArr elems props =>
          let index := Num.parseInt lastKey in
          (if Num.ge_len index (length elems)
           then check_length (default 0 index) ;;
                push_fill target l elems props (default 0 index) VNull
           else ret tt) ;;
          let* c' := Heap.read l in
          match c' with
          | CArr elems' props' => arr_set target l elems' props' index value
          | CObj _ => throw (Unmodelled "array became an object")
          end
      | CObj props => obj_set target l props lastKey value
      end
  | RPlain VNull => throw (JsTypeError "Cannot set properties of null")
  | RPlain _ => throw (JsError "Cannot set property of non-object type")
  end.

Definition setDefaultDeep (obj : ref) (path : string) (defaultValue : jsval)
  : M Mem jsval :=
  let '(keys, lastKey) := pop_last (Str.split "/"%char path) in
  let* target := _traverse obj keys true in
  match target with
  | RProxy l | RPlain (VRef l) =>
      let* c := Heap.read l in
      match c with
      | CArr elems props =>
          let index := Num.parseInt lastKey in
          (if Num.ge_len index (length elems)
           then check_length (default 0 index) ;;
                push_fill target l elems props (default 0 index) VNull
           else ret tt) ;;
          let* c' := Heap.read l in
          match c' with
          | CArr elems' props' =>
              (if jsval_eqb (arr_get elems' props' index) VUndef
               then arr_set target l elems' props' index defaultValue
               else ret tt) ;;
              let* c'' := Heap.read l in
              match c'' with
              | CArr e p => ret (arr_get e p index)
              | CObj _ => throw (Unmodelled "array became an object")
              end
          | CObj _ => throw (Unmodelled "array became an object")
          end
      | CObj props =>
          let* present := obj_in props lastKey in
          (if negb present then obj_set target l props lastKey defaultValue
           else ret tt) ;;
          let* c' := Heap.read l in
          match c' with
          | CObj props' => obj_get props' lastKey
          | CArr _ _ => throw (Unmodelled "object became an array")
          end
      end
  | RPlain VNull =>
      throw (JsTypeError "Cannot use 'in' operator to search for a key in null")
  | RPlain _ => throw (JsError "Cannot set default property of non-object type")
  end.

(** [arr.splice(index, 1)] for [index < arr.length]; a negative index
    counts from the end. *)
Definition splice1 (r : ref) (l : loc) (elems : list jsval)
           (props : Obj.props jsval) (index : Z) : M Mem unit :=
  let len := Z.of_nat (length elems) in
  let start := Z.to_nat (if index <? 0 then Z.max (len + index) 0 else index) in
  if (start <? length elems)%nat
  then Heap.write l (CArr (take start elems ++ drop (S start) elems) props) ;;
       Heap.trap r (length elems - start + 1)
  else Heap.trap r 1.

Definition popDeep (obj : ref) (path : string) (defaultValue : jsval)
  : M Mem jsval :=
  let '(keys, lastKey) := pop_last (Str.split "/"%char path) in
  let* target := _traverse obj keys false in
  match target with
  | RProxy l | RPlain (VRef l) =>
      let* c := Heap.read l in
      match c with
      | CArr elems props =>
          let index := Num.parseInt lastKey in
          let value := if Num.lt_len index (length elems)
                       then arr_get elems props index else defaultValue in
          (if Num.lt_len index (length elems)
           then splice1 target l elems props (default 0 index)
           else ret tt) ;;
          ret value
      | CObj props =>
          let* present := obj_in props lastKey in
          let* value := (if present then obj_get props lastKey
                         else ret defaultValue) in
          Heap.write l (CObj (Obj.remove lastKey props)) ;;
          Heap.trap target 1 ;;
          ret value
      end
  | RPlain VNull =>
      throw (JsTypeError "Cannot use 'in' operator to search for a key in null")
  | RPlain _ => throw (JsError "Cannot pop property of non-object type")
  end.

End Traverse.

(** ** The file system, the clock and the other processes *)

Module Fs.

(** The text of a file: the JSON text of a document, or text that
    [JSON.parse] rejects (the empty lock sentinel is such a text). *)
Inductive content := Text (j : json) | Garbage.

Record file := { f_content : content; mtimeMs : Z; ctimeMs : Z }.

(** What another process does to the file system. *)
Inductive action :=
| Nop
| ExtWrite (path : string) (c : content)
| ExtCreate (path : string)       (* exclusive create, as a lock attempt *)
| ExtUnlink (path : string).

(** Time passes, then the action happens. *)
Record event := { ev_dt : N; ev_act : action }.

(** The effects of this process, in the order they happened. *)
Inductive io :=
| IoUnlink (path : string)
| IoCreate (path : string)
| IoWrite (path : string)
| IoSleep (ms : Z).

(** [sched] is what the environment will do, one event before each
    primitive operation of this process; an exhausted schedule is an
    idle environment. *)
Record World := {
  now : Z;
  files : gmap string file;
  sched : list event;
  trace : list io
}.

Definition touch (t : Z) (c : content) : file :=
  {| f_content := c; mtimeMs := t; ctimeMs := t |}.

Definition apply_event (e : event) (w : World) : World :=
  let t := now w + Z.of_N (ev_dt e) in
  let fs :=
    match ev_act e with
    | Nop => files w
    | ExtWrite p c => <[p := touch t c]> (files w)
    | ExtCreate p =>
        match files w !! p with
        | Some _ => files w
        | None => <[p := touch t Garbage]> (files w)
        end
    | ExtUnlink p => delete p (files w)
    end in
  {| now := t; files := fs; sched := sched w; trace := trace w |}.

Definition env_step (w : World) : World :=
  match sched w with
  | [] => w
  | e :: rest =>
      apply_event e {| now := now w; files := files w; sched := rest; trace := trace w |}
  end.

Definition set_sched (sch : list event) (w : World) : World :=
  {| now := now w; files := files w; sched := sch; trace := trace w |}.

Definition set_files (fs : gmap string file) (w : World) : World :=
  {| now := now w; files := fs; sched := sched w; trace := trace w |}.

Definition log (x : io) (w : World) : World :=
  {| now := now w; files := files w; sched := sched w; trace := trace w ++ [x] |}.

Definition advance (d : Z) (w : World) : World :=
  {| now := now w + d; files := files w; sched := sched w; trace := trace w |}.

Definition env : M World unit := modify env_step.

(** No other process touches the file system any more. *)
Definition quiet (w : World) : Prop :=
  Forall (fun e => ev_act e = Nop) (sched w).

(** No other process touches the file [p] any more. *)
Definition touches (p : string) (a : action) : bool :=
  match a with
  | Nop => false
  | ExtWrite q _ | ExtCreate q | ExtUnlink q => String.eqb q p
  end.

Definition leaves_alone (p : string) (w : World) : Prop :=
  Forall (fun e => touches p (ev_act e) = false) (sched w).

Definition Date_now : M World Z := env ;; gets now.

Definition existsSync (p : string) : M World bool :=
  env ;;
  gets (fun w => match files w !! p with Some _ => true | None => false end).

Definition statSync (p : string) : M World file :=
  env ;;
  let* f := gets (fun w => files w !! p) in
  match f with
  | Some st => ret st
  | None => throw (FsError "ENOENT")
  end.

Definition readFileSync (p : string) : M World content :=
  env ;;
  let* f := gets (fun w => files w !! p) in
  match f with
  | Some st => ret (f_content st)
  | None => throw (FsError "ENOENT")
  end.

Definition unlinkSync (p : string) : M World unit :=
  env ;;
  let* f := gets (fun w => files w !! p) in
  match f with
  | Some _ => modify (fun w => log (IoUnlink p) (set_files (delete p (files w)) w))
  | None => throw (FsError "ENOENT")
  end.

Definition writeFileSync (p : string) (c : content) : M World unit :=
  env ;;
  modify (fun w => log (IoWrite p) (set_files (<[p := touch (now w) c]> (files w)) w)).

(** [fs.writeFileSync(p, '', { flag: 'wx' })] *)
Definition writeFileSync_wx (p : string) : M World unit :=
  env ;;
  let* f := gets (fun w => files w !! p) in
  match f with
  | Some _ => throw (FsError "EEXIST")
  | None =>
      modify (fun w => log (IoCreate p)
                         (set_files (<[p := touch (now w) Garbage]> (files w)) w))
  end.

(** [await new Promise((resolve) => setImmediate(resolve))] *)
Definition setImmediate : M World unit := env.

(** [await new Promise((resolve) => setTimeout(resolve, ms))]; Node
    runs a timer whose delay is below 1 or above 2^31 - 1 after 1 ms. *)
Definition setTimeout (ms : Z) : M World unit :=
  let d := if (ms <? 1) || (2147483647 <? ms) then 1 else ms in
  modify (fun w => log (IoSleep d) (advance d w)) ;; env.

End Fs.

(** ** [utils/_jsonFile.js]: the store *)

Module JsonFile.

(** The [options] argument; [None] is a missing property. *)
Record Options := {
  o_lockRetryInterval : option Z;
  o_lockTimeout : option Z;
  o_lockMaxAge : option Z;
  o_watchInterval : option Z
}.

Definition no_options : Options :=
  {| o_lockRetryInterval := None; o_lockTimeout := None;
     o_lockMaxAge := None; o_watchInterval := None |}.

(** [x || d] on an optional number *)
Definition or_default (x : option Z) (d : Z) : Z :=
  match x with
  | Some z => if z =? 0 then d else z
  | None => d
  end.

Record t := {
  filename : string;
  _lockPath : string;
  _lockHolder : option Z;
  _lastModified : Z;
  _batchMode : bool;
  _queuedSave : bool;
  lockRetryInterval : Z;
  _lockTimeout : Z;
  lockMaxAge : Z;
  watchInterval : Z;
  _data : jsval;              (* [this._data] *)
  data : option loc;          (* [this.data]: the target of the proxy *)
  _watcherInterval : bool     (* the interval timer is running *)
}.

Definition set_lockHolder (h : option Z) (x : t) : t :=
  {| filename := filename x; _lockPath := _lockPath x; _lockHolder := h;
     _lastModified := _lastModified x; _batchMode := _batchMode x;
     _queuedSave := _queuedSave x; lockRetryInterval := lockRetryInterval x;
     _lockTimeout := _lockTimeout x; lockMaxAge := lockMaxAge x;
     watchInterval := watchInterval x; _data := _data x; data := data x;
     _watcherInterval := _watcherInterval x |}.

Definition set_lastModified (m : Z) (x : t) : t :=
  {| filename := filename x; _lockPath := _lockPath x; _lockHolder := _lockHolder x;
     _lastModified := m; _batchMode := _batchMode x;
     _queuedSave := _queuedSave x; lockRetryInterval := lockRetryInterval x;
     _lockTimeout := _lockTimeout x; lockMaxAge := lockMaxAge x;
     watchInterval := watchInterval x; _data := _data x; data := data x;
     _watcherInterval := _watcherInterval x |}.

Definition set_batchMode (b : bool) (x : t) : t :=
  {| filename := filename x; _lockPath := _lockPath x; _lockHolder := _lockHolder x;
     _lastModified := _lastModified x; _batchMode := b;
     _queuedSave := _queuedSave x; lockRetryInterval := lockRetryInterval x;
     _lockTimeout := _lockTimeout x; lockMaxAge := lockMaxAge x;
     watchInterval := watchInterval x; _data := _data x; data := data x;
     _watcherInterval := _watcherInterval x |}.

Definition set_queuedSave (b : bool) (x : t) : t :=
  {| filename := filename x; _lockPath := _lockPath x; _lockHolder := _lockHolder x;
     _lastModified := _lastModified x; _batchMode := _batchMode x;
     _queuedSave := b; lockRetryInterval := lockRetryInterval x;
     _lockTimeout := _lockTimeout x; lockMaxAge := lockMaxAge x;
     watchInterval := watchInterval x; _data := _data x; data := data x;
     _watcherInterval := _watcherInterval x |}.

Definition set__data (v : jsval) (x : t) : t :=
  {| filename := filename x; _lockPath := _lockPath x; _lockHolder := _lockHolder x;
     _lastModified := _lastModified x; _batchMode := _batchMode x;
     _queuedSave := _queuedSave x; lockRetryInterval := lockRetryInterval x;
     _lockTimeout := _lockTimeout x; lockMaxAge := lockMaxAge x;
     watchInterval := watchInterval x; _data := v; data := data x;
     _watcherInterval := _watcherInterval x |}.

Definition set_data (d : option loc) (x : t) : t :=
  {| filename := filename x; _lockPath := _lockPath x; _lockHolder := _lockHolder x;
     _lastModified := _lastModified x; _batchMode := _batchMode x;
     _queuedSave := _queuedSave x; lockRetryInterval := lockRetryInterval x;
     _lockTimeout := _lockTimeout x; lockMaxAge := lockMaxAge x;
     watchInterval := watchInterval x; _data := _data x; data := d;
     _watcherInterval := _watcherInterval x |}.

Definition set_watcherInterval (b : bool) (x : t) : t :=
  {| filename := filename x; _lockPath := _lockPath x; _lockHolder := _lockHolder x;
     _lastModified := _lastModified x; _batchMode := _batchMode x;
     _queuedSave := _queuedSave x; lockRetryInterval := lockRetryInterval x;
     _lockTimeout := _lockTimeout x; lockMaxAge := lockMaxAge x;
     watchInterval := watchInterval x; _data := _data x; data := data x;
     _watcherInterval := b |}.

(** Where a [save()] that was started and not awaited stands when its
    caller goes on: [save] is an [async] function, so it runs up to
    its first [await] inside the call. *)
Inductive save_pc :=
| SaveLocked                  (* at [await this.#acquireLock()], which returned *)
| SaveRejected (error : exn)  (* at the same [await], [#acquireLock] threw *)
| SaveWaiting (start : Z).    (* in the loop of [#acquireLock], at its first [await] *)

(** The state of the process: every [JsonFile] object by identity, the
    static [_instances] map, the [save()] calls that were started and
    not awaited, and the rejections nobody handled. *)
Record St := {
  world : Fs.World;
  mem : Mem;
  pid : Z;
  objects : list t;
  _instances : gmap string nat;
  pending : list (nat * save_pc);
  unhandled : list exn
}.

Definition set_world (w : Fs.World) (s : St) : St :=
  {| world := w; mem := mem s; pid := pid s; objects := objects s;
     _instances := _instances s; pending := pending s; unhandled := unhandled s |}.

Definition set_mem (m : Mem) (s : St) : St :=
  {| world := world s; mem := m; pid := pid s; objects := objects s;
     _instances := _instances s; pending := pending s; unhandled := unhandled s |}.

Definition set_objects (o : list t) (s : St) : St :=
  {| world := world s; mem := mem s; pid := pid s; objects := o;
     _instances := _instances s; pending := pending s; unhandled := unhandled s |}.

Definition set_instances (r : gmap string nat) (s : St) : St :=
  {| world := world s; mem := mem s; pid := pid s; objects := objects s;
     _instances := r; pending := pending s; unhandled := unhandled s |}.

Definition set_pending (p : list (nat * save_pc)) (s : St) : St :=
  {| world := world s; mem := mem s; pid := pid s; objects := objects s;
     _instances := _instances s; pending := p; unhandled := unhandled s |}.

Definition set_unhandled (u : list exn) (s : St) : St :=
  {| world := world s; mem := mem s; pid := pid s; objects := objects s;
     _instances := _instances s; pending := pending s; unhandled := u |}.

Definition io {A} (c : M Fs.World A) : M St A := zoom world set_world c.
Definition heap {A} (c : M Mem A) : M St A := zoom mem set_mem c.

Definition this (i : nat) : M St t :=
  fun s => match objects s !! i with
           | Some x => (Ok x, s)
           | None => (Throw (Unmodelled "no such object"), s)
           end.

Definition update (i : nat) (f : t -> t) : M St unit :=
  modify (fun s => set_objects (alter f i (objects s)) s).

(** *** Locking *)

Inductive lock_pc :=
| LockEnter                   (* the first line of [#acquireLock] *)
| LockLoop (start : Z).       (* the head of the [while] loop *)

Definition timeout_error (self : t) : exn :=
  JsError ("Lock acquisition timeout after "
           +:+ Num.to_key (Some (_lockTimeout self)) +:+ "ms").

(** [#acquireLock]; each turn of the loop and each recursive call
    costs one unit of fuel. *)
Fixpoint acquireLock_from (fuel : nat) (pc : lock_pc) (i : nat) : M St unit :=
  match fuel with
  | O => diverge
  | S fuel' =>
      let* self := this i in
      let create : M St unit :=
        let* outcome :=
          try_catch
            (io (Fs.writeFileSync_wx (_lockPath self)) ;; ret true)
            (fun error =>
               match error with
               | FsError "EEXIST" => ret false
               | _ => throw error
               end) in
        if (outcome : bool)
        then let* p := gets pid in update i (set_lockHolder (Some p))
        else acquireLock_from fuel' LockEnter i in
      match pc with
      | LockEnter =>
          let* p := gets pid in
          match _lockHolder self with
          | Some h => if h =? p then ret tt
                      else let* start := io Fs.Date_now in
                           acquireLock_from fuel' (LockLoop start) i
          | None => let* start := io Fs.Date_now in
                    acquireLock_from fuel' (LockLoop start) i
          end
      | LockLoop start =>
          let* locked := io (Fs.existsSync (_lockPath self)) in
          if (locked : bool) then
            let* stats := io (Fs.statSync (_lockPath self)) in
            let* t1 := io Fs.Date_now in
            let lockAge := t1 - Fs.ctimeMs stats in
            if lockAge >? lockMaxAge self * 1000 then
              io (Fs.unlinkSync (_lockPath self)) ;;
              create
            else
              io Fs.setImmediate ;;
              let* t2 := io Fs.Date_now in
              if t2 - start >? _lockTimeout self then throw (timeout_error self)
              else
                io (Fs.setTimeout (lockRetryInterval self)) ;;
                acquireLock_from fuel' (LockLoop start) i
          else create
      end
  end.

Definition acquireLock (fuel : nat) (i : nat) : M St unit :=
  acquireLock_from fuel LockEnter i.

(** [#acquireLock] as far as it runs inside the call, that is up to
    its first [await]: [None] when it has returned, [Some start] when
    it has reached [await new Promise(... setImmediate ...)] in its
    loop.  Only the recursive call after [EEXIST] costs fuel. *)
Fixpoint acquireLock_sync (fuel : nat) (i : nat) : M St (option Z) :=
  match fuel with
  | O => diverge
  | S fuel' =>
      let* self := this i in
      let create : M St (option Z) :=
        let* outcome :=
          try_catch
            (io (Fs.writeFileSync_wx (_lockPath self)) ;; ret true)
            (fun error =>
               match error with
               | FsError "EEXIST" => ret false
               | _ => throw error
               end) in
        if (outcome : bool)
        then let* p := gets pid in update i (set_lockHolder (Some p)) ;; ret None
        else acquireLock_sync fuel' i in
      let enter : M St (option Z) :=
        let* start := io Fs.Date_now in
        let* locked := io (Fs.existsSync (_lockPath self)) in
        if (locked : bool) then
          let* stats := io (Fs.statSync (_lockPath self)) in
          let* t1 := io Fs.Date_now in
          let lockAge := t1 - Fs.ctimeMs stats in
          if lockAge >? lockMaxAge self * 1000 then
            io (Fs.unlinkSync (_lockPath self)) ;;
            create
          else ret (Some start)
        else create in
      let* p := gets pid in
      match _lockHolder self with
      | Some h => if h =? p then ret None else enter
      | None => enter
      end
  end.

(** [#acquireLock] from the [await] it stopped at to its end. *)
Definition acquireLock_resume (fuel : nat) (start : Z) (i : nat) : M St unit :=
  let* self := this i in
  io Fs.setImmediate ;;
  let* t2 := io Fs.Date_now in
  if t2 - start >? _lockTimeout self then throw (timeout_error self)
  else
    io (Fs.setTimeout (lockRetryInterval self)) ;;
    acquireLock_from fuel (LockLoop start) i.

(** [#releaseLock]; [console.error] is the only effect of the handler. *)
Definition releaseLock (i : nat) : M St unit :=
  try_catch
    (let* self := this i in
     let* p := gets pid in
     match _lockHolder self with
     | Some h =>
         if h =? p then
           io (Fs.unlinkSync (_lockPath self)) ;;
           update i (set_lockHolder None)
         else ret tt
     | None => ret tt
     end)
    (fun _ => ret tt).

(** *** Loading and saving *)

Definition JSON_parse (c : Fs.content) : M St jsval :=
  match c with
  | Fs.Text j => heap (Heap.parse j)
  | Fs.Garbage => throw (JsSyntaxError "Unexpected token")
  end.

Definition loadSync (i : nat) : M St unit :=
  try_catch
    (let* self := this i in
     let* content := io (Fs.readFileSync (filename self)) in
     let* doc := JSON_parse content in
     update i (set__data doc) ;;
     let* stats := io (Fs.statSync (filename self)) in
     update i (set_lastModified (Fs.mtimeMs stats)))
    (fun _ =>
       let* empty := heap (Heap.new (CObj [])) in
       update i (set__data empty)).

Definition load (fuel : nat) (i : nat) : M St unit :=
  acquireLock fuel i ;;
  try_finally (loadSync i) (releaseLock i).

(** [JSON.stringify(this.data, null, 2)] *)
Definition JSON_stringify_data (i : nat) : M St Fs.content :=
  let* self := this i in
  let* h := gets (fun s => cells (mem s)) in
  match data self with
  | None => throw (JsTypeError "The data argument must be of type string")
  | Some l =>
      match Heap.serialize h (VRef l) with
      | Heap.SJson j => ret (Fs.Text j)
      | Heap.SUndef => throw (JsTypeError "The data argument must be of type string")
      | Heap.SCycle => throw (JsTypeError "Converting circular structure to JSON")
      end
  end.

(** The body of [save()] after its batch-mode test. *)
Definition save_body (fuel : nat) (i : nat) : M St unit :=
  acquireLock fuel i ;;
  try_finally
    (let* self := this i in
     let* text := JSON_stringify_data i in
     io (Fs.writeFileSync (filename self) text) ;;
     let* stats := io (Fs.statSync (filename self)) in
     update i (set_lastModified (Fs.mtimeMs stats)))
    (releaseLock i).

(** The [try ... finally] of [save()], which follows its [await]. *)
Definition save_write (i : nat) : M St unit :=
  try_finally
    (let* self := this i in
     let* text := JSON_stringify_data i in
     io (Fs.writeFileSync (filename self) text) ;;
     let* stats := io (Fs.statSync (filename self)) in
     update i (set_lastModified (Fs.mtimeMs stats)))
    (releaseLock i).

(** [this.save()] without [await]: the batch-mode test and
    [#acquireLock] up to its first [await] run inside the call, the
    rest when the caller has returned to the event loop.  An exception
    of [#acquireLock] rejects the promise of [save()]; it is not thrown
    to the caller.  Every recursive call of [#acquireLock] follows a
    lost race, which takes an event of the environment, so one turn
    more than the environment has events is enough. *)
Definition save (i : nat) : M St unit :=
  let* self := this i in
  if _batchMode self then ret tt
  else
    let* turns := gets (fun s => S (length (Fs.sched (world s)))) in
    let* pc :=
      try_catch
        (let* waits := acquireLock_sync turns i in
         ret (match waits with
              | None => SaveLocked
              | Some start => SaveWaiting start
              end))
        (fun error => ret (SaveRejected error)) in
    modify (fun s => set_pending (pending s ++ [(i, pc)]) s).

(** A started [save()] from where it stands to its end. *)
Definition resume_save (fuel : nat) (i : nat) (pc : save_pc) : M St unit :=
  match pc with
  | SaveLocked => save_write i
  | SaveRejected error => throw error
  | SaveWaiting start => acquireLock_resume fuel start i ;; save_write i
  end.

(** The event loop runs the started saves, one after the other; a
    rejected one is an unhandled rejection. *)
Fixpoint run_saves (fuel : nat) (queue : list (nat * save_pc)) : M St unit :=
  match queue with
  | [] => ret tt
  | (i, pc) :: rest =>
      try_catch (resume_save fuel i pc)
                (fun e => modify (fun s => set_unhandled (unhandled s ++ [e]) s)) ;;
      run_saves fuel rest
  end.

Definition settle (fuel : nat) : M St unit :=
  let* queue := gets pending in
  modify (set_pending []) ;;
  run_saves fuel queue.

(** *** The proxy *)

(** The body shared by the [set] and [deleteProperty] traps, after the
    property of the target has been written or deleted. *)
Definition trap_handler (i : nat) : M St unit :=
  let* self := this i in
  if negb (_batchMode self) then save i
  else update i (set_queuedSave true).

(** Run a traversal on [this.data] and the handler of every trap it
    set off. *)
Definition on_data {A} (i : nat) (c : ref -> M Mem A) : M St A :=
  fun s =>
    match this i s with
    | (Ok self, _) =>
        let target := match data self with
                      | Some l => RProxy l
                      | None => RPlain VUndef
                      end in
        let '(r, m) := c target {| cells := cells (mem s); traps := 0 |} in
        match repeatM (traps m) (trap_handler i) (set_mem m s) with
        | (Ok _, s') => (r, s')
        | (Throw e, s') => (Throw e, s')
        | (Diverge, s') => (Diverge, s')
        end
    | (Throw e, s') => (Throw e, s')
    | (Diverge, s') => (Diverge, s')
    end.

Definition _setupProxy (i : nat) : M St unit :=
  let* self := this i in
  match _data self with
  | VRef l => update i (set_data (Some l))
  | _ => throw (JsTypeError "Cannot create proxy with a non-object as target or handler")
  end.

(** *** The watcher *)

Definition _setupWatcher (i : nat) : M St unit :=
  update i (set_watcherInterval true).

(** One firing of the interval timer. *)
Definition watcher_tick (fuel : nat) (i : nat) : M St unit :=
  let* self := this i in
  if _watcherInterval self then
    try_catch
      (let* stats := io (Fs.statSync (filename self)) in
       let* self' := this i in
       if Fs.mtimeMs stats >? _lastModified self' then load fuel i else ret tt)
      (fun _ => ret tt)
  else ret tt.

(** *** Construction and the registry *)

Definition constructor (file : string) (options : Options) : M St nat :=
  let* registered := gets (fun s => _instances s !! file) in
  match registered with
  | Some _ =>
      throw (JsError ("JsonFile instance for " +:+ file
                      +:+ " already exists. Use JsonFile.getInstance() instead."))
  | None =>
      let* i := gets (fun s => length (objects s)) in
      modify (fun s =>
        set_instances (<[file := i]> (_instances s))
          (set_objects
             (objects s ++
              [{| filename := file;
                  _lockPath := file +:+ ".lock";
                  _lockHolder := None;
                  _lastModified := 0;
                  _batchMode := false;
                  _queuedSave := false;
                  lockRetryInterval := or_default (o_lockRetryInterval options) 100;
                  _lockTimeout := or_default (o_lockTimeout options) 5000;
                  lockMaxAge := or_default (o_lockMaxAge options) 30;
                  watchInterval := or_default (o_watchInterval options) 3000;
                  _data := VUndef;
                  data := None;
                  _watcherInterval := false |}]) s)) ;;
      loadSync i ;;
      _setupWatcher i ;;
      _setupProxy i ;;
      ret i
  end.

Definition getInstance (file : string) (options : Options) : M St nat :=
  let* registered := gets (fun s => _instances s !! file) in
  (match registered with
   | Some _ => ret tt
   | None =>
       let* i := constructor file options in
       modify (fun s => set_instances (<[file := i]> (_instances s)) s)
   end) ;;
  let* found := gets (fun s => _instances s !! file) in
  match found with
  | Some i => ret i
  | None => throw (Unmodelled "getInstance returned undefined")
  end.

Definition close (i : nat) : M St unit :=
  let* self := this i in
  update i (set_watcherInterval false) ;;
  modify (fun s => set_instances (delete (filename self) (_instances s)) s).

(** *** Batch mode *)

Definition beginBatch (i : nat) : M St unit :=
  update i (set_batchMode true) ;;
  update i (set_queuedSave false).

Definition endBatch (i : nat) : M St unit :=
  update i (set_batchMode false) ;;
  let* self := this i in
  if _queuedSave self then
    save i ;;
    update i (set_queuedSave false)
  else ret tt.

(** *** Data manipulation *)

(** A parameter declared [defaultValue = null] *)
Definition or_null (v : jsval) : jsval :=
  match v with VUndef => VNull | _ => v end.

Definition get (i : nat) (key : string) (defaultValue : jsval) : M St jsval :=
  try_catch (on_data i (fun d => Traverse.getDeep d key))
            (fun _ => ret (or_null defaultValue)).

Definition set (i : nat) (key : string) (value : jsval) : M St unit :=
  on_data i (fun d => Traverse.setDeep d key value).

Definition setDefault (i : nat) (key : string) (defaultValue : jsval) : M St jsval :=
  on_data i (fun d => Traverse.setDefaultDeep d key defaultValue).

Definition pop (i : nat) (key : string) (defaultValue : jsval) : M St jsval :=
  on_data i (fun d => Traverse.popDeep d key (or_null defaultValue)).

(** The class has no other method; calling one is a [TypeError]. *)
Definition no_method {A} (name : string) : M St A :=
  throw (JsTypeError (name +:+ " is not a function")).

(** *** The life of the registry *)

(** What the constructor fixes for good. *)
Definition settings (x : t) : string * (Z * Z * Z * Z) :=
  (filename x, (lockRetryInterval x, _lockTimeout x, lockMaxAge x, watchInterval x)).

Definition settings_of (file : string) (options : Options) : string * (Z * Z * Z * Z) :=
  (file, (or_default (o_lockRetryInterval options) 100,
          or_default (o_lockTimeout options) 5000,
          or_default (o_lockMaxAge options) 30,
          or_default (o_watchInterval options) 3000)).

(** Everything the process can do to the stores, and what the other
    processes do meanwhile. *)
Inductive call :=
| CNew (file : string) (options : Options)
| CGetInstance (file : string) (options : Options)
| CClose (i : nat)
| CGet (i : nat) (key : string) (defaultValue : jsval)
| CSet (i : nat) (key : string) (value : jsval)
| CSetDefault (i : nat) (key : string) (defaultValue : jsval)
| CPop (i : nat) (key : string) (defaultValue : jsval)
| CBeginBatch (i : nat)
| CEndBatch (i : nat)
| CLoadSync (i : nat)
| CLoad (fuel : nat) (i : nat)
| CSave (i : nat)
| CSettle (fuel : nat)
| CTick (fuel : nat) (i : nat)
| CElsewhere (e : Fs.event).

Definition exec (c : call) (s : St) : St :=
  match c with
  | CNew file options => snd (constructor file options s)
  | CGetInstance file options => snd (getInstance file options s)
  | CClose i => snd (close i s)
  | CGet i key d => snd (get i key d s)
  | CSet i key v => snd (set i key v s)
  | CSetDefault i key d => snd (setDefault i key d s)
  | CPop i key d => snd (pop i key d s)
  | CBeginBatch i => snd (beginBatch i s)
  | CEndBatch i => snd (endBatch i s)
  | CLoadSync i => snd (loadSync i s)
  | CLoad fuel i => snd (load fuel i s)
  | CSave i => snd (save i s)
  | CSettle fuel => snd (settle fuel s)
  | CTick fuel i => snd (watcher_tick fuel i s)
  | CElsewhere e => set_world (Fs.apply_event e (world s)) s
  end.

(** The states a process can be in. *)
Inductive reachable : St -> Prop :=
| reach_boot s : objects s = [] -> _instances s = ∅ -> reachable s
| reach_step c s : reachable s -> reachable (exec c s).

Definition registered (s : St) (i : nat) : Prop :=
  exists file, _instances s !! file = Some i.

(** Every registration leads to an object of that file name. *)
Definition registry_ok (s : St) : Prop :=
  forall file i, _instances s !! file = Some i ->
                 filename <$> (objects s !! i) = Some file.

(** What [get], [set] and [save] work on, next to the settings. *)
Definition binding (x : t) : string * (Z * Z * Z * Z) * option loc :=
  (settings x, data x).

(** The registry is the same, and so is [proj] of every object. *)
Definition keeps {X} (proj : t -> X) (s s' : St) : Prop :=
  _instances s' = _instances s
  /\ map proj (objects s') = map proj (objects s).

Definition keeps_registry : St -> St -> Prop := keeps settings.

(** What taking the lock may change: the files and the holder. *)
Definition lock_frame (s s' : St) : Prop :=
  mem s' = mem s /\ pid s' = pid s /\ _instances s' = _instances s
  /\ pending s' = pending s /\ unhandled s' = unhandled s
  /\ map (set_lockHolder None) (objects s') = map (set_lockHolder None) (objects s).

End JsonFile.

(** ** [config/index.js]: the scoped facade *)

Module Config.

(** What the host application and the platform provide. *)
Record Host := {
  localeCompare : string -> string -> Z;
  path_join : list string -> string;
  path_dirname : string -> string;
  homedir : string;
  plugin_id : option string;       (* [eagle.plugin.manifest.id]; [None]: no plugin *)
  plugin_path : option string;     (* [eagle.plugin.path] *)
  library_path : option string;    (* [eagle.library.path]; [None]: no library *)
  item_getSelected : list Descriptor;
  folder_getSelected : list Descriptor
}.

Definition APP := "app".
Definition PLUGIN := "plugin".
Definition ITEM := "item".
Definition FOLDER := "folder".
Definition LIBRARY := "library".
Definition USER := "user".

(** A value of [args.item] or [args.folder]. *)
Inductive arg :=
| Missing
| One (d : Descriptor)
| Many (l : list Descriptor).

Record Args := { item : arg; folder : arg }.

Definition truthy (a : arg) : bool :=
  match a with Missing => false | _ => true end.

Record t := {
  scope : string;
  flags : list string;             (* a [Set], in insertion order *)
  _args : option Args;
  _cache : option nat;
  keyUpstreamToggle : bool;
  keyUpstreamThreshold : Z
}.

(** The running process around one [Config] object; [random] holds the
    strings the coming calls of [#generateRefId] produce. *)
Record State := {
  self : t;
  store : JsonFile.St;
  random : list string
}.

Definition set_self (c : t) (s : State) : State :=
  {| self := c; store := store s; random := random s |}.
Definition set_store (x : JsonFile.St) (s : State) : State :=
  {| self := self s; store := x; random := random s |}.
Definition set_random (r : list string) (s : State) : State :=
  {| self := self s; store := store s; random := r |}.

Definition set_args (a : option Args) (c : t) : t :=
  {| scope := scope c; flags := flags c; _args := a; _cache := _cache c;
     keyUpstreamToggle := keyUpstreamToggle c;
     keyUpstreamThreshold := keyUpstreamThreshold c |}.
Definition set_cache (i : option nat) (c : t) : t :=
  {| scope := scope c; flags := flags c; _args := _args c; _cache := i;
     keyUpstreamToggle := keyUpstreamToggle c;
     keyUpstreamThreshold := keyUpstreamThreshold c |}.

Definition file {A} (c : M JsonFile.St A) : M State A := zoom store set_store c.

Definition nonempty_opt (s : option string) : bool :=
  match s with Some x => Str.nonempty x | None => false end.

(** [new Set(flags)] *)
Fixpoint to_set (l : list string) (seen : list string) : list string :=
  match l with
  | [] => []
  | x :: l' =>
      if existsb (String.eqb x) seen then to_set l' seen
      else x :: to_set l' (x :: seen)
  end.

Section WithHost.
Variable host : Host.

(** *** [FlagHandler], with the two handlers the module registers *)

Definition handler (flag : string) : option (Key.attrs -> res Key.attrs) :=
  if String.eqb flag "pluginOnly" then
    Some (fun attrs =>
            match plugin_id host with
            | Some id => Ok (Key.spread_with attrs "pluginId" id)
            | None => Throw (JsTypeError "Cannot read properties of undefined")
            end)
  else if String.eqb flag "folderOnly" then
    Some (fun attrs => Ok (Key.spread_with attrs "folderOnly" "true"))
  else None.

Definition invalidScopes (flag : string) : option (list string) :=
  if String.eqb flag "pluginOnly" then Some ["plugin"]
  else if String.eqb flag "folderOnly" then Some ["folder"]
  else None.

Definition requiresContext (flag : string) : option bool :=
  if String.eqb flag "pluginOnly"
  then Some (match plugin_id host with Some _ => true | None => false end)
  else None.

Fixpoint processFlags_loop (flags : list string) (result : Key.attrs)
  : res Key.attrs :=
  match flags with
  | [] => Ok result
  | flag :: rest =>
      match handler flag with
      | Some h =>
          match h result with
          | Ok result' => processFlags_loop rest result'
          | other => other
          end
      | None => processFlags_loop rest result
      end
  end.

Definition processFlags (scope : string) (flags : list string)
           (attributes : Key.attrs) : res Key.attrs :=
  processFlags_loop flags (Obj.entries attributes).

Fixpoint validateFlags (scope : string) (flags : list string) : res unit :=
  match flags with
  | [] => Ok tt
  | flag :: rest =>
      match invalidScopes flag with
      | None => validateFlags scope rest
      | Some invalid =>
          if existsb (String.eqb scope) invalid then
            Throw (JsError ("Flag " +:+ flag +:+ " cannot be used with scope " +:+ scope))
          else
            match requiresContext flag with
            | Some false =>
                Throw (JsError ("Flag " +:+ flag
                                +:+ " requires specific context that is not available"))
            | _ => validateFlags scope rest
            end
      end
  end.

(** [config(scope, flags)] *)
Definition config (scope : string) (flags : list string) : res t :=
  match validateFlags scope flags with
  | Ok _ =>
      Ok {| scope := scope; flags := to_set flags []; _args := None;
            _cache := None; keyUpstreamToggle := true;
            keyUpstreamThreshold := 3 |}
  | Throw e => Throw e
  | Diverge => Diverge
  end.

Definition lift_res {S A} (r : res A) : M S A := fun s => (r, s).

(** [path.join(dir, 'coolerConfig.json')] for a directory the host
    may not have. *)
Definition config_in (dir : option string) : M State string :=
  match dir with
  | Some d => ret (path_join host [d; "coolerConfig.json"])
  | None => throw (JsTypeError "The path argument must be of type string")
  end.

Definition createCache : M State nat :=
  let* c := gets self in
  if String.eqb (scope c) APP then
    (* [roamingPath] is imported as a function and passed to [path.join] *)
    throw (JsTypeError "The path argument must be of type string")
  else if String.eqb (scope c) PLUGIN then
    if negb (nonempty_opt (plugin_id host))
    then throw (JsError "Plugin scope requires active plugin context")
    else let* f := config_in (plugin_path host) in
         file (JsonFile.getInstance f JsonFile.no_options)
  else if String.eqb (scope c) ITEM then
    match _args c with
    | Some {| item := One d |} =>
        file (JsonFile.getInstance
                (path_join host [path_dirname host (filePath d); "coolerConfig.json"])
                JsonFile.no_options)
    | Some {| item := Many (d :: _) |} =>
        file (JsonFile.getInstance
                (path_join host [path_dirname host (filePath d); "coolerConfig.json"])
                JsonFile.no_options)
    | Some {| item := Many [] |} =>
        throw (JsTypeError "Cannot read properties of undefined (reading 'filePath')")
    | _ => throw (JsError "Item scope requires items to be supplied")
    end
  else if String.eqb (scope c) FOLDER then
    if negb (nonempty_opt (library_path host))
    then throw (JsError "Folder scope requires active library context")
    else let* f := config_in (library_path host) in
         file (JsonFile.getInstance f JsonFile.no_options)
  else if String.eqb (scope c) LIBRARY then
    if negb (nonempty_opt (library_path host))
    then throw (JsError "Library scope requires active library context")
    else let* f := config_in (library_path host) in
         file (JsonFile.getInstance f JsonFile.no_options)
  else if String.eqb (scope c) USER then
    file (JsonFile.getInstance
            (path_join host [homedir host; ".eaglecooler"; "coolerConfig.json"])
            JsonFile.no_options)
  else throw (JsError ("Invalid scope: " +:+ scope c)).

Definition supplyArgs (args : Args) : M State unit :=
  (if truthy (item args) && truthy (folder args)
   then throw (JsError "Cannot supply both items and folders")
   else ret tt) ;;
  let* c := gets self in
  (if negb (truthy (item args)) && negb (truthy (folder args)) then
     if String.eqb (scope c) ITEM then
       match item_getSelected host with
       | [] => throw (JsError "No items selected")
       | selected =>
           modify (fun s => set_self
             (set_args (Some {| item := Many selected; folder := Missing |}) (self s)) s)
       end
     else if String.eqb (scope c) FOLDER then
       match folder_getSelected host with
       | [] => throw (JsError "No folders selected")
       | selected =>
           modify (fun s => set_self
             (set_args (Some {| item := Missing; folder := Many selected |}) (self s)) s)
       end
     else ret tt
   else modify (fun s => set_self (set_args (Some args) (self s)) s)) ;;
  let* i := createCache in
  modify (fun s => set_self (set_cache (Some i) (self s)) s).

Definition getCache : M State nat :=
  let* c := gets self in
  match _cache c with
  | Some i => ret i
  | None =>
      let* i := createCache in
      modify (fun s => set_self (set_cache (Some i) (self s)) s) ;;
      ret i
  end.

Definition buildKey (key : string) : M State string :=
  let* c := gets self in
  let '(attributes, baseKey) := Key.parseKeyWithAttributes key in
  let* scopeAttributes := lift_res (processFlags (scope c) (flags c) attributes) in
  ret (Key.buildKeyWithAttributes (localeCompare host) scopeAttributes baseKey).

(** [this._args?.item] if it is an array, else [this._args?.folder]
    if it is one, else nothing. *)
Definition bound_array (c : t) : option (list Descriptor) :=
  match _args c with
  | Some {| item := Many l |} => Some l
  | Some {| folder := Many l |} => Some l
  | _ => None
  end.

Definition shouldUseUpstream (c : t) : bool :=
  if negb (keyUpstreamToggle c) then false
  else
    let count := match bound_array c with
                 | Some l => Z.of_nat (length l)
                 | None => 0
                 end in
    count >? keyUpstreamThreshold c.

(** [Math.random().toString(36).substring(2, 15)] *)
Definition generateRefId : M State string :=
  let* r := gets random in
  match r with
  | [] => ret EmptyString
  | x :: rest => modify (set_random rest) ;; ret x
  end.

Definition libraryConfig : M State nat :=
  let* f := config_in (library_path host) in
  file (JsonFile.getInstance f JsonFile.no_options).

Definition descriptor_json (d : Descriptor) : json :=
  JObj [("id", JStr (d_id d)); ("filePath", JStr (filePath d))].

(** The array stored under [@refId] is the bound array itself; the
    document gets a copy of it here. *)
Definition storeUpstream (key : string) (value : jsval) : M State string :=
  let* refId := generateRefId in
  let* lib := libraryConfig in
  let* c := gets self in
  let affected := default [] (bound_array c) in
  let* stored := file (JsonFile.heap (Heap.parse (JArr (map descriptor_json affected)))) in
  file (JsonFile.set lib ("@" +:+ refId) stored) ;;
  let '(attributes, baseKey) := Key.parseKeyWithAttributes key in
  let dataKey := Key.buildKeyWithAttributes (localeCompare host)
                   (Key.spread_with attributes "ref" refId) baseKey in
  file (JsonFile.set lib dataKey value) ;;
  ret refId.

(** The scan of [#getUpstream] and [delete]: the id of the first
    [@]-entry whose descriptor list equals the bound one. *)
Fixpoint find_reference (all : list (string * option (list Descriptor)))
         (current : list Descriptor) : option string :=
  match all with
  | [] => None
  | (refKey, affected) :: rest =>
      if Str.startsWith "@" refKey
         && areArraysEqual (localeCompare host) affected (Some current)
      then Some (Str.tail refKey)
      else find_reference rest current
  end.

Definition getUpstream (key : string) : M State jsval :=
  let* lib := libraryConfig in
  let* c := gets self in
  let current := default [] (bound_array c) in
  let* all := file (JsonFile.no_method "libraryConfig.getAll") in
  match find_reference all current with
  | Some refId =>
      let '(attributes, baseKey) := Key.parseKeyWithAttributes key in
      let dataKey := Key.buildKeyWithAttributes (localeCompare host)
                       (Key.spread_with attributes "ref" refId) baseKey in
      file (JsonFile.get lib dataKey VUndef)
  | None => ret VUndef
  end.

Definition get (key : string) : M State jsval :=
  let* c := gets self in
  if shouldUseUpstream c then getUpstream key
  else
    let* cache := getCache in
    let* k := buildKey key in
    file (JsonFile.get cache k VUndef).

Definition set (key : string) (value : jsval) : M State unit :=
  let* c := gets self in
  if shouldUseUpstream c then storeUpstream key value ;; ret tt
  else
    let* cache := getCache in
    let* k := buildKey key in
    file (JsonFile.set cache k value).

Definition setdefault (key : string) (value : jsval) : M State jsval :=
  let* existingValue := get key in
  if jsval_eqb existingValue VUndef then
    set key value ;;
    ret value
  else ret existingValue.

Definition delete (key : string) : M State unit :=
  let* c := gets self in
  if shouldUseUpstream c then
    let* lib := libraryConfig in
    let current := default [] (bound_array c) in
    let* all := file (JsonFile.no_method "libraryConfig.getAll") in
    match find_reference all current with
    | Some refId =>
        file (JsonFile.no_method (A := unit) "libraryConfig.delete") ;;
        let '(attributes, baseKey) := Key.parseKeyWithAttributes key in
        let dataKey := Key.buildKeyWithAttributes (localeCompare host)
                         (Key.spread_with attributes "ref" refId) baseKey in
        file (JsonFile.no_method (A := unit) "libraryConfig.delete")
    | None => ret tt
    end
  else
    let* cache := getCache in
    let* k := buildKey key in
    file (JsonFile.no_method (A := unit) "this.#getCache(...).delete").

Definition pop (key : string) : M State jsval :=
  let* value := get key in
  delete key ;;
  ret value.

End WithHost.

End Config.

(** ** Observations and concrete scenarios *)

Module Scenario.
Import JsonFile.

(** Code-unit comparison, standing in for the collation. *)
Definition codeUnitCompare (a b : string) : Z :=
  match String.compare a b with Lt => -1 | Eq => 0 | Gt => 1 end.

(** A comparison that gives control characters no weight, as the
    collation behind [String.prototype.localeCompare] does: [a] and
    [a\u0001] compare equal.  What is left of the strings is compared
    by code unit. *)
Definition ignorable (c : ascii) : bool :=
  let n := nat_of_ascii c in
  (n <? 9)%nat || ((13 <? n)%nat && (n <? 32)%nat) || (n =? 127)%nat.

Fixpoint collation_key (s : string) : string :=
  match s with
  | EmptyString => EmptyString
  | String c s' => if ignorable c then collation_key s' else String c (collation_key s')
  end.

Definition weightCompare (a b : string) : Z :=
  codeUnitCompare (collation_key a) (collation_key b).

(** The part of a path before its last [/]. *)
Definition dirname (p : string) : string :=
  match List.removelast (Str.split "/"%char p) with
  | [] => "."
  | segs => Str.join "/" segs
  end.

Definition host (library : option string) : Config.Host :=
  {| Config.localeCompare := codeUnitCompare;
     Config.path_join := Str.join "/";
     Config.path_dirname := dirname;
     Config.homedir := "/home/u";
     Config.plugin_id := Some "my-plugin";
     Config.plugin_path := Some "/plugins/my-plugin";
     Config.library_path := library;
     Config.item_getSelected := [];
     Config.folder_getSelected := [] |}.

(** The same host with the comparison that ignores control characters. *)
Definition weighing_host : Config.Host :=
  {| Config.localeCompare := weightCompare;
     Config.path_join := Str.join "/";
     Config.path_dirname := dirname;
     Config.homedir := "/home/u";
     Config.plugin_id := Some "my-plugin";
     Config.plugin_path := Some "/plugins/my-plugin";
     Config.library_path := None;
     Config.item_getSelected := [];
     Config.folder_getSelected := [] |}.

Definition world_at (t : Z) (fs : gmap string Fs.file) (sch : list Fs.event) : Fs.World :=
  {| Fs.now := t; Fs.files := fs; Fs.sched := sch; Fs.trace := [] |}.

(** A process that has not touched any store yet. *)
Definition boot (w : Fs.World) : St :=
  {| world := w; mem := {| cells := []; traps := 0 |}; pid := 4242;
     objects := []; _instances := ∅; pending := []; unhandled := [] |}.

Definition item_at (name : string) : Descriptor :=
  {| d_id := name; filePath := "/lib/images/" +:+ name +:+ ".info/" +:+ name +:+ ".png" |}.

(** A [Config] object as [new Config(scope, [])] leaves it. *)
Definition fresh (scope : string) : Config.t :=
  {| Config.scope := scope; Config.flags := []; Config._args := None;
     Config._cache := None; Config.keyUpstreamToggle := true;
     Config.keyUpstreamThreshold := 3 |}.

(** [new Config(scope, flags)] for flags that pass validation. *)
Definition flagged (scope : string) (flags : list string) : Config.t :=
  {| Config.scope := scope; Config.flags := Config.to_set flags [];
     Config._args := None; Config._cache := None;
     Config.keyUpstreamToggle := true; Config.keyUpstreamThreshold := 3 |}.

Definition start (c : Config.t) (w : Fs.World) : Config.State :=
  {| Config.self := c; Config.store := boot w;
     Config.random := ["k3x9f2a7"; "p0q8m4zt"; "w6e1r5yu"] |}.

(** A user-scope configuration on an empty disk. *)
Definition user_state : Config.State :=
  start (fresh Config.USER) (world_at 1700000000000 ∅ []).

Definition user_file : string := "/home/u/.eaglecooler/coolerConfig.json".

(** The document on disk and the one in memory, as the store holds them. *)
Definition on_disk (s : St) (path : string) : option Fs.content :=
  Fs.f_content <$> (Fs.files (world s) !! path).

Definition in_memory (s : St) (i : nat) : option Heap.text :=
  match objects s !! i with
  | Some x =>
      match data x with
      | Some l => Some (Heap.serialize (cells (mem s)) (VRef l))
      | None => None
      end
  | None => None
  end.

(** The document [this._data] refers to. *)
Definition loaded (s : St) (i : nat) : option Heap.text :=
  match objects s !! i with
  | Some x => Some (Heap.serialize (cells (mem s)) (_data x))
  | None => None
  end.

Fixpoint json_eqb (a b : json) : bool :=
  match a, b with
  | JNull, JNull => true
  | JBool x, JBool y => Bool.eqb x y
  | JNum x, JNum y => x =? y
  | JStr x, JStr y => String.eqb x y
  | JArr l, JArr l' =>
      (fix go (l l' : list json) : bool :=
         match l, l' with
         | [], [] => true
         | x :: t, y :: t' => json_eqb x y && go t t'
         | _, _ => false
         end) l l'
  | JObj l, JObj l' =>
      (fix go (l l' : list (string * json)) : bool :=
         match l, l' with
         | [], [] => true
         | (k, x) :: t, (k', y) :: t' => String.eqb k k' && json_eqb x y && go t t'
         | _, _ => false
         end) l l'
  | _, _ => false
  end.

(** The backing file holds the text of the in-memory document. *)
Definition file_reflects (s : St) (i : nat) : bool :=
  match objects s !! i with
  | Some x =>
      match on_disk s (filename x), in_memory s i with
      | Some (Fs.Text j), Some (Heap.SJson j') => json_eqb j j'
      | _, _ => false
      end
  | None => false
  end.

(** The milliseconds this process slept, as the trace records them. *)
Definition slept (tr : list Fs.io) : Z :=
  foldr (fun x acc => match x with Fs.IoSleep d => d + acc | _ => acc end) 0 tr.

Definition unlinks (tr : list Fs.io) : nat :=
  length (List.filter (fun x => match x with Fs.IoUnlink _ => true | _ => false end) tr).

Definition t0 : Z := 1700000000000.

(** The store opened on [file], the disk holding [fs]. *)
Definition opened (file : string) (fs : gmap string Fs.file) : St :=
  snd (getInstance file no_options (boot (world_at t0 fs []))).

Definition with_sched (sch : list Fs.event) (s : St) : St :=
  set_world (Fs.set_sched sch (world s)) s.

(** *** Locks *)

(** A sentinel left behind an hour ago. *)
Definition stale_lock : St :=
  opened "cfg.json" {[ "cfg.json.lock" := Fs.touch (t0 - 3600000) Fs.Garbage ]}.

Definition idle : Fs.event := {| Fs.ev_dt := 0; Fs.ev_act := Fs.Nop |}.

(** Another process holds the lock for four seconds and releases it;
    a third one takes it between this process's [existsSync] and its
    exclusive create, and keeps it. *)
Definition raced : St :=
  with_sched
    (replicate 241 idle
     ++ [ {| Fs.ev_dt := 0; Fs.ev_act := Fs.ExtUnlink "cfg.json.lock" |};
          {| Fs.ev_dt := 0; Fs.ev_act := Fs.ExtCreate "cfg.json.lock" |} ])
    (opened "cfg.json" {[ "cfg.json.lock" := Fs.touch t0 Fs.Garbage ]}).

(** A sentinel left behind an hour ago; another process, which breaks
    it too, creates its own between this process's [unlinkSync] and
    its exclusive create, and keeps it. *)
Definition stale_raced : St :=
  with_sched
    (replicate 5 idle
     ++ [ {| Fs.ev_dt := 0; Fs.ev_act := Fs.ExtCreate "cfg.json.lock" |} ])
    stale_lock.

(** The holder releases the lock between this process's [existsSync]
    and its [statSync]. *)
Definition released_early : St :=
  with_sched
    [ idle; idle; {| Fs.ev_dt := 0; Fs.ev_act := Fs.ExtUnlink "cfg.json.lock" |} ]
    (opened "cfg.json" {[ "cfg.json.lock" := Fs.touch t0 Fs.Garbage ]}).

(** This process holds the lock; another one, taking the sentinel for
    stale, removes it. *)
Definition lock_lost : St :=
  with_sched
    [ {| Fs.ev_dt := 31000; Fs.ev_act := Fs.ExtUnlink "cfg.json.lock" |} ]
    (snd (acquireLock 2 0 (opened "cfg.json" ∅))).

(** *** Documents *)

Definition nested_doc : json := JObj [("a", JObj [("b", JObj [])])].

(** A store whose file holds [{"a": {"b": {}}}]. *)
Definition nested_store : St :=
  opened "cfg.json" {[ "cfg.json" := Fs.touch (t0 - 5000) (Fs.Text nested_doc) ]}.

(** A store whose file holds [{"theme": "dark"}]. *)
Definition theme_store : St :=
  opened "cfg.json"
    {[ "cfg.json" := Fs.touch (t0 - 5000) (Fs.Text (JObj [("theme", JStr "dark")])) ]}.

(** Ten seconds later another program rewrites the file. *)
Definition rewritten : list Fs.event :=
  [ {| Fs.ev_dt := 10000;
       Fs.ev_act := Fs.ExtWrite "cfg.json" (Fs.Text (JObj [("theme", JStr "light")])) |} ].

(** A store whose file holds [{"list": []}]. *)
Definition list_store : St :=
  opened "cfg.json" {[ "cfg.json" := Fs.touch (t0 - 5000) (Fs.Text (JObj [("list", JArr [])])) ]}.

(** A store whose document refers to itself: [store.set("self", store.data)],
    once the event loop has run the save that this call started. *)
Definition cyclic_store : St :=
  snd ((set 0 "self" (VRef 0%nat) ;; settle 4) theme_store).

(** A disk whose [cfg.json] holds the text [null]. *)
Definition null_disk : St :=
  boot (world_at t0 {[ "cfg.json" := Fs.touch (t0 - 5000) (Fs.Text JNull) ]} []).

(** *** Scoped configurations *)

Definition library_host : Config.Host := host (Some "/lib").

Definition items (names : list string) : Config.Args :=
  {| Config.item := Config.Many (map item_at names); Config.folder := Config.Missing |}.

(** An item-scope configuration on an empty disk. *)
Definition item_state : Config.State :=
  start (fresh Config.ITEM) (world_at t0 ∅ []).

(** [for (const [k, v] of writes) store.set(k, v)] *)
Fixpoint set_each (i : nat) (writes : list (string * jsval)) : M St unit :=
  match writes with
  | [] => ret tt
  | (k, v) :: rest => set i k v ;; set_each i rest
  end.

(** A user-scope configuration that has opened its store. *)
Definition user_opened : Config.State :=
  snd (Config.supplyArgs library_host
         {| Config.item := Config.Missing; Config.folder := Config.Missing |}
         user_state).

(** Run [c], then let the event loop finish the saves it started. *)
Definition settled {A} (c : M Config.State A) : M Config.State A :=
  let* a := c in
  Config.file (settle 8) ;;
  ret a.

End Scenario.

(** * Properties *)

(** ** Sorting with a comparator *)

Section SortFacts.
Context {A : Type} (cmp : A -> A -> Z).

Lemma sort_insert_perm x l : sort_insert cmp x l ≡ₚ x :: l.
Proof.
  induction l as [|y l IH]; simpl; [done|].
  destruct (cmp x y <=? 0); [done|].
  rewrite IH. apply Permutation_swap.
Qed.

Lemma js_sort_perm l : js_sort cmp l ≡ₚ l.
Proof.
  induction l as [|x l IH]; simpl; [done|].
  rewrite sort_insert_perm. by rewrite IH.
Qed.

Lemma js_sort_length l : length (js_sort cmp l) = length l.
Proof. apply Permutation_length, js_sort_perm. Qed.

Hypothesis total : forall x y, cmp x y <= 0 \/ cmp y x <= 0.
Hypothesis trans : forall x y z, cmp x y <= 0 -> cmp y z <= 0 -> cmp x z <= 0.

Lemma sort_insert_sorted x l :
  StronglySorted (cmp_le cmp) l -> StronglySorted (cmp_le cmp) (sort_insert cmp x l).
Proof.
  induction 1 as [|y l Hl IH Hy]; simpl.
  - repeat constructor.
  - destruct (Z.leb_spec (cmp x y) 0) as [Hxy|Hxy].
    + constructor; [by constructor|].
      constructor; [done|].
      eapply Forall_impl; [exact Hy|]. intros z Hz. by eapply trans.
    + constructor; [done|].
      rewrite sort_insert_perm. constructor; [|done].
      destruct (total x y); [lia|done].
Qed.

Lemma js_sort_sorted l : StronglySorted (cmp_le cmp) (js_sort cmp l).
Proof.
  induction l; simpl; [constructor|]. by apply sort_insert_sorted.
Qed.

(** Two arrangements of the same elements sort to the same array when
    no two distinct elements among them tie. *)
Lemma js_sort_unique l1 l2 :
  (forall x y, x ∈ l1 -> y ∈ l1 -> cmp x y <= 0 -> cmp y x <= 0 -> x = y) ->
  l1 ≡ₚ l2 -> js_sort cmp l1 = js_sort cmp l2.
Proof.
  intros Hanti Hperm.
  apply (StronglySorted_unique_strong (cmp_le cmp)).
  - intros x y Hx Hy. rewrite js_sort_perm in Hx. rewrite js_sort_perm, <- Hperm in Hy.
    by apply Hanti.
  - apply js_sort_sorted.
  - apply js_sort_sorted.
  - by rewrite !js_sort_perm.
Qed.

End SortFacts.

Lemma js_sort_map {A B} (f : A -> B) (cmp : B -> B -> Z) (l : list A) :
  map f (js_sort (fun a b => cmp (f a) (f b)) l) = js_sort cmp (map f l).
Proof.
  induction l as [|x l IH]; simpl; [done|].
  rewrite <- IH. generalize (js_sort (fun a b => cmp (f a) (f b)) l) as s.
  induction s as [|y s IHs]; simpl; [done|].
  destruct (cmp (f x) (f y) <=? 0); simpl; [done|]. by rewrite IHs.
Qed.

Lemma every_from_spec {A} (p : A -> nat -> bool) (l : list A) (k : nat) :
  every_from p k l = true <->
  forall j x, l !! j = Some x -> p x (k + j)%nat = true.
Proof.
  revert k. induction l as [|y l IH]; intros k; simpl.
  - split; [|done]. intros _ j x Hj. by rewrite lookup_nil in Hj.
  - rewrite andb_true_iff, IH. split.
    + intros [Hy Hl] [|j] x Hj; simpl in Hj.
      * injection Hj as <-. by rewrite Nat.add_0_r.
      * rewrite Nat.add_succ_r. by apply Hl.
    + intros H. split.
      * specialize (H 0%nat y eq_refl). by rewrite Nat.add_0_r in H.
      * intros j x Hj. specialize (H (S j) x Hj). by rewrite Nat.add_succ_r in H.
Qed.

(** ** The set-equality check *)

Section ArraysEqualFacts.
Variable localeCompare : string -> string -> Z.

Lemma sorted_paths (l : list Descriptor) :
  map filePath (js_sort (by_path localeCompare) l)
  = js_sort localeCompare (map filePath l).
Proof. apply (js_sort_map filePath localeCompare). Qed.

Lemma areArraysEqual_spec (a1 a2 : list Descriptor) :
  areArraysEqual localeCompare (Some a1) (Some a2) = true <->
  length a1 = length a2 /\
  js_sort localeCompare (map filePath a1) = js_sort localeCompare (map filePath a2).
Proof.
  unfold areArraysEqual, every.
  destruct (Nat.eqb_spec (length a1) (length a2)) as [Hlen|Hlen]; simpl.
  2: { split; [done|]. by intros [? _]. }
  rewrite every_from_spec, <- !sorted_paths.
  split.
  - intros H. split; [done|].
    apply list_eq. intros j. rewrite !list_lookup_fmap.
    destruct (js_sort (by_path localeCompare) a1 !! j) as [x|] eqn:Hx; simpl.
    + specialize (H j x Hx). simpl in H.
      destruct (js_sort (by_path localeCompare) a2 !! j) as [y|]; [|done].
      simpl. apply String.eqb_eq in H. by rewrite H.
    + apply lookup_ge_None in Hx. rewrite js_sort_length in Hx.
      rewrite (proj2 (lookup_ge_None _ _)); [done|].
      rewrite js_sort_length. lia.
  - intros [_ H] j x Hx. simpl.
    assert (Hj : map filePath (js_sort (by_path localeCompare) a2) !! j
                 = Some (filePath x)).
    { rewrite <- H, list_lookup_fmap, Hx. done. }
    rewrite list_lookup_fmap in Hj.
    destruct (js_sort (by_path localeCompare) a2 !! j) as [y|]; [|done].
    simpl in Hj. injection Hj as ->. apply String.eqb_refl.
Qed.

End ArraysEqualFacts.

Lemma areArraysEqual_iff (localeCompare : string -> string -> Z)
      (a1 a2 : list Descriptor) :
  Collation localeCompare ->
  areArraysEqual localeCompare (Some a1) (Some a2) = true <->
  map filePath a1 ≡ₚ map filePath a2.
Proof.
  intros [Htot Htrans Hanti]. rewrite areArraysEqual_spec. split.
  - intros [_ H].
    rewrite <- (js_sort_perm localeCompare (map filePath a1)), H.
    apply js_sort_perm.
  - intros Hperm. split.
    + apply Permutation_length in Hperm. by rewrite !length_map in Hperm.
    + apply js_sort_unique; auto.
Qed.

(** C9, as amended: the upstream set-equality check judges two lists
    that are permutations of each other by descriptor path equal,
    provided the comparison ties no two distinct paths of the lists;
    lists of different length or whose paths differ anywhere (as
    multisets) are judged unequal whatever the comparison, and a value
    that is not an array equals nothing. *)
Theorem areArraysEqual_permutation
  (localeCompare : string -> string -> Z) (a1 a2 : list Descriptor) :
  (CollationOn localeCompare (map filePath a1) ->
   map filePath a1 ≡ₚ map filePath a2 ->
     areArraysEqual localeCompare (Some a1) (Some a2) = true)
  /\ (length a1 <> length a2 ->
        areArraysEqual localeCompare (Some a1) (Some a2) = false)
  /\ (~ map filePath a1 ≡ₚ map filePath a2 ->
        areArraysEqual localeCompare (Some a1) (Some a2) = false)
  /\ areArraysEqual localeCompare None (Some a2) = false
  /\ areArraysEqual localeCompare (Some a1) None = false.
Proof.
  repeat split.
  - intros [Htot Htrans Hanti] Hperm. apply areArraysEqual_spec. split.
    + apply Permutation_length in Hperm. by rewrite !length_map in Hperm.
    + apply js_sort_unique; auto.
  - intros Hlen. apply not_true_is_false. intros [H _]%areArraysEqual_spec. done.
  - intros Hne. apply not_true_is_false. intros [_ H]%areArraysEqual_spec. apply Hne.
    rewrite <- (js_sort_perm localeCompare (map filePath a1)), H.
    apply js_sort_perm.
Qed.

(** ** Code-unit order is a collation *)

Lemma ascii_compare_refl (a : ascii) : Ascii.compare a a = Eq.
Proof. unfold Ascii.compare. apply N.compare_refl. Qed.

Lemma string_compare_le_trans (a b c : string) :
  String.compare a b <> Gt -> String.compare b c <> Gt -> String.compare a c <> Gt.
Proof.
  revert b c. induction a as [|x a IH]; intros [|y b] [|z c]; simpl; try congruence.
  unfold Ascii.compare.
  destruct (N.compare_spec (N_of_ascii x) (N_of_ascii y)) as [Hxy|Hxy|Hxy];
    destruct (N.compare_spec (N_of_ascii y) (N_of_ascii z)) as [Hyz|Hyz|Hyz];
    try congruence; intros H1 H2; try (exfalso; congruence).
  - rewrite Hxy, Hyz, N.compare_refl. exact (IH b c H1 H2).
  - rewrite Hxy. by rewrite (proj2 (N.compare_lt_iff _ _) Hyz).
  - rewrite <- Hyz. by rewrite (proj2 (N.compare_lt_iff _ _) Hxy).
  - rewrite (proj2 (N.compare_lt_iff _ _)); [done|]. by etrans.
Qed.

Lemma codeUnitCompare_le (a b : string) :
  Scenario.codeUnitCompare a b <= 0 <-> String.compare a b <> Gt.
Proof.
  unfold Scenario.codeUnitCompare. destruct (String.compare a b); split; (done || lia).
Qed.

Lemma codeUnitCompare_collation : Collation Scenario.codeUnitCompare.
Proof.
  split.
  - intros a b. rewrite !codeUnitCompare_le, (String.compare_antisym b a).
    destruct (String.compare a b); simpl; [left|left|right]; done.
  - intros a b c. rewrite !codeUnitCompare_le. apply string_compare_le_trans.
  - intros a b. rewrite !codeUnitCompare_le. intros H1 H2.
    apply String.leb_antisym; unfold String.leb.
    + by destruct (String.compare a b).
    + by destruct (String.compare b a).
Qed.

(** ** Splitting and joining *)

Lemma append_nil_l (b : string) : EmptyString +:+ b = b.
Proof. reflexivity. Qed.

Lemma append_cons (c : ascii) (a b : string) : String c a +:+ b = String c (a +:+ b).
Proof. reflexivity. Qed.

Ltac str_simpl := rewrite ?append_cons, ?append_nil_l; simpl.

Lemma mem_append (c : ascii) (a b : string) :
  Str.mem c (a +:+ b) = Str.mem c a || Str.mem c b.
Proof. induction a as [|d a IH]; str_simpl; [done|]. by rewrite IH, orb_assoc. Qed.

Lemma split_no_sep (sep : ascii) (a : string) :
  Str.mem sep a = false -> Str.split sep a = [a].
Proof.
  induction a as [|d a IH]; simpl; [done|].
  intros [Hd Ha]%orb_false_elim. rewrite Ascii.eqb_sym, Hd. by rewrite IH.
Qed.

Lemma split_append (sep : ascii) (a b : string) :
  Str.mem sep a = false ->
  Str.split sep (a +:+ String sep b) = a :: Str.split sep b.
Proof.
  induction a as [|d a IH]; str_simpl.
  - intros _. by rewrite Ascii.eqb_refl.
  - intros [Hd Ha]%orb_false_elim. rewrite Ascii.eqb_sym, Hd. by rewrite IH.
Qed.

Lemma split_join (sep : ascii) (l : list string) :
  l <> [] -> Forall (fun s => Str.mem sep s = false) l ->
  Str.split sep (Str.join (String sep EmptyString) l) = l.
Proof.
  induction l as [|x l IH]; [done|]. intros _ Hl.
  apply Forall_cons in Hl as [Hx Hl].
  destruct l as [|y l].
  - by apply split_no_sep.
  - change (Str.join (String sep EmptyString) (x :: y :: l))
      with (x +:+ String sep (Str.join (String sep EmptyString) (y :: l))).
    rewrite split_append by done. f_equal. by apply IH.
Qed.

Lemma break_at_append (c : ascii) (a b : string) :
  Str.mem c a = false -> Str.break_at c (a +:+ String c b) = Some (a, b).
Proof.
  induction a as [|d a IH]; str_simpl.
  - intros _. by rewrite Ascii.eqb_refl.
  - intros [Hd Ha]%orb_false_elim. rewrite Ascii.eqb_sym, Hd. by rewrite IH.
Qed.

Lemma mem_join (c : ascii) (sep : string) (l : list string) :
  Str.mem c sep = false -> Forall (fun s => Str.mem c s = false) l ->
  Str.mem c (Str.join sep l) = false.
Proof.
  intros Hsep. induction 1 as [|x l Hx Hl IH]; simpl; [done|].
  destruct l; [done|]. by rewrite !mem_append, Hx, Hsep, IH.
Qed.

(** ** Attribute objects *)

Section ObjFacts.
Context {V : Type}.
Implicit Types o : Obj.props V.

Lemma obj_set_fresh k (v : V) o :
  k ∉ map fst o -> Obj.set k v o = o ++ [(k, v)].
Proof.
  induction o as [|[k' v'] o IH]; simpl; [done|].
  intros Hk. apply not_elem_of_cons in Hk as [Hne Hk].
  destruct (String.eqb_spec k k'); [done|]. by rewrite IH.
Qed.

Lemma obj_set_keys k (v : V) o :
  map fst (Obj.set k v o) = if bool_decide (k ∈ map fst o) then map fst o
                            else map fst o ++ [k].
Proof.
  induction o as [|[k' v'] o IH]; simpl; [done|].
  destruct (String.eqb_spec k k') as [->|Hne]; simpl.
  - rewrite bool_decide_eq_true_2; [done|]. by left.
  - rewrite IH. destruct (bool_decide_reflect (k ∈ map fst o)) as [Hin|Hin].
    + rewrite bool_decide_eq_true_2; [done|]. by right.
    + rewrite bool_decide_eq_false_2; [done|].
      intros [?|?]%elem_of_cons; done.
Qed.

Lemma obj_set_nodup k (v : V) o :
  NoDup (map fst o) -> NoDup (map fst (Obj.set k v o)).
Proof.
  intros Hnd. rewrite obj_set_keys. case_bool_decide as Hin; [done|].
  apply NoDup_app. split_and!; [done| |apply NoDup_singleton].
  intros x Hx ->%list_elem_of_singleton. done.
Qed.

(** Setting a property depends on the other properties only as a set. *)
Lemma obj_set_perm k (v : V) o :
  NoDup (map fst o) ->
  Obj.set k v o ≡ₚ (k, v) :: List.filter (fun e => negb (String.eqb k (fst e))) o.
Proof.
  induction o as [|[k' v'] o IH]; simpl; [done|].
  intros [Hk' Hnd]%NoDup_cons.
  destruct (String.eqb_spec k k') as [->|Hne]; simpl.
  - apply Permutation_cons; [done|].
    rewrite forallb_filter_id; [done|].
    apply forallb_forall. intros [k v''] Hin%list_elem_of_In. simpl.
    destruct (String.eqb_spec k' k) as [->|]; [|done].
    exfalso. apply Hk'. apply list_elem_of_fmap. by exists (k, v'').
  - rewrite IH by done. apply Permutation_swap.
Qed.

Lemma nodup_keys_value o k (v v' : V) :
  NoDup (map fst o) -> (k, v) ∈ o -> (k, v') ∈ o -> v = v'.
Proof.
  induction o as [|[k0 v0] o IH]; simpl; intros Hnd H1 H2.
  - by apply elem_of_nil in H1.
  - apply NoDup_cons in Hnd as [Hk Hnd].
    apply elem_of_cons in H1 as [H1|H1], H2 as [H2|H2]; simplify_eq.
    + done.
    + exfalso. apply Hk, list_elem_of_fmap. by exists (k0, v').
    + exfalso. apply Hk, list_elem_of_fmap. by exists (k0, v).
    + by apply IH.
Qed.

Lemma filter_split (f : string * V -> bool) o :
  List.filter f o ++ List.filter (fun e => negb (f e)) o ≡ₚ o.
Proof.
  induction o as [|e o IH]; simpl; [done|].
  destruct (f e); simpl.
  - by rewrite IH.
  - rewrite <- Permutation_middle. by rewrite IH.
Qed.

Lemma entries_perm o : Obj.entries o ≡ₚ o.
Proof.
  unfold Obj.entries. rewrite js_sort_perm. apply filter_split.
Qed.

Lemma filter_perm (f : string * V -> bool) o1 o2 :
  o1 ≡ₚ o2 -> List.filter f o1 ≡ₚ List.filter f o2.
Proof.
  induction 1 as [|x l l' _ IH|x y l|l l' l'' _ IH1 _ IH2]; simpl.
  - done.
  - destruct (f x); by rewrite IH.
  - destruct (f x), (f y); try done. apply Permutation_swap.
  - by etrans.
Qed.

End ObjFacts.

(** ** Parsing a prefixed key *)

Lemma nonempty_append (a b : string) :
  Str.nonempty a = true -> Str.nonempty (a +:+ b) = true.
Proof. by destruct a. Qed.

Lemma token_spec (s : string) :
  Key.token s = true ->
  Str.nonempty s = true /\ Str.mem "&" s = false /\ Str.mem "=" s = false
  /\ Str.mem "}" s = false.
Proof.
  unfold Key.token. rewrite !andb_true_iff, !negb_true_iff. tauto.
Qed.

Lemma wf_attr_spec (e : string * string) :
  Key.wf_attr e = true ->
  Key.token (fst e) = true /\ Key.token (snd e) = true /\ fst e <> "__proto__".
Proof.
  unfold Key.wf_attr. rewrite !andb_true_iff, negb_true_iff.
  intros [[? ?] ?%String.eqb_neq]. done.
Qed.

Lemma render_pair_mem (c : ascii) (e : string * string) :
  Str.mem c (fst e) = false -> Str.mem c (snd e) = false ->
  Str.mem c "=" = false -> Str.mem c (Key.render_pair e) = false.
Proof.
  intros H1 H2 H3. unfold Key.render_pair. by rewrite !mem_append, H1, H2, H3.
Qed.

Lemma render_mem (c : ascii) (l : list (string * string)) :
  Forall (fun e => Key.wf_attr e = true) l ->
  c = "}"%char \/ c = "&"%char ->
  Forall (fun s => Str.mem c s = false) (map Key.render_pair l).
Proof.
  intros Hl Hc. apply Forall_fmap. eapply Forall_impl; [exact Hl|].
  intros e (Hk & Hv & _)%wf_attr_spec. simpl.
  apply token_spec in Hk as (_ & ? & _ & ?), Hv as (_ & ? & _ & ?).
  destruct Hc as [-> | ->]; by apply render_pair_mem.
Qed.

Lemma add_pair_wf (o : Key.attrs) (e : string * string) :
  Key.wf_attr e = true -> Key.add_pair o (Key.render_pair e) = Obj.set (fst e) (snd e) o.
Proof.
  intros (Hk & Hv & Hp)%wf_attr_spec.
  apply token_spec in Hk as (Hk0 & _ & Hk & _), Hv as (Hv0 & _ & Hv & _).
  unfold Key.add_pair, Key.render_pair.
  change ("=" +:+ snd e) with (String "="%char (snd e)).
  rewrite split_append, split_no_sep by done.
  rewrite Hk0, Hv0. simpl. unfold Key.obj_assign.
  by rewrite (proj2 (String.eqb_neq _ _) Hp).
Qed.

Lemma fold_add_pairs (l : list (string * string)) (acc : Key.attrs) :
  Forall (fun e => Key.wf_attr e = true) l -> NoDup (map fst (acc ++ l)) ->
  fold_left Key.add_pair (map Key.render_pair l) acc = acc ++ l.
Proof.
  revert acc. induction l as [|[k v] l IH]; intros acc Hl Hnd; simpl.
  - by rewrite app_nil_r.
  - apply Forall_cons in Hl as [He Hl].
    rewrite add_pair_wf by done.
    rewrite obj_set_fresh.
    + rewrite IH; [by rewrite <- app_assoc|done|by rewrite <- app_assoc].
    + rewrite map_app in Hnd. apply NoDup_app in Hnd as (_ & Hnd & _).
      intros Hin. eapply Hnd; [exact Hin|]. simpl. by left.
Qed.

Lemma render_nonempty (l : list (string * string)) :
  l <> [] -> Forall (fun e => Key.wf_attr e = true) l ->
  Str.nonempty (Key.render l) = true.
Proof.
  destruct l as [|e l]; [done|]. intros _ [He _]%Forall_cons.
  apply wf_attr_spec in He as (Hk & _). apply token_spec in Hk as (Hk & _).
  unfold Key.render. simpl.
  destruct (map Key.render_pair l); unfold Key.render_pair;
    repeat apply nonempty_append; done.
Qed.

Lemma prefixed_unfold (l : list (string * string)) (base : string) :
  Key.prefixed l base = String "{"%char (Key.render l +:+ String "}"%char base).
Proof. reflexivity. Qed.

Lemma match_attr_prefix_brace (rest : string) :
  Key.match_attr_prefix (String "{"%char rest) =
  match Str.break_at "}"%char rest with
  | Some (attrsStr, actualKey) =>
      if Str.nonempty attrsStr && Str.nonempty actualKey
         && negb (Str.has_line_terminator actualKey)
      then Some (attrsStr, actualKey) else None
  | None => None
  end.
Proof. reflexivity. Qed.

Lemma parse_prefixed (l : list (string * string)) (base : string) :
  l <> [] -> Forall (fun e => Key.wf_attr e = true) l -> NoDup (map fst l) ->
  Key.wf_base base = true ->
  Key.parseKeyWithAttributes (Key.prefixed l base) = (l, base).
Proof.
  intros Hne Hl Hnd [Hb Ht]%andb_true_iff. apply negb_true_iff in Ht.
  unfold Key.parseKeyWithAttributes.
  rewrite prefixed_unfold, match_attr_prefix_brace, break_at_append.
  2: { apply mem_join; [done|]. apply render_mem; auto. }
  rewrite render_nonempty, Hb, Ht by done. simpl.
  unfold Key.render. change "&" with (String "&"%char EmptyString).
  rewrite split_join.
  - by rewrite fold_add_pairs.
  - by destruct l.
  - apply render_mem; auto.
Qed.

(** ** Building the key from an attribute object *)

Section BuildFacts.
Variable cmp : string -> string -> Z.
Hypothesis collation : Collation cmp.

Lemma same_attrs_entries o1 o2 :
  Key.same_attrs o1 o2 -> Key.same_attrs (Obj.entries o1) (Obj.entries o2).
Proof.
  intros [Hp Hnd]. split.
  - by rewrite !entries_perm.
  - by rewrite (entries_perm o1).
Qed.

Lemma same_attrs_spread o1 o2 k v :
  Key.same_attrs o1 o2 -> Key.same_attrs (Key.spread_with o1 k v) (Key.spread_with o2 k v).
Proof.
  intros [Hp Hnd]%same_attrs_entries. unfold Key.spread_with. split.
  - rewrite !obj_set_perm; [|by rewrite <- Hp|done].
    apply Permutation_cons; [done|]. by apply filter_perm.
  - by apply obj_set_nodup.
Qed.


Lemma build_sorted o key :
  Obj.entries o <> [] ->
  exists es, Key.buildKeyWithAttributes cmp o key = Key.prefixed es key
             /\ es ≡ₚ o
             /\ StronglySorted (cmp_le (Key.by_name cmp)) es.
Proof.
  intros Hne. exists (js_sort (Key.by_name cmp) (Obj.entries o)). split_and!.
  - unfold Key.buildKeyWithAttributes. by destruct (Obj.entries o).
  - by rewrite js_sort_perm, entries_perm.
  - apply js_sort_sorted.
    + intros a b. apply collation.
    + intros a b c. apply collation.
Qed.

End BuildFacts.

(** ** Flags *)

Lemma spread_keys (o : Key.attrs) (k v k' : string) :
  k' ∈ map fst o -> k' ∈ map fst (Key.spread_with o k v).
Proof.
  intros Hin. unfold Key.spread_with. rewrite obj_set_keys.
  assert (k' ∈ map fst (Obj.entries o)) by (by rewrite entries_perm).
  case_bool_decide; [done|]. apply elem_of_app. by left.
Qed.

Lemma processFlags_loop_same (host : Config.Host) (flags : list string)
      (o1 o2 : Key.attrs) :
  Key.same_attrs o1 o2 ->
  match Config.processFlags_loop host flags o1,
        Config.processFlags_loop host flags o2 with
  | Ok a, Ok b => Key.same_attrs a b /\ (forall k, k ∈ map fst o1 -> k ∈ map fst a)
  | Throw e, Throw e' => e = e'
  | _, _ => False
  end.
Proof.
  revert o1 o2. induction flags as [|flag flags IH]; intros o1 o2 Hs; simpl.
  - done.
  - unfold Config.handler.
    destruct (String.eqb flag "pluginOnly").
    + destruct (Config.plugin_id host) as [id|]; [|done].
      specialize (IH _ _ (same_attrs_spread _ _ "pluginId" id Hs)).
      destruct (Config.processFlags_loop host flags (Key.spread_with o1 "pluginId" id)),
               (Config.processFlags_loop host flags (Key.spread_with o2 "pluginId" id));
        try done.
      destruct IH as [? Hk]. split; [done|]. intros k Hin. by apply Hk, spread_keys.
    + destruct (String.eqb flag "folderOnly").
      * specialize (IH _ _ (same_attrs_spread _ _ "folderOnly" "true" Hs)).
        destruct (Config.processFlags_loop host flags (Key.spread_with o1 "folderOnly" "true")),
                 (Config.processFlags_loop host flags (Key.spread_with o2 "folderOnly" "true"));
          try done.
        destruct IH as [? Hk]. split; [done|]. intros k Hin. by apply Hk, spread_keys.
      * by apply IH.
Qed.

Lemma spread_keys_back (o : Key.attrs) (k v k' : string) :
  k' ∈ map fst (Key.spread_with o k v) -> k' = k \/ k' ∈ map fst o.
Proof.
  unfold Key.spread_with. rewrite obj_set_keys.
  assert (Hk : k' ∈ map fst (Obj.entries o) -> k' ∈ map fst o) by (by rewrite entries_perm).
  case_bool_decide.
  - intros Hin. right. by apply Hk.
  - intros [Hin| ->%list_elem_of_singleton]%elem_of_app; [right; by apply Hk|by left].
Qed.

(** The flags add no attribute name but their own two. *)
Lemma processFlags_loop_keys (host : Config.Host) (flags : list string)
      (o a : Key.attrs) :
  Config.processFlags_loop host flags o = Ok a ->
  forall k, k ∈ map fst a -> k ∈ "pluginId" :: "folderOnly" :: map fst o.
Proof.
  revert o. induction flags as [|flag flags IH]; intros o; simpl.
  - intros [= <-] k Hk. by do 2 right.
  - unfold Config.handler.
    destruct (String.eqb flag "pluginOnly").
    + destruct (Config.plugin_id host) as [id|]; [|done].
      intros Ha k Hk. specialize (IH _ Ha k Hk).
      apply elem_of_cons in IH as [->|IH]; [by left|].
      apply elem_of_cons in IH as [->|IH]; [right; by left|].
      apply spread_keys_back in IH as [->|IH]; [by left|by do 2 right].
    + destruct (String.eqb flag "folderOnly").
      * intros Ha k Hk. specialize (IH _ Ha k Hk).
        apply elem_of_cons in IH as [->|IH]; [by left|].
        apply elem_of_cons in IH as [->|IH]; [right; by left|].
        apply spread_keys_back in IH as [->|IH]; [right; by left|by do 2 right].
      * apply IH.
Qed.

Lemma collation_on (cmp : string -> string -> Z) (l : list string) :
  Collation cmp -> CollationOn cmp l.
Proof. intros [Ht Hr Ha]. split; auto. Qed.

Section BuildFactsOn.
Variable cmp : string -> string -> Z.
Variable names : list string.
Hypothesis collation : CollationOn cmp names.

Lemma build_same_attrs_on o1 o2 key :
  (forall k, k ∈ map fst o1 -> k ∈ names) ->
  Key.same_attrs o1 o2 ->
  Key.buildKeyWithAttributes cmp o1 key = Key.buildKeyWithAttributes cmp o2 key.
Proof.
  intros Hnames Hs. pose proof Hs as [Hp0 Hnd0].
  apply same_attrs_entries in Hs as [Hp Hnd]. unfold Key.buildKeyWithAttributes.
  destruct (Obj.entries o1) as [|e1 es1] eqn:E1.
  { apply Permutation_nil in Hp. by rewrite Hp. }
  destruct (Obj.entries o2) as [|e2 es2] eqn:E2.
  { symmetry in Hp. by apply Permutation_nil in Hp. }
  assert (Hin : forall e, e ∈ e1 :: es1 -> fst e ∈ names).
  { intros e He. apply Hnames. rewrite <- (entries_perm o1), E1.
    apply list_elem_of_fmap. by exists e. }
  f_equal. apply js_sort_unique.
  - intros a b. apply collation.
  - intros a b c. apply collation.
  - intros [k v] [k' v'] Hx Hy H1 H2. unfold Key.by_name in *. simpl in *.
    assert (k = k') as <-.
    { apply collation; [apply (Hin _ Hx)|apply (Hin _ Hy)|done|done]. }
    f_equal. by eapply (nodup_keys_value (e1 :: es1)).
  - done.
Qed.

Lemma build_sorted_on o key :
  Obj.entries o <> [] ->
  exists es, Key.buildKeyWithAttributes cmp o key = Key.prefixed es key
             /\ es ≡ₚ o
             /\ StronglySorted (cmp_le (Key.by_name cmp)) es.
Proof.
  intros Hne. exists (js_sort (Key.by_name cmp) (Obj.entries o)). split_and!.
  - unfold Key.buildKeyWithAttributes. by destruct (Obj.entries o).
  - by rewrite js_sort_perm, entries_perm.
  - apply js_sort_sorted.
    + intros a b. apply collation.
    + intros a b c. apply collation.
Qed.

End BuildFactsOn.

(** C4, as amended: canonical key construction does not depend on the
    order in which the attributes were written, provided the comparison
    of names ties none of the names in play (those of the attributes and
    the two names the flags add) and the base key is one the pattern of
    an attribute prefix accepts: raw keys whose attribute prefixes list
    the same attribute set in two orders, around the same base key,
    build the identical stored key, and that key carries its attributes
    sorted by attribute name in the order of the comparison. *)
Theorem canonical_key_order_independent
  (host : Config.Host) (s : Config.State)
  (l1 l2 : list (string * string)) (base : string) :
  CollationOn (Config.localeCompare host) ("pluginId" :: "folderOnly" :: map fst l1) ->
  l1 <> [] ->
  Forall (fun e => Key.wf_attr e = true) l1 ->
  NoDup (map fst l1) ->
  Key.wf_base base = true ->
  l1 ≡ₚ l2 ->
  Config.buildKey host (Key.prefixed l1 base) s
  = Config.buildKey host (Key.prefixed l2 base) s
  /\ forall k s',
       Config.buildKey host (Key.prefixed l1 base) s = (Ok k, s') ->
       exists es,
         k = Key.prefixed es base
         /\ StronglySorted (cmp_le (Key.by_name (Config.localeCompare host))) es
         /\ (forall e, e ∈ l1 -> fst e ∈ map fst es)
         /\ (Config.flags (Config.self s) = [] -> es ≡ₚ l1).
Proof.
  intros Hcol Hne Hwf Hnd Hbase Hperm.
  assert (Hne2 : l2 <> []).
  { intros ->. by apply Permutation_nil_r in Hperm. }
  assert (Hwf2 : Forall (fun e => Key.wf_attr e = true) l2) by (by rewrite <- Hperm).
  assert (Hnd2 : NoDup (map fst l2)) by (by rewrite <- Hperm).
  unfold Config.buildKey, bind, gets, Config.lift_res, ret, Config.processFlags.
  rewrite !parse_prefixed by done.
  assert (Hs : Key.same_attrs (Obj.entries l1) (Obj.entries l2)).
  { apply same_attrs_entries. by split. }
  pose proof (processFlags_loop_same host (Config.flags (Config.self s)) _ _ Hs) as Hf.
  destruct (Config.processFlags_loop host (Config.flags (Config.self s)) (Obj.entries l1))
    as [a|e|] eqn:Ea;
    destruct (Config.processFlags_loop host (Config.flags (Config.self s)) (Obj.entries l2))
    as [b|e'|] eqn:Eb; try done.
  - destruct Hf as [Hab Hkeys]. split.
    + f_equal. f_equal.
      apply (build_same_attrs_on _ _ Hcol); [|done].
      intros k Hk. pose proof (processFlags_loop_keys host _ _ _ Ea k Hk) as Hin.
      by rewrite (entries_perm l1) in Hin.
    + intros k s' [= <- <-].
      assert (Ha : Obj.entries a <> []).
      { destruct l1 as [|e1 l1]; [done|].
        assert (Hin : fst e1 ∈ map fst a).
        { apply Hkeys. rewrite entries_perm. simpl. by left. }
        intros Hnil. rewrite <- (entries_perm a), Hnil in Hin. by apply elem_of_nil in Hin. }
      destruct (build_sorted_on (Config.localeCompare host) _ Hcol a base Ha)
        as (es & -> & Hes & Hsorted).
      exists es. split_and!; [done|done| |].
      * intros e He. rewrite Hes. apply Hkeys. rewrite entries_perm.
        apply list_elem_of_fmap. by exists e.
      * intros Hflags. rewrite Hflags in Ea. simpl in Ea. injection Ea as <-.
        by rewrite Hes, entries_perm.
  - split; [by subst|]. intros k s' [=].
Qed.

(** The attribute sets [{b=2&a=1}] and [{a=1&b=2}] around one base key. *)
Lemma canonical_key_order_independent_witness :
  Config.buildKey (Scenario.host None)
    (Key.prefixed [("b", "2"); ("a", "1")] "theme") Scenario.user_state
  = Config.buildKey (Scenario.host None)
      (Key.prefixed [("a", "1"); ("b", "2")] "theme") Scenario.user_state.
Proof.
  apply (canonical_key_order_independent (Scenario.host None) Scenario.user_state
           [("b", "2"); ("a", "1")] [("a", "1"); ("b", "2")] "theme").
  - apply collation_on, codeUnitCompare_collation.
  - discriminate.
  - repeat constructor.
  - simpl. apply NoDup_cons. split; [|apply NoDup_singleton].
    intros Hin%list_elem_of_singleton. discriminate Hin.
  - reflexivity.
  - apply Permutation_swap.
Defined.

(** C4 as it is written fails twice.  A base key with a line break is
    one the pattern of an attribute prefix rejects, so the raw key is
    stored as it is, in either order of its attributes.  And two names
    that the comparison ties stay in the order they were written in, the
    sort being stable: here [a] and [a\u0001], which the collation
    does not tell apart; the second stored key does not carry its names
    in lexicographic order either. *)
Lemma canonical_key_depends_on_order :
  Key.prefixed [("b", "2"); ("a", "1")] ("x" +:+ String "010"%char "y")
  = "{b=2&a=1}x" +:+ String "010"%char "y"
  /\ fst (Config.buildKey (Scenario.host None)
            ("{b=2&a=1}x" +:+ String "010"%char "y") Scenario.user_state)
     = Ok ("{b=2&a=1}x" +:+ String "010"%char "y")
  /\ fst (Config.buildKey (Scenario.host None)
            ("{a=1&b=2}x" +:+ String "010"%char "y") Scenario.user_state)
     = Ok ("{a=1&b=2}x" +:+ String "010"%char "y")
  /\ Scenario.weightCompare "a" (String "a" (String "001" "")) = 0
  /\ "a" <> String "a" (String "001" "")
  /\ fst (Config.buildKey Scenario.weighing_host
            (Key.prefixed [("a", "1"); (String "a" (String "001" ""), "2")] "theme")
            Scenario.user_state)
     = Ok (Key.prefixed [("a", "1"); (String "a" (String "001" ""), "2")] "theme")
  /\ fst (Config.buildKey Scenario.weighing_host
            (Key.prefixed [(String "a" (String "001" ""), "2"); ("a", "1")] "theme")
            Scenario.user_state)
     = Ok (Key.prefixed [(String "a" (String "001" ""), "2"); ("a", "1")] "theme")
  /\ Key.prefixed [("a", "1"); (String "a" (String "001" ""), "2")] "theme"
     <> Key.prefixed [(String "a" (String "001" ""), "2"); ("a", "1")] "theme".
Proof. vm_compute. repeat split; discriminate. Qed.

(** The two spellings of the specification, and the same with a flag
    that adds an attribute. *)
Example canonical_key_example :
  fst (Config.buildKey (Scenario.host None) "{b=2&a=1}theme" Scenario.user_state)
  = Ok "{a=1&b=2}theme"
  /\ fst (Config.buildKey (Scenario.host None) "{a=1&b=2}theme" Scenario.user_state)
     = Ok "{a=1&b=2}theme"
  /\ fst (Config.buildKey (Scenario.host None) "{b=2&a=1}theme"
            (Scenario.start (Scenario.flagged Config.ITEM ["pluginOnly"])
               (Scenario.world_at Scenario.t0 ∅ [])))
     = Ok "{a=1&b=2&pluginId=my-plugin}theme".
Proof. vm_compute. repeat split. Qed.

(** A brace group with nothing after it, or followed by a line break, is
    no attribute prefix for the regular expression: such a key is stored
    as it is written. *)
Example unprefixed_keys_are_raw :
  fst (Config.buildKey (Scenario.host None) "{b=2&a=1}" Scenario.user_state)
  = Ok "{b=2&a=1}"
  /\ fst (Config.buildKey (Scenario.host None)
            ("{b=2&a=1}x" +:+ String "010"%char "y") Scenario.user_state)
     = Ok ("{b=2&a=1}x" +:+ String "010"%char "y").
Proof. vm_compute. repeat split. Qed.
(** Three items in two orders are equal as sets; a sub-list is not. *)
Lemma areArraysEqual_permutation_witness :
  areArraysEqual Scenario.codeUnitCompare
    (Some [Scenario.item_at "a"; Scenario.item_at "b"; Scenario.item_at "c"])
    (Some [Scenario.item_at "c"; Scenario.item_at "a"; Scenario.item_at "b"]) = true
  /\ areArraysEqual Scenario.codeUnitCompare
       (Some [Scenario.item_at "a"; Scenario.item_at "b"])
       (Some [Scenario.item_at "a"]) = false.
Proof.
  split.
  - destruct (areArraysEqual_permutation Scenario.codeUnitCompare
                [Scenario.item_at "a"; Scenario.item_at "b"; Scenario.item_at "c"]
                [Scenario.item_at "c"; Scenario.item_at "a"; Scenario.item_at "b"])
      as (Hperm & _).
    apply Hperm.
    + apply collation_on, codeUnitCompare_collation.
    + simpl. symmetry. apply (Permutation_cons_append [_; _]).
  - destruct (areArraysEqual_permutation Scenario.codeUnitCompare
                [Scenario.item_at "a"; Scenario.item_at "b"] [Scenario.item_at "a"])
      as (_ & Hlen & _).
    apply Hlen. simpl. lia.
Defined.

(** C9 as it is written fails twice.  On two paths that the comparison
    ties, the sort, being stable, leaves each list in its own order, and
    the element-wise test with [===] then tells the paths apart: here
    the items [a.png] and [a\u0001.png], in two orders.  And two
    configurations bound to one target set in two orders resolve to no
    reference record at all: the second one's [get] throws, the store
    having no [getAll]. *)
Lemma tied_paths_are_judged_unequal :
  let p := "/lib/a.png" in
  let q := "/lib/a" +:+ String "001" ".png" in
  let x := {| d_id := "1"; filePath := p |} in
  let y := {| d_id := "2"; filePath := q |} in
  let host := Scenario.library_host in
  let first := snd (Config.supplyArgs host (Scenario.items ["a"; "b"; "c"; "d"])
                      Scenario.item_state) in
  let written := snd (Scenario.settled (Config.set host "tag" (VStr "done")) first) in
  let second := snd (Config.supplyArgs host (Scenario.items ["d"; "c"; "b"; "a"])
                       (Config.set_self (Scenario.fresh Config.ITEM) written)) in
  map filePath [x; y] ≡ₚ map filePath [y; x]
  /\ p <> q
  /\ Scenario.weightCompare p q = 0
  /\ Scenario.weightCompare q p = 0
  /\ areArraysEqual Scenario.weightCompare (Some [x; y]) (Some [y; x]) = false
  /\ Config.shouldUseUpstream (Config.self second) = true
  /\ fst (Config.get host "tag" second)
     = Throw (JsTypeError "libraryConfig.getAll is not a function").
Proof.
  cbv zeta. split; [apply Permutation_swap|].
  vm_compute. repeat split; discriminate.
Qed.

(** The scan of the reference records picks the same record for two
    orders of the bound target set. *)
Lemma find_reference_permutation (host : Config.Host)
      (all : list (string * option (list Descriptor))) (c1 c2 : list Descriptor) :
  Collation (Config.localeCompare host) ->
  map filePath c1 ≡ₚ map filePath c2 ->
  Config.find_reference host all c1 = Config.find_reference host all c2.
Proof.
  intros Hcol Hperm. induction all as [|[refKey affected] all IH]; simpl; [done|].
  rewrite IH. destruct affected as [a|]; [|done].
  assert (areArraysEqual (Config.localeCompare host) (Some a) (Some c1)
          = areArraysEqual (Config.localeCompare host) (Some a) (Some c2)) as ->; [|done].
  destruct (areArraysEqual (Config.localeCompare host) (Some a) (Some c2)) eqn:E2.
  - apply areArraysEqual_iff; [done|]. apply areArraysEqual_iff in E2; [|done].
    by rewrite Hperm.
  - apply not_true_is_false. intros E1. apply not_true_iff_false in E2. apply E2.
    apply areArraysEqual_iff; [done|]. apply areArraysEqual_iff in E1; [|done].
    by rewrite <- Hperm.
Qed.

(** ** Lock acquisition *)

Section LockFacts.
Import JsonFile.

Lemma env_step_quiet (w : Fs.World) :
  Fs.quiet w ->
  Fs.quiet (Fs.env_step w)
  /\ Fs.files (Fs.env_step w) = Fs.files w
  /\ Fs.trace (Fs.env_step w) = Fs.trace w
  /\ Fs.now w <= Fs.now (Fs.env_step w).
Proof.
  unfold Fs.quiet, Fs.env_step. destruct (Fs.sched w) as [|e rest] eqn:E.
  - intros _. rewrite E. split_and!; (done || lia).
  - intros [He Hrest]%Forall_cons. unfold Fs.apply_event. simpl.
    rewrite He. split_and!; (done || lia).
Qed.

Lemma acquireLock_from_eq (fuel : nat) (pc : lock_pc) (i : nat) :
  acquireLock_from (S fuel) pc i =
  (let* self := this i in
   let create : M St unit :=
     let* outcome :=
       try_catch
         (io (Fs.writeFileSync_wx (_lockPath self)) ;; ret true)
         (fun error =>
            match error with
            | FsError "EEXIST" => ret false
            | _ => throw error
            end) in
     if (outcome : bool)
     then let* p := gets pid in update i (set_lockHolder (Some p))
     else acquireLock_from fuel LockEnter i in
   match pc with
   | LockEnter =>
       let* p := gets pid in
       match _lockHolder self with
       | Some h => if h =? p then ret tt
                   else let* start := io Fs.Date_now in
                        acquireLock_from fuel (LockLoop start) i
       | None => let* start := io Fs.Date_now in
                 acquireLock_from fuel (LockLoop start) i
       end
   | LockLoop start =>
       let* locked := io (Fs.existsSync (_lockPath self)) in
       if (locked : bool) then
         let* stats := io (Fs.statSync (_lockPath self)) in
         let* t1 := io Fs.Date_now in
         let lockAge := t1 - Fs.ctimeMs stats in
         if lockAge >? lockMaxAge self * 1000 then
           io (Fs.unlinkSync (_lockPath self)) ;;
           create
         else
           io Fs.setImmediate ;;
           let* t2 := io Fs.Date_now in
           if t2 - start >? _lockTimeout self then throw (timeout_error self)
           else
             io (Fs.setTimeout (lockRetryInterval self)) ;;
             acquireLock_from fuel (LockLoop start) i
       else create
   end)%monad.
Proof. reflexivity. Qed.

(** Each primitive in a quiet world: its result, and what it leaves of
    the files, the trace and the clock. *)

Lemma step_Date_now (s : St) :
  Fs.quiet (world s) ->
  exists w,
    io Fs.Date_now s = (Ok (Fs.now w), set_world w s)
    /\ Fs.quiet w /\ Fs.files w = Fs.files (world s)
    /\ Fs.trace w = Fs.trace (world s) /\ Fs.now (world s) <= Fs.now w.
Proof.
  intros Hq. exists (Fs.env_step (world s)). split; [done|].
  by apply env_step_quiet.
Qed.

Lemma step_existsSync (p : string) (s : St) :
  Fs.quiet (world s) ->
  exists w,
    io (Fs.existsSync p) s
    = (Ok (match Fs.files (world s) !! p with Some _ => true | None => false end),
       set_world w s)
    /\ Fs.quiet w /\ Fs.files w = Fs.files (world s)
    /\ Fs.trace w = Fs.trace (world s) /\ Fs.now (world s) <= Fs.now w.
Proof.
  intros Hq. exists (Fs.env_step (world s)).
  destruct (env_step_quiet _ Hq) as (? & Hfs & ? & ?). split; [|done].
  unfold io, zoom, Fs.existsSync, bind, Fs.env, modify, gets. simpl.
  by rewrite Hfs.
Qed.

Lemma step_statSync (p : string) (s : St) (f : Fs.file) :
  Fs.quiet (world s) ->
  Fs.files (world s) !! p = Some f ->
  exists w,
    io (Fs.statSync p) s = (Ok f, set_world w s)
    /\ Fs.quiet w /\ Fs.files w = Fs.files (world s)
    /\ Fs.trace w = Fs.trace (world s) /\ Fs.now (world s) <= Fs.now w.
Proof.
  intros Hq Hf. exists (Fs.env_step (world s)).
  destruct (env_step_quiet _ Hq) as (? & Hfs & ? & ?). split; [|done].
  unfold io, zoom, Fs.statSync, bind, Fs.env, modify, gets. simpl.
  by rewrite Hfs, Hf.
Qed.

Lemma step_unlinkSync (p : string) (s : St) (f : Fs.file) :
  Fs.quiet (world s) ->
  Fs.files (world s) !! p = Some f ->
  exists w,
    io (Fs.unlinkSync p) s = (Ok tt, set_world w s)
    /\ Fs.quiet w /\ Fs.files w = delete p (Fs.files (world s))
    /\ Fs.trace w = Fs.trace (world s) ++ [Fs.IoUnlink p]
    /\ Fs.now (world s) <= Fs.now w.
Proof.
  intros Hq Hf.
  destruct (env_step_quiet _ Hq) as (? & Hfs & Htr & ?).
  eexists. split.
  - unfold io, zoom, Fs.unlinkSync, bind, Fs.env, modify, gets. simpl.
    rewrite Hfs, Hf. reflexivity.
  - simpl. rewrite Htr, Hfs. split_and!; done.
Qed.

Lemma step_create (p : string) (s : St) :
  Fs.quiet (world s) ->
  Fs.files (world s) !! p = None ->
  exists w,
    io (Fs.writeFileSync_wx p) s = (Ok tt, set_world w s)
    /\ Fs.quiet w
    /\ Fs.files w = <[p := Fs.touch (Fs.now w) Fs.Garbage]> (Fs.files (world s))
    /\ Fs.trace w = Fs.trace (world s) ++ [Fs.IoCreate p]
    /\ Fs.now (world s) <= Fs.now w.
Proof.
  intros Hq Hf.
  destruct (env_step_quiet _ Hq) as (? & Hfs & Htr & ?).
  eexists. split.
  - unfold io, zoom, Fs.writeFileSync_wx, bind, Fs.env, modify, gets. simpl.
    rewrite Hfs, Hf. reflexivity.
  - simpl. rewrite Htr, Hfs. split_and!; done.
Qed.

Ltac step_with lem := unfold bind at 1; rewrite lem; cbv beta iota.

(** Creating the sentinel when nobody else holds or takes it. *)
Lemma create_free (i : nat) (s : St) (x : JsonFile.t) (retry : M St unit) :
  objects s !! i = Some x ->
  Fs.quiet (world s) ->
  Fs.files (world s) !! _lockPath x = None ->
  exists s',
    (let* outcome :=
       try_catch
         (io (Fs.writeFileSync_wx (_lockPath x)) ;; ret true)
         (fun error =>
            match error with
            | FsError "EEXIST" => ret false
            | _ => throw error
            end) in
     if (outcome : bool)
     then let* p := gets pid in update i (set_lockHolder (Some p))
     else retry)%monad s = (Ok tt, s')
    /\ Fs.trace (world s') = Fs.trace (world s) ++ [Fs.IoCreate (_lockPath x)]
    /\ objects s' !! i = Some (set_lockHolder (Some (pid s)) x)
    /\ Fs.files (world s') !! _lockPath x
       = Some (Fs.touch (Fs.now (world s')) Fs.Garbage)
    /\ Fs.quiet (world s')
    /\ Fs.now (world s) <= Fs.now (world s').
Proof.
  intros Hobj Hq Hf.
  destruct (step_create _ s Hq Hf) as (w & E & Hqw & Hfs & Htr & Hnow).
  eexists. split.
  - unfold bind at 1, try_catch. unfold bind at 1. rewrite E. cbv beta iota.
    unfold ret at 1. cbv beta iota.
    unfold bind, gets, update, modify. cbv beta iota. reflexivity.
  - simpl. split_and!.
    + done.
    + rewrite list_lookup_alter_eq, Hobj. done.
    + by rewrite Hfs, lookup_insert_eq.
    + done.
    + done.
Qed.

(** The loop head meets a stale sentinel. *)
Lemma lock_loop_stale (fuel : nat) (start : Z) (i : nat) (s : St)
      (x : JsonFile.t) (f : Fs.file) :
  objects s !! i = Some x ->
  Fs.quiet (world s) ->
  Fs.files (world s) !! _lockPath x = Some f ->
  Fs.now (world s) - Fs.ctimeMs f > lockMaxAge x * 1000 ->
  exists s',
    acquireLock_from (S fuel) (LockLoop start) i s = (Ok tt, s')
    /\ Fs.trace (world s')
       = Fs.trace (world s) ++ [Fs.IoUnlink (_lockPath x); Fs.IoCreate (_lockPath x)]
    /\ objects s' !! i = Some (set_lockHolder (Some (pid s)) x)
    /\ Fs.files (world s') !! _lockPath x
       = Some (Fs.touch (Fs.now (world s')) Fs.Garbage)
    /\ Fs.quiet (world s').
Proof.
  intros Hobj Hq Hf Hage.
  rewrite acquireLock_from_eq.
  unfold bind at 1. unfold this at 1. rewrite Hobj. cbv beta iota zeta.
  destruct (step_existsSync (_lockPath x) s Hq) as (w1 & E1 & Hq1 & Hfs1 & Htr1 & Hn1).
  step_with E1. rewrite Hf.
  destruct (step_statSync (_lockPath x) (set_world w1 s) f Hq1)
    as (w2 & E2 & Hq2 & Hfs2 & Htr2 & Hn2); [by rewrite <- Hf, <- Hfs1|].
  step_with E2.
  destruct (step_Date_now (set_world w2 (set_world w1 s)) Hq2)
    as (w3 & E3 & Hq3 & Hfs3 & Htr3 & Hn3).
  step_with E3. simpl in *.
  rewrite (proj2 (Z.gtb_lt _ _)) by lia.
  destruct (step_unlinkSync (_lockPath x) (set_world w3 (set_world w2 (set_world w1 s))) f Hq3)
    as (w4 & E4 & Hq4 & Hfs4 & Htr4 & Hn4).
  { simpl. by rewrite Hfs3, Hfs2, Hfs1. }
  step_with E4. simpl in *.
  destruct (create_free i (set_world w4 (set_world w3 (set_world w2 (set_world w1 s))))
              x (acquireLock_from fuel LockEnter i) Hobj Hq4)
    as (s' & E5 & Htr5 & Hobj5 & Hf5 & Hq5 & Hn5).
  { simpl. rewrite Hfs4. apply lookup_delete_eq. }
  exists s'. split; [exact E5|]. simpl in *. split_and!; try done.
  rewrite Htr5, Htr4, Htr3, Htr2, Htr1. by rewrite <- app_assoc.
Qed.

(** One operation on the file system and what follows it. *)

Lemma run_this {A} (i : nat) (k : JsonFile.t -> M St A) (s : St) (x : JsonFile.t) :
  objects s !! i = Some x -> (let* self := this i in k self) s = k x s.
Proof. intros H. unfold bind, this. by rewrite H. Qed.

Lemma run_Date_now {A} (k : Z -> M St A) (s : St) :
  (let* t := io Fs.Date_now in k t) s
  = k (Fs.now (Fs.env_step (world s))) (set_world (Fs.env_step (world s)) s).
Proof. reflexivity. Qed.

Lemma run_existsSync {A} (p : string) (k : bool -> M St A) (s : St) :
  (let* b := io (Fs.existsSync p) in k b) s
  = k (match Fs.files (Fs.env_step (world s)) !! p with Some _ => true | None => false end)
      (set_world (Fs.env_step (world s)) s).
Proof. reflexivity. Qed.

Lemma run_statSync {A} (p : string) (k : Fs.file -> M St A) (s : St) :
  (let* st := io (Fs.statSync p) in k st) s
  = match Fs.files (Fs.env_step (world s)) !! p with
    | Some st => k st (set_world (Fs.env_step (world s)) s)
    | None => (Throw (FsError "ENOENT"), set_world (Fs.env_step (world s)) s)
    end.
Proof.
  unfold bind, io, zoom, Fs.statSync, bind, Fs.env, modify, gets, ret, throw. simpl.
  by destruct (Fs.files (Fs.env_step (world s)) !! p).
Qed.

Lemma run_unlinkSync {A} (p : string) (k : M St A) (s : St) :
  (io (Fs.unlinkSync p) ;; k) s
  = let w := Fs.env_step (world s) in
    match Fs.files w !! p with
    | Some _ => k (set_world (Fs.log (Fs.IoUnlink p)
                                (Fs.set_files (delete p (Fs.files w)) w)) s)
    | None => (Throw (FsError "ENOENT"), set_world w s)
    end.
Proof.
  unfold bind, io, zoom, Fs.unlinkSync, bind, Fs.env, modify, gets, ret, throw. simpl.
  by destruct (Fs.files (Fs.env_step (world s)) !! p).
Qed.

(** The exclusive creation of the sentinel and what follows it. *)
Lemma sync_create {A} (p : string) (onok retry : M St A) (s : St) :
  (let* outcome :=
     try_catch
       (io (Fs.writeFileSync_wx p) ;; ret true)
       (fun error =>
          match error with
          | FsError "EEXIST" => ret false
          | _ => throw error
          end) in
   if (outcome : bool) then onok else retry) s
  = let w := Fs.env_step (world s) in
    match Fs.files w !! p with
    | Some _ => retry (set_world w s)
    | None =>
        onok (set_world
                (Fs.log (Fs.IoCreate p)
                   (Fs.set_files (<[p := Fs.touch (Fs.now w) Fs.Garbage]> (Fs.files w)) w))
                s)
    end.
Proof.
  unfold bind, try_catch, io, zoom, Fs.writeFileSync_wx, bind, Fs.env, modify, gets.
  cbv zeta. simpl.
  destruct (Fs.files (Fs.env_step (world s)) !! p); reflexivity.
Qed.

(** A file that the other processes leave alone. *)
Lemma env_step_alone (p : string) (w : Fs.World) :
  Fs.leaves_alone p w ->
  Fs.leaves_alone p (Fs.env_step w)
  /\ Fs.files (Fs.env_step w) !! p = Fs.files w !! p
  /\ Fs.trace (Fs.env_step w) = Fs.trace w
  /\ Fs.now w <= Fs.now (Fs.env_step w).
Proof.
  unfold Fs.leaves_alone, Fs.env_step. destruct (Fs.sched w) as [|e rest] eqn:E.
  - intros _. rewrite E. split_and!; (done || lia).
  - intros [He Hrest]%Forall_cons. unfold Fs.apply_event. simpl.
    split_and!; [done| |done|lia].
    destruct (Fs.ev_act e) as [|q c|q|q]; simpl in He; [done|..];
      apply String.eqb_neq in He.
    + by rewrite lookup_insert_ne.
    + destruct (Fs.files w !! q); [done|]. by rewrite lookup_insert_ne.
    + by rewrite lookup_delete_ne.
Qed.

(** The loop head meets a stale sentinel that nobody else touches. *)
Lemma lock_loop_stale_alone (fuel : nat) (start : Z) (i : nat) (s : St)
      (x : JsonFile.t) (f : Fs.file) :
  objects s !! i = Some x ->
  Fs.leaves_alone (_lockPath x) (world s) ->
  Fs.files (world s) !! _lockPath x = Some f ->
  Fs.now (world s) - Fs.ctimeMs f > lockMaxAge x * 1000 ->
  exists s',
    acquireLock_from (S fuel) (LockLoop start) i s = (Ok tt, s')
    /\ Fs.trace (world s')
       = Fs.trace (world s) ++ [Fs.IoUnlink (_lockPath x); Fs.IoCreate (_lockPath x)]
    /\ objects s' !! i = Some (set_lockHolder (Some (pid s)) x)
    /\ Fs.files (world s') !! _lockPath x
       = Some (Fs.touch (Fs.now (world s')) Fs.Garbage).
Proof.
  intros Hobj Ha Hf Hage.
  destruct (env_step_alone _ _ Ha) as (Ha1 & Hf1 & Ht1 & Hn1).
  destruct (env_step_alone _ _ Ha1) as (Ha2 & Hf2 & Ht2 & Hn2).
  destruct (env_step_alone _ _ Ha2) as (Ha3 & Hf3 & Ht3 & Hn3).
  destruct (env_step_alone _ _ Ha3) as (Ha4 & Hf4 & Ht4 & Hn4).
  remember (Fs.env_step (world s)) as w1 eqn:E1.
  remember (Fs.env_step w1) as w2 eqn:E2.
  remember (Fs.env_step w2) as w3 eqn:E3.
  remember (Fs.env_step w3) as w4 eqn:E4.
  remember (Fs.log (Fs.IoUnlink (_lockPath x))
              (Fs.set_files (delete (_lockPath x) (Fs.files w4)) w4)) as w5 eqn:E5.
  assert (Ha5 : Fs.leaves_alone (_lockPath x) w5) by (by subst w5).
  destruct (env_step_alone _ _ Ha5) as (Ha6 & Hf6 & Ht6 & Hn6).
  remember (Fs.env_step w5) as w6 eqn:E6.
  assert (Hnone : Fs.files w6 !! _lockPath x = None).
  { rewrite Hf6. subst w5. simpl. apply lookup_delete_eq. }
  eexists. split.
  - rewrite acquireLock_from_eq. rewrite (run_this i _ s x Hobj). cbv zeta.
    rewrite run_existsSync. rewrite <- E1, Hf1, Hf.
    rewrite run_statSync. cbn [world set_world]. rewrite <- E2, Hf2, Hf1, Hf.
    rewrite run_Date_now. cbn [world set_world]. rewrite <- E3. cbv zeta.
    rewrite (proj2 (Z.gtb_lt _ _)) by lia.
    rewrite run_unlinkSync. cbv zeta. cbn [world set_world].
    rewrite <- E4, Hf4, Hf3, Hf2, Hf1, Hf. rewrite <- E5.
    rewrite sync_create. cbv zeta. cbn [world set_world]. rewrite <- E6, Hnone.
    unfold bind, gets, update, modify. cbv beta iota. reflexivity.
  - cbn [world set_world set_objects objects pid Fs.trace Fs.log Fs.set_files Fs.files
           Fs.now].
    split_and!.
    + rewrite Ht6. subst w5. simpl. rewrite Ht4, Ht3, Ht2, Ht1.
      by rewrite <- app_assoc.
    + by rewrite list_lookup_alter_eq, Hobj.
    + by rewrite lookup_insert_eq.
Qed.

End LockFacts.

Section LockClaims.
Import JsonFile.

(** C5, as amended: an acquisition that finds the sentinel older than
    [lockMaxAge] seconds, while no other process touches the sentinel,
    deletes it and takes the lock at once: it succeeds, it unlinks the
    sentinel exactly once, it creates its own sentinel, and it never
    sleeps. This holds at the first look at the sentinel and at any
    later turn of the retry loop, whatever happens to other files. *)
Theorem stale_lock_broken_once
  (fuel : nat) (pc : lock_pc) (i : nat) (s : St) (x : JsonFile.t) (f : Fs.file) :
  objects s !! i = Some x ->
  _lockHolder x <> Some (pid s) ->
  Fs.leaves_alone (_lockPath x) (world s) ->
  Fs.files (world s) !! _lockPath x = Some f ->
  Fs.now (world s) - Fs.ctimeMs f > lockMaxAge x * 1000 ->
  (2 <= fuel)%nat ->
  exists s',
    acquireLock_from fuel pc i s = (Ok tt, s')
    /\ Fs.trace (world s')
       = Fs.trace (world s) ++ [Fs.IoUnlink (_lockPath x); Fs.IoCreate (_lockPath x)]
    /\ objects s' !! i = Some (set_lockHolder (Some (pid s)) x)
    /\ Fs.files (world s') !! _lockPath x
       = Some (Fs.touch (Fs.now (world s')) Fs.Garbage).
Proof.
  intros Hobj Hholder Ha Hf Hage Hfuel.
  destruct fuel as [|[|fuel]]; [lia|lia|].
  destruct pc as [|start].
  - destruct (env_step_alone _ _ Ha) as (Ha1 & Hf1 & Ht1 & Hn1).
    destruct (lock_loop_stale_alone fuel (Fs.now (Fs.env_step (world s))) i
                (set_world (Fs.env_step (world s)) s) x f)
      as (s' & E' & Htr' & Hobj' & Hf');
      [done|exact Ha1|cbn [world set_world]; by rewrite Hf1|cbn [world set_world]; lia|].
    cbn [world set_world pid] in Htr', Hobj'. rewrite Ht1 in Htr'.
    exists s'. split; [|by split_and!].
    rewrite acquireLock_from_eq. rewrite (run_this i _ s x Hobj). cbv zeta.
    unfold bind at 1. unfold gets at 1. cbv beta iota.
    destruct (_lockHolder x) as [h|].
    + destruct (Z.eqb_spec h (pid s)) as [Heq|_]; [by rewrite Heq in Hholder|].
      by rewrite run_Date_now.
    + by rewrite run_Date_now.
  - destruct (lock_loop_stale_alone (S fuel) start i s x f)
      as (s' & E' & Htr' & Hobj' & Hf'); try done.
    by exists s'.
Qed.

(** A sentinel an hour old, on an idle machine. *)
Lemma stale_lock_broken_once_witness :
  exists s',
    acquireLock 2 0 Scenario.stale_lock = (Ok tt, s')
    /\ Fs.trace (world s')
       = [Fs.IoUnlink "cfg.json.lock"; Fs.IoCreate "cfg.json.lock"].
Proof.
  edestruct (stale_lock_broken_once 2 LockEnter 0 Scenario.stale_lock)
    as (s' & E & Htr & _).
  - vm_compute. reflexivity.
  - vm_compute. discriminate.
  - vm_compute. constructor.
  - vm_compute. reflexivity.
  - vm_compute. reflexivity.
  - lia.
  - exists s'. split; [exact E|exact Htr].
Defined.

(** C5 as it is written fails when another process is at work: this
    process finds the sentinel an hour old and unlinks it, the other
    one creates its own before this process does, and the acquisition
    starts over on a fresh sentinel: it waits, and after
    [lockTimeout] it fails. *)
Lemma stale_lock_lost_in_a_race :
  let s := Scenario.stale_raced in
  let r := acquireLock 200 0 s in
  Fs.ctimeMs <$> (Fs.files (world s) !! "cfg.json.lock")
  = Some (Fs.now (world s) - 3600000)
  /\ lockMaxAge <$> (objects s !! 0%nat) = Some 30
  /\ Fs.trace (world (snd r)) !! 0%nat = Some (Fs.IoUnlink "cfg.json.lock")
  /\ Scenario.unlinks (Fs.trace (world (snd r))) = 1%nat
  /\ fst r = Throw (JsError "Lock acquisition timeout after 5000ms")
  /\ Scenario.slept (Fs.trace (world (snd r))) = 5100.
Proof. vm_compute. repeat split. Qed.

(** C6 (the code at the failing input): the lock is held for four
    seconds, released, and taken by a third process just before this
    one creates it. The retry starts the timeout afresh: the
    acquisition reports its timeout after 9100 ms of waiting, not
    within [lockTimeout] = 5000 ms. *)
Theorem lock_timeout_restarts_after_race :
  let r := acquireLock 200 0 Scenario.raced in
  fst r = Throw (JsError "Lock acquisition timeout after 5000ms")
  /\ _lockTimeout <$> (objects Scenario.raced !! 0%nat) = Some 5000
  /\ Fs.now (world (snd r)) - Fs.now (world Scenario.raced) = 9100
  /\ Scenario.slept (Fs.trace (world (snd r))) = 9100.
Proof. vm_compute. repeat split. Qed.

(** An acquisition can also fail with an error that is no timeout: the
    holder releases the lock between [existsSync] and [statSync]. *)
Lemma lock_fails_without_timeout :
  fst (acquireLock 200 0 Scenario.released_early) = Throw (FsError "ENOENT").
Proof. vm_compute. reflexivity. Qed.

(** Without a race the timeout is reported at the first test after
    [lockTimeout] has passed. *)
Lemma lock_timeout_when_held :
  let s := Scenario.opened "cfg.json" {[ "cfg.json.lock" := Fs.touch Scenario.t0 Fs.Garbage ]} in
  let r := acquireLock 200 0 s in
  fst r = Throw (JsError "Lock acquisition timeout after 5000ms")
  /\ Fs.now (world (snd r)) - Fs.now (world s) = 5100.
Proof. vm_compute. repeat split. Qed.

End LockClaims.

Section StoreClaims.
Import JsonFile.

(** C1 (the code at the failing input): with batch mode off, a [set]
    or a [pop] whose path has more than one segment under an existing
    top-level key changes the in-memory document and starts no save at
    all: the backing file keeps the old document. *)
Theorem nested_mutation_is_not_saved (fuel : nat) :
  let after_set := (set 0 "a/b/c" (VNum 1) ;; settle fuel) Scenario.nested_store in
  let after_pop := (pop 0 "a/b" VUndef ;; settle fuel) Scenario.nested_store in
  _batchMode <$> (objects Scenario.nested_store !! 0%nat) = Some false
  /\ Scenario.file_reflects Scenario.nested_store 0 = true
  /\ pending (snd (set 0 "a/b/c" (VNum 1) Scenario.nested_store)) = []
  /\ fst after_set = Ok tt
  /\ Scenario.in_memory (snd after_set) 0
     = Some (Heap.SJson (JObj [("a", JObj [("b", JObj [("c", JNum 1)])])]))
  /\ Scenario.on_disk (snd after_set) "cfg.json" = Some (Fs.Text Scenario.nested_doc)
  /\ Fs.trace (world (snd after_set)) = []
  /\ Scenario.file_reflects (snd after_set) 0 = false
  /\ fst after_pop = Ok tt
  /\ Scenario.in_memory (snd after_pop) 0 = Some (Heap.SJson (JObj [("a", JObj [])]))
  /\ Scenario.on_disk (snd after_pop) "cfg.json" = Some (Fs.Text Scenario.nested_doc)
  /\ Scenario.file_reflects (snd after_pop) 0 = false.
Proof. vm_compute. repeat split. Qed.

(** A one-segment path goes through the proxy and is saved. *)
Lemma top_level_set_is_saved :
  let after_set := (set 0 "x" (VNum 1) ;; settle 4) Scenario.nested_store in
  fst after_set = Ok tt
  /\ Scenario.file_reflects (snd after_set) 0 = true
  /\ Fs.trace (world (snd after_set))
     = [Fs.IoCreate "cfg.json.lock"; Fs.IoWrite "cfg.json"; Fs.IoUnlink "cfg.json.lock"].
Proof. vm_compute. repeat split. Qed.

(** C7 (the code at the failing input): another program rewrites the
    file; the watcher sees the newer modification time and reloads, so
    [this._data] is the new document, but [get] still reads the
    document the proxy was built on. *)
Theorem reload_is_invisible_to_get :
  let s := Scenario.with_sched Scenario.rewritten Scenario.theme_store in
  let r := (watcher_tick 8 0 ;; get 0 "theme" VUndef) s in
  Scenario.on_disk (snd r) "cfg.json" = Some (Fs.Text (JObj [("theme", JStr "light")]))
  /\ Scenario.loaded (snd r) 0 = Some (Heap.SJson (JObj [("theme", JStr "light")]))
  /\ _lastModified <$> (objects (snd r) !! 0%nat) = Some (Scenario.t0 + 10000)
  /\ fst r = Ok (VStr "dark").
Proof. vm_compute. repeat split. Qed.

End StoreClaims.

Section ConfigClaims.

(** [delete] calls methods the store does not have: it never returns. *)
Lemma delete_never_returns (host : Config.Host) (key : string) (s : Config.State) :
  forall u s', Config.delete host key s <> (Ok u, s').
Proof.
  intros u s'. unfold Config.delete. unfold bind at 1. unfold gets at 1.
  destruct (Config.shouldUseUpstream (Config.self s)).
  - unfold bind at 1. destruct (Config.libraryConfig host s) as [[lib|e|] s1]; done.
  - unfold bind at 1. destruct (Config.getCache host s) as [[cache|e|] s1]; try done.
    unfold bind at 1. destruct (Config.buildKey host key s1) as [[k|e|] s2]; try done.
Qed.

(** So [pop], on either storage, never returns a value. *)
Lemma pop_never_returns (host : Config.Host) (key : string) (s : Config.State) :
  forall v s', Config.pop host key s <> (Ok v, s').
Proof.
  intros v s'. unfold Config.pop. unfold bind at 1.
  destruct (Config.get host key s) as [[value|e|] s1]; try done.
  unfold bind at 1.
  pose proof (delete_never_returns host key s1) as Hd.
  destruct (Config.delete host key s1) as [[u|e|] s2]; try done.
  by specialize (Hd u s2).
Qed.

(** C2 (the code at the failing input): on direct storage [pop] reads
    the value and then calls [delete] on the store, which has no such
    method: the call throws a [TypeError], nothing is returned and the
    entry stays. *)
Theorem pop_direct_throws :
  let host := Scenario.library_host in
  let s := snd (Scenario.settled (Config.set host "k" (VNum 1)) Scenario.user_state) in
  let r := Config.pop host "k" s in
  Config.shouldUseUpstream (Config.self s) = false
  /\ fst (Config.get host "k" s) = Ok (VNum 1)
  /\ fst r = Throw (JsTypeError "this.#getCache(...).delete is not a function")
  /\ fst (Config.get host "k" (snd r)) = Ok (VNum 1)
  /\ fst (Config.pop host "never-stored" s)
     = Throw (JsTypeError "this.#getCache(...).delete is not a function").
Proof. vm_compute. repeat split. Qed.

(** Upstream storage is chosen exactly when the toggle is on and the
    bound array is longer than the threshold. *)
Lemma shouldUseUpstream_spec (c : Config.t) :
  Config.shouldUseUpstream c = true <->
  Config.keyUpstreamToggle c = true
  /\ Z.of_nat (length (default [] (Config.bound_array c)))
     > Config.keyUpstreamThreshold c.
Proof.
  unfold Config.shouldUseUpstream.
  destruct (Config.keyUpstreamToggle c); simpl.
  - rewrite Z.gtb_gt. destruct (Config.bound_array c); simpl; intuition lia.
  - split; [done|]. by intros [? _].
Qed.

(** On upstream storage [get] calls [getAll], which the store does not
    have: it never returns. *)
Lemma get_upstream_never_returns (host : Config.Host) (key : string) (s : Config.State) :
  Config.shouldUseUpstream (Config.self s) = true ->
  forall v s', Config.get host key s <> (Ok v, s').
Proof.
  intros Hup v s'. unfold Config.get. unfold bind at 1. unfold gets at 1.
  rewrite Hup. unfold Config.getUpstream. unfold bind at 1.
  destruct (Config.libraryConfig host s) as [[lib|e|] s1]; done.
Qed.

(** C3 (the code at the failing input): with the toggle on and the
    threshold at 3, three items use the scope's own store and the value
    is read back; four items use the library store, where [set] writes
    the reference record and the tagged entry, and [get] throws a
    [TypeError] because the store has no [getAll]. *)
Theorem upstream_get_throws :
  let host := Scenario.library_host in
  let three := snd (Config.supplyArgs host (Scenario.items ["a"; "b"; "c"]) Scenario.item_state) in
  let four := snd (Config.supplyArgs host (Scenario.items ["a"; "b"; "c"; "d"]) Scenario.item_state) in
  let direct := (Scenario.settled (Config.set host "tag" (VStr "done")) ;;
                 Config.get host "tag")%monad three in
  let written := Scenario.settled (Config.set host "tag" (VStr "done")) four in
  Config.keyUpstreamToggle (Config.self four) = true
  /\ Config.keyUpstreamThreshold (Config.self four) = 3
  /\ Config.shouldUseUpstream (Config.self three) = false
  /\ Config.shouldUseUpstream (Config.self four) = true
  /\ fst direct = Ok (VStr "done")
  /\ Scenario.on_disk (Config.store (snd direct)) "/lib/images/a.info/coolerConfig.json"
     = Some (Fs.Text (JObj [("tag", JStr "done")]))
  /\ fst written = Ok tt
  /\ Scenario.on_disk (Config.store (snd written)) "/lib/coolerConfig.json"
     = Some (Fs.Text
               (JObj [("@k3x9f2a7",
                       JArr (map (fun n => Config.descriptor_json (Scenario.item_at n))
                                 ["a"; "b"; "c"; "d"]));
                      ("{ref=k3x9f2a7}tag", JStr "done")]))
  /\ fst (Config.get host "tag" (snd written))
     = Throw (JsTypeError "libraryConfig.getAll is not a function").
Proof. vm_compute. repeat split. Qed.

(** C8 (the code at the failing input): on an empty document
    [setdefault("a/b", v1)] reads [null] for the missing path, takes it
    for an existing value, stores nothing and returns [null]; so does
    the second call. *)
Theorem setdefault_nested_returns_null :
  let host := Scenario.library_host in
  let first := Scenario.settled (Config.setdefault host "a/b" (VStr "v1")) Scenario.user_state in
  let second := Scenario.settled (Config.setdefault host "a/b" (VStr "v2")) (snd first) in
  fst first = Ok VNull
  /\ Scenario.in_memory (Config.store (snd first)) 0 = Some (Heap.SJson (JObj []))
  /\ Scenario.on_disk (Config.store (snd first)) Scenario.user_file = None
  /\ fst second = Ok VNull
  /\ Scenario.in_memory (Config.store (snd second)) 0 = Some (Heap.SJson (JObj [])).
Proof. vm_compute. repeat split. Qed.

(** With a one-segment key, or under an existing parent, [setdefault]
    does what its documentation says. *)
Lemma setdefault_top_level :
  let host := Scenario.library_host in
  let first := Scenario.settled (Config.setdefault host "a" (VStr "v1")) Scenario.user_state in
  let second := Scenario.settled (Config.setdefault host "a" (VStr "v2")) (snd first) in
  fst first = Ok (VStr "v1")
  /\ fst second = Ok (VStr "v1")
  /\ Scenario.on_disk (Config.store (snd second)) Scenario.user_file
     = Some (Fs.Text (JObj [("a", JStr "v1")])).
Proof. vm_compute. repeat split. Qed.

End ConfigClaims.

(** ** The registry of stores *)

(** *** Frame rules of the monad *)

Section Frame.
Context {S : Type} (R : S -> S -> Prop) `{!PreOrder R}.

Lemma preserves_ret {A} (a : A) : preserves R (ret a).
Proof. intros s. simpl. reflexivity. Qed.

Lemma preserves_throw {A} (e : exn) : preserves R (throw (A := A) e).
Proof. intros s. simpl. reflexivity. Qed.

Lemma preserves_diverge {A} : preserves R (diverge (A := A)).
Proof. intros s. simpl. reflexivity. Qed.

Lemma preserves_gets {A} (f : S -> A) : preserves R (gets f).
Proof. intros s. simpl. reflexivity. Qed.

Lemma preserves_modify (f : S -> S) :
  (forall s, R s (f s)) -> preserves R (modify f).
Proof. intros Hf s. apply Hf. Qed.

Lemma preserves_bind {A B} (c : M S A) (k : A -> M S B) :
  preserves R c -> (forall a, preserves R (k a)) -> preserves R (bind c k).
Proof.
  intros Hc Hk s. unfold bind. specialize (Hc s).
  destruct (c s) as [[a|e|] s1]; simpl in *; [|done..].
  etrans; [exact Hc|]. apply Hk.
Qed.

Lemma preserves_try_catch {A} (c : M S A) (h : exn -> M S A) :
  preserves R c -> (forall e, preserves R (h e)) -> preserves R (try_catch c h).
Proof.
  intros Hc Hh s. unfold try_catch. specialize (Hc s).
  destruct (c s) as [[a|e|] s1]; simpl in *; [done| |done].
  destruct e; try done; (etrans; [exact Hc|]; apply Hh).
Qed.

Lemma preserves_try_finally {A} (c : M S A) (f : M S unit) :
  preserves R c -> preserves R f -> preserves R (try_finally c f).
Proof.
  intros Hc Hf s. unfold try_finally. specialize (Hc s).
  destruct (c s) as [[a|e|] s1]; simpl in *; [| |done].
  - specialize (Hf s1). destruct (f s1) as [[u|e|] s2]; simpl in *; by etrans.
  - specialize (Hf s1).
    destruct e; try done; destruct (f s1) as [[u|e'|] s2]; simpl in *; by etrans.
Qed.

Lemma preserves_repeat (n : nat) (c : M S unit) :
  preserves R c -> preserves R (repeatM n c).
Proof.
  intros Hc. induction n; simpl.
  - apply preserves_ret.
  - apply preserves_bind; auto.
Qed.

Lemma preserves_weaken {A} (R' : S -> S -> Prop) (c : M S A) :
  (forall s s', R s s' -> R' s s') -> preserves R c -> preserves R' c.
Proof. intros HR Hc s. apply HR, Hc. Qed.

End Frame.

Lemma bind_value {S A B} (c : M S A) (k : A -> M S B) (P : B -> Prop) (s : S) :
  (forall a s1 b s2, k a s1 = (Ok b, s2) -> P b) ->
  forall b s2, bind c k s = (Ok b, s2) -> P b.
Proof.
  intros Hk b s2. unfold bind. destruct (c s) as [[a|e|] s1]; [|done..].
  apply Hk.
Qed.

Create HintDb frame.

#[local] Hint Resolve preserves_ret preserves_throw preserves_diverge preserves_gets : frame.
#[local] Hint Extern 0 (PreOrder _) => (apply _) : frame.

Ltac frame :=
  repeat first
    [ progress intros
    | progress cbv zeta
    | solve [auto with frame]
    | apply preserves_bind
    | apply preserves_try_catch
    | apply preserves_try_finally
    | match goal with
      | |- preserves _ (match ?x with _ => _ end) => destruct x
      | |- preserves _ (if ?b then _ else _) => destruct b
      end ].

(** ** The registry of stores *)

Section RegistryFacts.
Import JsonFile.

#[local] Instance keeps_preorder {X} (proj : t -> X) : PreOrder (keeps proj).
Proof.
  split.
  - intros s. by split.
  - intros s1 s2 s3 [H1 H2] [H3 H4]. split; congruence.
Qed.

#[local] Instance keeps_registry_preorder : PreOrder keeps_registry.
Proof. apply keeps_preorder. Qed.

Lemma keeps_binding_settings (s s' : St) : keeps binding s s' -> keeps_registry s s'.
Proof.
  intros [H1 H2]. split; [done|].
  assert (Hmap : forall l : list t, map settings l = map fst (map binding l)).
  { intros l. rewrite map_map. done. }
  by rewrite !Hmap, H2.
Qed.

Lemma keeps_binding_data (s s' : St) :
  keeps binding s s' -> map data (objects s') = map data (objects s).
Proof.
  intros [_ H2].
  assert (Hmap : forall l : list t, map data l = map snd (map binding l)).
  { intros l. rewrite map_map. done. }
  by rewrite !Hmap, H2.
Qed.

Section Projection.
Context {X : Type} (proj : t -> X).

Lemma preserves_io {A} (c : M Fs.World A) : preserves (keeps proj) (io c).
Proof. intros s. unfold io, zoom. by destruct (c (world s)). Qed.

Lemma preserves_heap {A} (c : M Mem A) : preserves (keeps proj) (heap c).
Proof. intros s. unfold heap, zoom. by destruct (c (mem s)). Qed.

Lemma preserves_this (i : nat) : preserves (keeps proj) (this i).
Proof. intros s. unfold this. by destruct (objects s !! i). Qed.

Lemma preserves_update (i : nat) (f : t -> t) :
  (forall x, proj (f x) = proj x) -> preserves (keeps proj) (update i f).
Proof.
  intros Hf s. split; [done|]. simpl.
  apply list_eq. intros j. rewrite !list_lookup_fmap.
  destruct (decide (i = j)) as [->|Hne].
  - rewrite list_lookup_alter_eq. destruct (objects s !! j); simpl; [|done].
    by rewrite Hf.
  - by rewrite list_lookup_alter_ne.
Qed.

End Projection.

#[local] Hint Resolve preserves_io preserves_heap preserves_this : frame.
#[local] Hint Extern 1 (preserves _ (update _ _)) =>
  (apply preserves_update; done) : frame.
#[local] Hint Extern 1 (preserves _ (modify _)) =>
  (apply preserves_modify; done) : frame.

(** Neither the settings nor the proxy change in what follows. *)

Lemma preserves_acquireLock_from (fuel : nat) (pc : lock_pc) (i : nat) :
  preserves (keeps binding) (acquireLock_from fuel pc i).
Proof.
  revert pc. induction fuel as [|fuel IH]; intros pc.
  - apply preserves_diverge. apply _.
  - rewrite acquireLock_from_eq. frame.
Qed.

Lemma preserves_releaseLock (i : nat) : preserves (keeps binding) (releaseLock i).
Proof. unfold releaseLock. frame. Qed.

Lemma preserves_loadSync (i : nat) : preserves (keeps binding) (loadSync i).
Proof. unfold loadSync, JSON_parse. frame. Qed.

#[local] Hint Resolve preserves_acquireLock_from preserves_releaseLock
     preserves_loadSync : frame.

Lemma preserves_load (fuel i : nat) : preserves (keeps binding) (load fuel i).
Proof. unfold load, acquireLock. frame. Qed.

Lemma preserves_save_body (fuel i : nat) : preserves (keeps binding) (save_body fuel i).
Proof. unfold save_body, acquireLock, JSON_stringify_data. frame. Qed.

Lemma preserves_acquireLock_sync (fuel : nat) (i : nat) :
  preserves (keeps binding) (acquireLock_sync fuel i).
Proof.
  induction fuel as [|fuel IH].
  - apply preserves_diverge. apply _.
  - simpl. frame.
Qed.

Lemma preserves_acquireLock_resume (fuel : nat) (start : Z) (i : nat) :
  preserves (keeps binding) (acquireLock_resume fuel start i).
Proof. unfold acquireLock_resume. frame. Qed.

Lemma preserves_save_write (i : nat) : preserves (keeps binding) (save_write i).
Proof. unfold save_write, JSON_stringify_data. frame. Qed.

#[local] Hint Resolve preserves_acquireLock_sync preserves_acquireLock_resume
     preserves_save_write : frame.

Lemma preserves_save (i : nat) : preserves (keeps binding) (save i).
Proof. unfold save. frame. Qed.

Lemma preserves_resume_save (fuel : nat) (i : nat) (pc : save_pc) :
  preserves (keeps binding) (resume_save fuel i pc).
Proof. unfold resume_save. frame. Qed.

#[local] Hint Resolve preserves_load preserves_save_body preserves_save
     preserves_resume_save : frame.

Lemma preserves_run_saves (fuel : nat) (queue : list (nat * save_pc)) :
  preserves (keeps binding) (run_saves fuel queue).
Proof. induction queue as [|[i pc] queue IH]; simpl; frame. Qed.

#[local] Hint Resolve preserves_run_saves : frame.

Lemma preserves_settle (fuel : nat) : preserves (keeps binding) (settle fuel).
Proof. unfold settle. frame. Qed.

Lemma preserves_trap_handler (i : nat) : preserves (keeps binding) (trap_handler i).
Proof. unfold trap_handler. frame. Qed.

Lemma preserves_on_data {A} (i : nat) (c : ref -> M Mem A) :
  preserves (keeps binding) (on_data i c).
Proof.
  intros s. unfold on_data.
  pose proof (preserves_this binding i s) as Ht.
  destruct (this i s) as [[x|e|] s0]; simpl in *; [|done..].
  destruct (c _ _) as [r m].
  pose proof (preserves_repeat (keeps binding) (traps m) _
                (preserves_trap_handler i) (set_mem m s)) as Hr.
  destruct (repeatM (traps m) (trap_handler i) (set_mem m s)) as [[u|e|] s1];
    simpl in *; exact Hr.
Qed.

#[local] Hint Resolve preserves_settle preserves_trap_handler preserves_on_data : frame.

Lemma preserves_watcher_tick (fuel i : nat) :
  preserves (keeps binding) (watcher_tick fuel i).
Proof. unfold watcher_tick. frame. Qed.

Lemma preserves_setupWatcher (i : nat) : preserves (keeps binding) (_setupWatcher i).
Proof. unfold _setupWatcher. frame. Qed.

Lemma preserves_beginBatch (i : nat) : preserves (keeps binding) (beginBatch i).
Proof. unfold beginBatch. frame. Qed.

Lemma preserves_endBatch (i : nat) : preserves (keeps binding) (endBatch i).
Proof. unfold endBatch. frame. Qed.

Lemma preserves_get (i : nat) (key : string) (d : jsval) :
  preserves (keeps binding) (get i key d).
Proof. unfold get. frame. Qed.

Lemma preserves_set (i : nat) (key : string) (v : jsval) :
  preserves (keeps binding) (set i key v).
Proof. unfold set. frame. Qed.

Lemma preserves_setDefault (i : nat) (key : string) (d : jsval) :
  preserves (keeps binding) (setDefault i key d).
Proof. unfold setDefault. frame. Qed.

Lemma preserves_pop (i : nat) (key : string) (d : jsval) :
  preserves (keeps binding) (pop i key d).
Proof. unfold pop. frame. Qed.

(** Only the constructor builds the proxy: it changes [this.data] and
    keeps the settings. *)
Lemma preserves_setupProxy (i : nat) : preserves keeps_registry (_setupProxy i).
Proof. unfold _setupProxy, keeps_registry. frame. Qed.

(** A reload leaves [this.data] bound to the object it was built on. *)
Lemma reload_keeps_proxy_target (fuel i : nat) (s : St) :
  map data (objects (snd (watcher_tick fuel i s))) = map data (objects s)
  /\ map data (objects (snd (load fuel i s))) = map data (objects s)
  /\ map data (objects (snd (loadSync i s))) = map data (objects s).
Proof.
  split_and!; apply keeps_binding_data.
  - apply preserves_watcher_tick.
  - apply preserves_load.
  - apply preserves_loadSync.
Qed.

Lemma constructor_registered (file : string) (options : Options) (s : St) (i : nat) :
  _instances s !! file = Some i ->
  snd (constructor file options s) = s
  /\ forall j, fst (constructor file options s) <> Ok j.
Proof.
  intros H. unfold constructor, bind, gets. rewrite H. done.
Qed.

Lemma constructor_fresh (file : string) (options : Options) (s : St) :
  _instances s !! file = None ->
  _instances (snd (constructor file options s))
  = <[file := length (objects s)]> (_instances s)
  /\ map settings (objects (snd (constructor file options s)))
     = map settings (objects s) ++ [settings_of file options]
  /\ forall j, fst (constructor file options s) = Ok j -> j = length (objects s).
Proof.
  intros H.
  set (i := length (objects s)).
  set (c := (loadSync i ;; _setupWatcher i ;; _setupProxy i ;; ret i)%monad).
  assert (E : exists s1,
             constructor file options s = c s1
             /\ _instances s1 = <[file := i]> (_instances s)
             /\ map settings (objects s1)
                = map settings (objects s) ++ [settings_of file options]).
  { eexists. split.
    - unfold constructor. unfold bind at 1. unfold gets at 1. rewrite H. reflexivity.
    - simpl. split; [done|]. by rewrite map_app. }
  destruct E as (s1 & -> & Hreg1 & Hobj1).
  assert (Hc : preserves keeps_registry c).
  { unfold c. apply preserves_bind; [apply _| |intros _].
    { eapply preserves_weaken; [apply keeps_binding_settings|apply preserves_loadSync]. }
    apply preserves_bind; [apply _| |intros _].
    { eapply preserves_weaken; [apply keeps_binding_settings|apply preserves_setupWatcher]. }
    apply preserves_bind; [apply _|apply preserves_setupProxy|intros _].
    apply preserves_ret; apply _. }
  destruct (Hc s1) as [Hreg Hobj]. rewrite Hreg, Hobj.
  split_and!; [done|done|].
  intros j Hj. destruct (c s1) as [r s2] eqn:Ec. simpl in Hj. subst r.
  revert Ec. unfold c.
  apply (bind_value _ _ (fun j => j = i)). intros _ ? ? ?.
  apply (bind_value _ _ (fun j => j = i)). intros _ ? ? ?.
  apply (bind_value _ _ (fun j => j = i)). intros _ ? ? ?.
  by intros [= <- _].
Qed.

(** A registered path is answered from the registry, whatever the
    options say. *)
Lemma getInstance_registered (file : string) (options : Options) (s : St) (i : nat) :
  _instances s !! file = Some i -> getInstance file options s = (Ok i, s).
Proof.
  intros H. unfold getInstance, bind, gets, ret. cbv beta iota.
  rewrite H. cbv beta iota. by rewrite H.
Qed.

Lemma getInstance_fresh (file : string) (options : Options) (s : St) :
  _instances s !! file = None ->
  _instances (snd (getInstance file options s))
  = <[file := length (objects s)]> (_instances s)
  /\ map settings (objects (snd (getInstance file options s)))
     = map settings (objects s) ++ [settings_of file options]
  /\ forall j, fst (getInstance file options s) = Ok j -> j = length (objects s).
Proof.
  intros H. destruct (constructor_fresh file options s H) as (Hreg & Hobj & Hval).
  assert (E : getInstance file options s =
              match constructor file options s with
              | (Ok i, s1) => (Ok i, set_instances (<[file := i]> (_instances s1)) s1)
              | (Throw e, s1) => (Throw e, s1)
              | (Diverge, s1) => (Diverge, s1)
              end).
  { unfold getInstance, bind, gets. cbv beta iota. rewrite H.
    destruct (constructor file options s) as [[i|e|] s1]; cbv beta iota; try done.
    unfold modify, ret. simpl. by rewrite lookup_insert_eq. }
  rewrite E. destruct (constructor file options s) as [[i|e|] s1]; simpl in *.
  - specialize (Hval i eq_refl). subst i.
    rewrite Hreg, insert_insert_eq. split_and!; [done|done|]. by intros j [= <-].
  - done.
  - done.
Qed.

Lemma close_registry (i : nat) (s : St) (x : t) :
  objects s !! i = Some x ->
  fst (close i s) = Ok tt
  /\ _instances (snd (close i s)) = delete (filename x) (_instances s)
  /\ map settings (objects (snd (close i s))) = map settings (objects s).
Proof.
  intros H. unfold close, bind, this. rewrite H. simpl.
  split_and!; [done|done|].
  apply (preserves_update settings i (set_watcherInterval false)). done.
Qed.

Lemma close_missing (i : nat) (s : St) :
  objects s !! i = None -> snd (close i s) = s.
Proof. intros H. unfold close, bind, this. by rewrite H. Qed.

Lemma filename_settings (l : list t) (i : nat) :
  filename <$> (l !! i) = fst <$> (map settings l !! i).
Proof. rewrite list_lookup_fmap. by destruct (l !! i). Qed.

Lemma registry_ok_keeps (s s' : St) :
  keeps_registry s s' -> registry_ok s -> registry_ok s'.
Proof.
  intros [Hreg Hobj] Hok file i Hi. rewrite Hreg in Hi.
  rewrite filename_settings, Hobj, <- filename_settings. by apply Hok.
Qed.

Lemma registry_ok_insert (s s' : St) (file : string) (options : Options) :
  _instances s' = <[file := length (objects s)]> (_instances s) ->
  map settings (objects s') = map settings (objects s) ++ [settings_of file options] ->
  registry_ok s -> registry_ok s'.
Proof.
  intros Hreg Hobj Hok f i Hi. rewrite Hreg in Hi.
  rewrite filename_settings, Hobj.
  destruct (decide (file = f)) as [->|Hne].
  - rewrite lookup_insert_eq in Hi. injection Hi as <-.
    rewrite <- (length_map settings), list_lookup_middle by done. done.
  - rewrite lookup_insert_ne in Hi by done.
    specialize (Hok f i Hi). rewrite filename_settings in Hok.
    rewrite lookup_app_l; [done|].
    apply lookup_lt_is_Some. destruct (map settings (objects s) !! i); [eauto|done].
Qed.

(** Each call leaves the settings of the existing objects alone. *)
Lemma exec_settings (c : call) (s : St) :
  exists extra,
    map settings (objects (exec c s)) = map settings (objects s) ++ extra.
Proof.
  assert (Hkeep : forall s', keeps_registry s s' ->
            exists extra, map settings (objects s') = map settings (objects s) ++ extra).
  { intros s' [_ H]. exists []. by rewrite app_nil_r. }
  destruct c; cbn [exec]; try (apply Hkeep; first
    [ by split | apply keeps_binding_settings ]; first
    [ apply preserves_get | apply preserves_set | apply preserves_setDefault
    | apply preserves_pop | apply preserves_beginBatch | apply preserves_endBatch
    | apply preserves_loadSync | apply preserves_load | apply preserves_save
    | apply preserves_settle | apply preserves_watcher_tick ]).
  - destruct (_instances s !! file) as [i|] eqn:E.
    + destruct (constructor_registered file options s i E) as [-> _].
      exists []. by rewrite app_nil_r.
    + destruct (constructor_fresh file options s E) as (_ & H & _). eauto.
  - destruct (_instances s !! file) as [i|] eqn:E.
    + rewrite (getInstance_registered file options s i E). exists []. by rewrite app_nil_r.
    + destruct (getInstance_fresh file options s E) as (_ & H & _). eauto.
  - destruct (objects s !! i) as [x|] eqn:E.
    + destruct (close_registry i s x E) as (_ & _ & H). exists []. by rewrite app_nil_r.
    + rewrite (close_missing i s E). exists []. by rewrite app_nil_r.
Qed.

Lemma exec_registry_ok (c : call) (s : St) :
  registry_ok s -> registry_ok (exec c s).
Proof.
  intros Hok.
  destruct c; cbn [exec]; try (eapply registry_ok_keeps; [|exact Hok]; first
    [ by split | apply keeps_binding_settings ]; first
    [ apply preserves_get | apply preserves_set | apply preserves_setDefault
    | apply preserves_pop | apply preserves_beginBatch | apply preserves_endBatch
    | apply preserves_loadSync | apply preserves_load | apply preserves_save
    | apply preserves_settle | apply preserves_watcher_tick ]).
  - destruct (_instances s !! file) as [i|] eqn:E.
    + by destruct (constructor_registered file options s i E) as [-> _].
    + destruct (constructor_fresh file options s E) as (H1 & H2 & _).
      by eapply registry_ok_insert.
  - destruct (_instances s !! file) as [i|] eqn:E.
    + by rewrite (getInstance_registered file options s i E).
    + destruct (getInstance_fresh file options s E) as (H1 & H2 & _).
      by eapply registry_ok_insert.
  - destruct (objects s !! i) as [x|] eqn:E.
    + destruct (close_registry i s x E) as (_ & H1 & H2).
      intros f j Hj. rewrite H1 in Hj.
      rewrite filename_settings, H2, <- filename_settings.
      apply Hok. destruct (decide (filename x = f)) as [<-|Hne].
      * by rewrite lookup_delete_eq in Hj.
      * by rewrite lookup_delete_ne in Hj.
    + by rewrite (close_missing i s E).
Qed.

Lemma reachable_registry_ok (s : St) : reachable s -> registry_ok s.
Proof.
  induction 1 as [s Hobj Hreg|c s _ IH].
  - intros f i Hi. by rewrite Hreg, lookup_empty in Hi.
  - by apply exec_registry_ok.
Qed.

End RegistryFacts.

(** C10: the registry holds at most one store per file path at any
    time; [getInstance] on a registered path returns the registered
    store and changes nothing, whatever options it is given; the lock and
    watch settings of a store are those of the call that created it and
    no later call changes them; [close] removes the registration; and
    [getInstance] on an unregistered path creates a new store with the
    settings of that call. *)
Theorem one_store_per_path :
  (forall s, JsonFile.reachable s ->
     forall i j, JsonFile.registered s i -> JsonFile.registered s j ->
       JsonFile.filename <$> (JsonFile.objects s !! i)
       = JsonFile.filename <$> (JsonFile.objects s !! j) ->
       i = j)
  /\ (forall s file options i,
        JsonFile._instances s !! file = Some i ->
        JsonFile.getInstance file options s = (Ok i, s))
  /\ (forall c s i x,
        JsonFile.objects s !! i = Some x ->
        JsonFile.settings <$> (JsonFile.objects (JsonFile.exec c s) !! i)
        = Some (JsonFile.settings x))
  /\ (forall s i x,
        JsonFile.objects s !! i = Some x ->
        fst (JsonFile.close i s) = Ok tt
        /\ JsonFile._instances (snd (JsonFile.close i s)) !! JsonFile.filename x = None)
  /\ (forall s file options,
        JsonFile._instances s !! file = None ->
        let r := JsonFile.getInstance file options s in
        JsonFile._instances (snd r) !! file = Some (length (JsonFile.objects s))
        /\ JsonFile.objects s !! length (JsonFile.objects s) = None
        /\ JsonFile.settings <$> (JsonFile.objects (snd r) !! length (JsonFile.objects s))
           = Some (JsonFile.settings_of file options)
        /\ forall j, fst r = Ok j -> j = length (JsonFile.objects s)).
Proof.
  split_and!.
  - intros s Hs i j [fi Hi] [fj Hj] Heq.
    pose proof (reachable_registry_ok s Hs) as Hok.
    rewrite (Hok fi i Hi), (Hok fj j Hj) in Heq. injection Heq as <-. congruence.
  - intros. by apply getInstance_registered.
  - intros c s i x Hx. destruct (exec_settings c s) as [extra H].
    rewrite <- list_lookup_fmap.
    change (fmap JsonFile.settings (JsonFile.objects (JsonFile.exec c s)))
      with (map JsonFile.settings (JsonFile.objects (JsonFile.exec c s))).
    rewrite H, lookup_app_l.
    + by rewrite list_lookup_fmap, Hx.
    + rewrite length_map. by eapply lookup_lt_Some.
  - intros s i x Hx. destruct (close_registry i s x Hx) as (H1 & H2 & _).
    split; [done|]. rewrite H2. apply lookup_delete_eq.
  - intros s file options Hfree r.
    destruct (getInstance_fresh file options s Hfree) as (H1 & H2 & H3).
    subst r. split_and!.
    + rewrite H1. apply lookup_insert_eq.
    + by apply lookup_ge_None.
    + rewrite <- list_lookup_fmap.
      change (fmap JsonFile.settings ?l) with (map JsonFile.settings l).
      rewrite H2. rewrite <- (length_map JsonFile.settings). by rewrite list_lookup_middle.
    + done.
Qed.


(** ** Traversals and the proxy *)

Section ProxyFacts.

#[local] Instance same_traps_preorder : PreOrder Heap.same_traps.
Proof.
  split.
  - intros m. reflexivity.
  - intros m1 m2 m3 H1 H2. unfold Heap.same_traps in *. congruence.
Qed.

Lemma preserves_read (l : loc) : preserves Heap.same_traps (Heap.read l).
Proof. intros m. unfold Heap.read. by destruct (cells m !! l). Qed.

Lemma preserves_write (l : loc) (c : cell) : preserves Heap.same_traps (Heap.write l c).
Proof. intros m. reflexivity. Qed.

Lemma preserves_new (c : cell) : preserves Heap.same_traps (Heap.new c).
Proof. intros m. reflexivity. Qed.

(** A write that does not go through the proxy sets off no trap. *)
Lemma preserves_trap_plain (v : jsval) (n : nat) :
  preserves Heap.same_traps (Heap.trap (RPlain v) n).
Proof. intros m. reflexivity. Qed.

#[local] Hint Resolve preserves_read preserves_write preserves_new
     preserves_trap_plain : frame.

Lemma plain_step_traps (createMissing : bool) (v : jsval) (key : string) :
  preserves Heap.same_traps (Traverse._traverse_step createMissing (RPlain v) key).
Proof.
  unfold Traverse._traverse_step, Traverse.push_fill, Traverse.check_length,
    Traverse.obj_in, Traverse.obj_set, Traverse.obj_get.
  frame.
Qed.

Lemma step_result_plain (createMissing : bool) (curr : ref) (key : string) (m : Mem) :
  forall r m', Traverse._traverse_step createMissing curr key m = (Ok r, m') ->
               exists v, r = RPlain v.
Proof.
  assert (Hloc : forall l r m',
            (let* c := Heap.read l in
             match c with
             | CArr elems props =>
                 let index := Num.parseInt key in
                 (if createMissing && Num.ge_len index (length elems)
                  then
                    let i := default 0 index in
                    Traverse.check_length i ;;
                    let* fresh := Heap.new (CObj []) in
                    Traverse.push_fill curr l elems props i fresh
                  else ret tt) ;;
                 let* c' := Heap.read l in
                 match c' with
                 | CArr elems' props' => ret (RPlain (Traverse.arr_get elems' props' index))
                 | CObj _ => throw (Unmodelled "array became an object")
                 end
             | CObj props =>
                 let* present := (if createMissing then Traverse.obj_in props key
                                  else ret true) in
                 (if negb present
                  then
                    let* fresh := Heap.new (CObj []) in
                    Traverse.obj_set curr l props key fresh
                  else ret tt) ;;
                 let* c' := Heap.read l in
                 match c' with
                 | CObj props' => let* v := Traverse.obj_get props' key in ret (RPlain v)
                 | CArr _ _ => throw (Unmodelled "object became an array")
                 end
             end)%monad m = (Ok r, m') -> exists v, r = RPlain v).
  { intros l r m'. revert r m'.
    apply (bind_value _ _ (fun r => exists v, r = RPlain v)). intros c m1.
    destruct c as [props|elems props].
    - apply (bind_value _ _ (fun r => exists v, r = RPlain v)). intros present m2.
      apply (bind_value _ _ (fun r => exists v, r = RPlain v)). intros _ m3.
      apply (bind_value _ _ (fun r => exists v, r = RPlain v)). intros c' m4.
      destruct c' as [props'|]; [|done].
      apply (bind_value _ _ (fun r => exists v, r = RPlain v)). intros v m5 r m6.
      intros [= <- _]. eauto.
    - cbv zeta.
      apply (bind_value _ _ (fun r => exists v, r = RPlain v)). intros _ m2.
      apply (bind_value _ _ (fun r => exists v, r = RPlain v)). intros c' m3.
      destruct c' as [|elems' props']; [done|].
      intros r m4 [= <- _]. eauto. }
  intros r m'. unfold Traverse._traverse_step.
  destruct curr as [l|[| | | | |l]]; try done; apply Hloc.
Qed.

Lemma traverse_cons (curr : ref) (key : string) (keys : list string) (cm : bool) :
  Traverse._traverse curr (key :: keys) cm
  = (let* next := Traverse._traverse_step cm curr key in
     Traverse._traverse next keys cm)%monad.
Proof. reflexivity. Qed.

Lemma plain_traverse (keys : list string) (createMissing : bool) (v : jsval) (m : Mem) :
  traps (snd (Traverse._traverse (RPlain v) keys createMissing m)) = traps m
  /\ forall r, fst (Traverse._traverse (RPlain v) keys createMissing m) = Ok r ->
               exists v', r = RPlain v'.
Proof.
  revert v m. induction keys as [|key keys IH]; intros v m.
  - simpl. split; [done|]. intros r [= <-]. eauto.
  - rewrite traverse_cons. unfold bind.
    pose proof (plain_step_traps createMissing v key m) as Ht.
    unfold Heap.same_traps in Ht.
    pose proof (step_result_plain createMissing (RPlain v) key m) as Hr.
    destruct (Traverse._traverse_step createMissing (RPlain v) key m) as [[r|e|] m1];
      simpl in *; [|by split..].
    destruct (Hr r m1 eq_refl) as [v' ->].
    destruct (IH v' m1) as [IH1 IH2]. split; [|done]. congruence.
Qed.

(** Writing under an existing top-level key never reaches the proxy:
    the traversal reads the key from the target and goes on from a
    plain object. *)
Lemma setDeep_nested_no_trap (l : loc) (props : Obj.props jsval)
      (k k2 : string) (rest : list string) (v1 value : jsval) (path : string) (m : Mem) :
  cells m !! l = Some (CObj props) ->
  Obj.get k props = Some v1 ->
  Str.split "/"%char path = k :: k2 :: rest ->
  traps (snd (Traverse.setDeep (RProxy l) path value m)) = traps m.
Proof.
  intros Hl Hk Hpath. unfold Traverse.setDeep. rewrite Hpath.
  unfold Traverse.pop_last.
  change (removelast (k :: k2 :: rest)) with (k :: removelast (k2 :: rest)).
  set (keys := removelast (k2 :: rest)). set (lastKey := List.last _ _).
  cbv beta iota. unfold bind at 1.
  rewrite traverse_cons.
  assert (Hstep : Traverse._traverse_step true (RProxy l) k m = (Ok (RPlain v1), m)).
  { unfold Traverse._traverse_step, bind, Heap.read, Traverse.obj_in, Traverse.obj_get, ret.
    rewrite Hl. cbv beta iota. unfold Obj.has. rewrite Hk. cbv beta iota. simpl.
    rewrite Hl. cbv beta iota. by rewrite Hk. }
  unfold bind at 1. rewrite Hstep. cbv beta iota.
  destruct (plain_traverse keys true v1 m) as [Ht Hr].
  destruct (Traverse._traverse (RPlain v1) keys true m) as [[r|e|] m1];
    simpl in *; [|done..].
  destruct (Hr r eq_refl) as [t ->]. rewrite <- Ht.
  assert (Hfinal : preserves Heap.same_traps
            (match RPlain t with
             | RProxy l0 | RPlain (VRef l0) =>
                 (let* c := Heap.read l0 in
                  match c with
                  | CArr elems props0 =>
                      let index := Num.parseInt lastKey in
                      (if Num.ge_len index (length elems)
                       then Traverse.check_length (default 0 index) ;;
                            Traverse.push_fill (RPlain t) l0 elems props0
                              (default 0 index) VNull
                       else ret tt) ;;
                      let* c' := Heap.read l0 in
                      match c' with
                      | CArr elems' props' =>
                          Traverse.arr_set (RPlain t) l0 elems' props' index value
                      | CObj _ => throw (Unmodelled "array became an object")
                      end
                  | CObj props0 => Traverse.obj_set (RPlain t) l0 props0 lastKey value
                  end)%monad
             | RPlain VNull => throw (JsTypeError "Cannot set properties of null")
             | RPlain _ => throw (JsError "Cannot set property of non-object type")
             end)).
  { unfold Traverse.push_fill, Traverse.check_length, Traverse.obj_set, Traverse.arr_set.
    frame. }
  apply Hfinal.
Qed.

Import JsonFile.

(** On every store, a [set] with a path of two or more segments whose
    first segment exists starts no save and writes nothing to disk. *)
Lemma nested_set_starts_no_save (s : St) (i : nat) (x : JsonFile.t) (l : loc)
      (props : Obj.props jsval) (k k2 : string) (rest : list string)
      (v1 value : jsval) (path : string) :
  objects s !! i = Some x ->
  data x = Some l ->
  cells (mem s) !! l = Some (CObj props) ->
  Obj.get k props = Some v1 ->
  Str.split "/"%char path = k :: k2 :: rest ->
  pending (snd (set i path value s)) = pending s
  /\ world (snd (set i path value s)) = world s
  /\ objects (snd (set i path value s)) = objects s.
Proof.
  intros Hobj Hdata Hl Hk Hpath. unfold set, on_data, this. rewrite Hobj, Hdata.
  pose proof (setDeep_nested_no_trap l props k k2 rest v1 value path
                {| cells := cells (mem s); traps := 0 |} Hl Hk Hpath) as Ht.
  destruct (Traverse.setDeep (RProxy l) path value _) as [r m]. simpl in Ht.
  rewrite Ht. simpl. done.
Qed.

End ProxyFacts.

(** * Further properties of the store and of the facade *)

(** ** What a call of [save()] does before it returns *)

Section SaveStart.
Import JsonFile.

#[local] Instance lock_frame_preorder : PreOrder lock_frame.
Proof.
  split.
  - intros s. by repeat split.
  - intros s1 s2 s3 (?&?&?&?&?&?) (?&?&?&?&?&?). repeat split; congruence.
Qed.

Lemma lock_frame_io {A} (c : M Fs.World A) : preserves lock_frame (io c).
Proof. intros s. unfold io, zoom. by destruct (c (world s)). Qed.

Lemma lock_frame_this (i : nat) : preserves lock_frame (this i).
Proof. intros s. unfold this. by destruct (objects s !! i). Qed.

Lemma lock_frame_holder (i : nat) (h : option Z) :
  preserves lock_frame (update i (set_lockHolder h)).
Proof.
  intros s. repeat split. simpl.
  apply list_eq. intros j. rewrite !list_lookup_fmap.
  destruct (decide (i = j)) as [->|Hne].
  - rewrite list_lookup_alter_eq. by destruct (objects s !! j).
  - by rewrite list_lookup_alter_ne.
Qed.

#[local] Hint Resolve lock_frame_io lock_frame_this lock_frame_holder : frame.

Lemma lock_frame_sync (fuel : nat) (i : nat) :
  preserves lock_frame (acquireLock_sync fuel i).
Proof.
  induction fuel as [|fuel IH].
  - apply preserves_diverge. apply _.
  - simpl. frame.
Qed.

(** The object a store was is still there, with another holder at most. *)
Lemma lock_frame_lookup (s s' : St) (i : nat) (x : JsonFile.t) :
  lock_frame s s' -> objects s !! i = Some x ->
  exists h, objects s' !! i = Some (set_lockHolder h x).
Proof.
  intros (_&_&_&_&_&Hm) Hx.
  assert (Hi : map (set_lockHolder None) (objects s') !! i
               = Some (set_lockHolder None x)).
  { rewrite Hm. change (map (set_lockHolder None) (objects s))
      with (set_lockHolder None <$> objects s).
    by rewrite list_lookup_fmap, Hx. }
  change (map (set_lockHolder None) (objects s'))
    with (set_lockHolder None <$> objects s') in Hi.
  rewrite list_lookup_fmap in Hi.
  destruct (objects s' !! i) as [x'|]; [|done].
  exists (_lockHolder x'). f_equal. simpl in Hi.
  destruct x, x'. unfold set_lockHolder in *. simpl in *.
  injection Hi as -> -> -> -> -> -> -> -> -> -> -> ->. reflexivity.
Qed.

End SaveStart.

Section SaveReturns.
Import JsonFile.

Ltac ends := simpl; exact I.

Lemma env_step_sched (w : Fs.World) :
  (length (Fs.sched (Fs.env_step w)) <= length (Fs.sched w))%nat.
Proof.
  unfold Fs.env_step. destruct (Fs.sched w) as [|e rest] eqn:E.
  - by rewrite E.
  - simpl. lia.
Qed.

(** A file that appears between two steps of this process was made by
    the environment, which spent an event on it. *)
Lemma env_step_appears (w : Fs.World) (p : string) :
  Fs.files w !! p = None ->
  Fs.files (Fs.env_step w) !! p <> None ->
  (length (Fs.sched (Fs.env_step w)) < length (Fs.sched w))%nat.
Proof.
  unfold Fs.env_step. destruct (Fs.sched w) as [|e rest] eqn:E.
  - intros H1 H2. by rewrite H1 in H2.
  - intros _ _. simpl. lia.
Qed.

(** With one turn more than the environment has events, the part
    of [#acquireLock] that runs inside the call comes to an end: it
    returns, waits or throws an error of the file system. *)
Lemma acquireLock_sync_returns (fuel : nat) (i : nat) (s : St) (x : JsonFile.t) :
  (length (Fs.sched (world s)) < fuel)%nat ->
  objects s !! i = Some x ->
  covered (fst (acquireLock_sync fuel i s)).
Proof.
  revert s. induction fuel as [|fuel IH]; intros s Hlen Hobj; [lia|].
  cbn [acquireLock_sync].
  unfold bind at 1. unfold this at 1. rewrite Hobj.
  cbv beta iota zeta.
  assert (Hcreate : forall sc : St,
            Fs.files (world sc) !! _lockPath x = None ->
            (length (Fs.sched (world sc)) <= fuel)%nat ->
            objects sc !! i = Some x ->
            covered (fst ((let* outcome :=
                    try_catch
                      (io (Fs.writeFileSync_wx (_lockPath x)) ;; ret true)
                      (fun error =>
                         match error with
                         | FsError "EEXIST" => ret false
                         | _ => throw error
                         end) in
                  if (outcome : bool)
                  then let* p := gets pid in
                       update i (set_lockHolder (Some p)) ;; ret None
                  else acquireLock_sync fuel i) sc))).
  { intros sc Hnone Hsc Hx. rewrite sync_create. cbv zeta.
    destruct (Fs.files (Fs.env_step (world sc)) !! _lockPath x) eqn:Ef.
    - apply IH; [|done]. simpl.
      pose proof (env_step_appears (world sc) (_lockPath x) Hnone) as Hlt.
      rewrite Ef in Hlt. specialize (Hlt ltac:(done)). lia.
    - ends. }
  assert (Henter :
            covered (fst ((let* start := io Fs.Date_now in
                  let* locked := io (Fs.existsSync (_lockPath x)) in
                  if (locked : bool) then
                    let* stats := io (Fs.statSync (_lockPath x)) in
                    let* t1 := io Fs.Date_now in
                    let lockAge := t1 - Fs.ctimeMs stats in
                    if lockAge >? lockMaxAge x * 1000 then
                      io (Fs.unlinkSync (_lockPath x)) ;;
                      (let* outcome :=
                         try_catch
                           (io (Fs.writeFileSync_wx (_lockPath x)) ;; ret true)
                           (fun error =>
                              match error with
                              | FsError "EEXIST" => ret false
                              | _ => throw error
                              end) in
                       if (outcome : bool)
                       then let* p := gets pid in
                            update i (set_lockHolder (Some p)) ;; ret None
                       else acquireLock_sync fuel i)
                    else ret (Some start)
                  else
                    (let* outcome :=
                       try_catch
                         (io (Fs.writeFileSync_wx (_lockPath x)) ;; ret true)
                         (fun error =>
                            match error with
                            | FsError "EEXIST" => ret false
                            | _ => throw error
                            end) in
                     if (outcome : bool)
                     then let* p := gets pid in
                          update i (set_lockHolder (Some p)) ;; ret None
                     else acquireLock_sync fuel i)) s))).
  { pose proof (env_step_sched (world s)) as L1.
    set (w1 := Fs.env_step (world s)) in *.
    pose proof (env_step_sched w1) as L2.
    set (w2 := Fs.env_step w1) in *.
    unfold bind at 1.
    change (io Fs.Date_now s) with (Ok (Fs.now w1), set_world w1 s).
    cbv beta iota.
    unfold bind at 1.
    change (io (Fs.existsSync (_lockPath x)) (set_world w1 s))
      with (Ok (match Fs.files w2 !! _lockPath x with Some _ => true | None => false end),
            set_world w2 (set_world w1 s)).
    cbv beta iota.
    destruct (Fs.files w2 !! _lockPath x) as [f|] eqn:Ef.
    - pose proof (env_step_sched w2) as L3.
      set (w3 := Fs.env_step w2) in *.
      unfold bind at 1.
      assert (E3 : io (Fs.statSync (_lockPath x)) (set_world w2 (set_world w1 s))
                   = (match Fs.files w3 !! _lockPath x with
                      | Some st => Ok st
                      | None => Throw (FsError "ENOENT")
                      end, set_world w3 (set_world w2 (set_world w1 s)))).
      { unfold io, zoom, Fs.statSync, bind, Fs.env, modify, gets, ret, throw. simpl.
        fold w1 w2 w3. by destruct (Fs.files w3 !! _lockPath x). }
      rewrite E3. destruct (Fs.files w3 !! _lockPath x) as [st|]; [|ends].
      cbv beta iota.
      pose proof (env_step_sched w3) as L4.
      set (w4 := Fs.env_step w3) in *.
      unfold bind at 1.
      change (io Fs.Date_now (set_world w3 (set_world w2 (set_world w1 s))))
        with (Ok (Fs.now w4), set_world w4 (set_world w3 (set_world w2 (set_world w1 s)))).
      cbv beta iota zeta.
      destruct (Fs.now w4 - Fs.ctimeMs st >? lockMaxAge x * 1000); [|ends].
      pose proof (env_step_sched w4) as L5.
      set (w5 := Fs.env_step w4) in *.
      unfold bind at 1.
      assert (E5 : io (Fs.unlinkSync (_lockPath x))
                      (set_world w4 (set_world w3 (set_world w2 (set_world w1 s))))
                   = (match Fs.files w5 !! _lockPath x with
                      | Some _ => Ok tt
                      | None => Throw (FsError "ENOENT")
                      end,
                      set_world
                        (match Fs.files w5 !! _lockPath x with
                         | Some _ => Fs.log (Fs.IoUnlink (_lockPath x))
                                       (Fs.set_files (delete (_lockPath x) (Fs.files w5)) w5)
                         | None => w5
                         end)
                        (set_world w4 (set_world w3 (set_world w2 (set_world w1 s)))))).
      { unfold io, zoom, Fs.unlinkSync, bind, Fs.env, modify, gets, ret, throw. simpl.
        fold w1 w2 w3 w4 w5. by destruct (Fs.files w5 !! _lockPath x). }
      rewrite E5. destruct (Fs.files w5 !! _lockPath x) as [st5|]; [|ends].
      cbv beta iota.
      apply Hcreate.
      + simpl. apply lookup_delete_eq.
      + simpl. lia.
      + done.
    - apply Hcreate.
      + simpl. exact Ef.
      + simpl. lia.
      + done. }
  unfold bind at 1. unfold gets at 1. cbv beta iota.
  destruct (_lockHolder x) as [h|]; [destruct (h =? pid s)|]; [ends| |];
    exact Henter.
Qed.

(** Outside batch mode a call of [save()] always returns, and it
    leaves exactly one started save behind, whatever the file system
    does; besides the files it changes the holder of the lock at
    most. *)
Lemma save_starts (s : St) (i : nat) (x : JsonFile.t) :
  objects s !! i = Some x ->
  _batchMode x = false ->
  exists pc s1,
    save i s = (Ok tt, set_pending (pending s ++ [(i, pc)]) s1)
    /\ lock_frame s s1.
Proof.
  intros Hobj Hb. unfold save. unfold bind at 1. unfold this at 1. rewrite Hobj.
  cbv beta iota. rewrite Hb. unfold bind at 1. unfold gets at 1. cbv beta iota.
  pose proof (acquireLock_sync_returns (S (length (Fs.sched (world s)))) i s x
                ltac:(lia) Hobj) as Hc.
  pose proof (lock_frame_sync (S (length (Fs.sched (world s)))) i s) as Hf.
  unfold bind at 1. unfold try_catch. unfold bind at 1.
  destruct (acquireLock_sync (S (length (Fs.sched (world s)))) i s)
    as [[waits|e|] s1]; simpl in Hc, Hf.
  - unfold ret at 1. cbv beta iota. unfold modify.
    destruct Hf as (Hm&Hp&Hi&Hq&Hh&Ho). rewrite Hq.
    eexists _, s1. split; [reflexivity|]. by repeat split.
  - destruct e; try done;
      unfold ret at 1; cbv beta iota; unfold modify;
      destruct Hf as (Hm&Hp&Hi&Hq&Hh&Ho); rewrite Hq;
      (eexists _, s1; split; [reflexivity|by repeat split]).
  - done.
Qed.

End SaveReturns.

Section SaveLocks.
Import JsonFile.

(** [#acquireLock] inside the call when the sentinel is free: it runs
    to its end. *)
Lemma sync_free (fuel : nat) (i : nat) (s : St) (x : JsonFile.t) :
  objects s !! i = Some x ->
  _lockHolder x <> Some (pid s) ->
  Fs.quiet (world s) ->
  Fs.files (world s) !! _lockPath x = None ->
  exists w,
    acquireLock_sync (S fuel) i s
    = (Ok None, set_objects (alter (set_lockHolder (Some (pid s))) i (objects s))
                  (set_world w s))
    /\ Fs.quiet w
    /\ Fs.files w = <[_lockPath x := Fs.touch (Fs.now w) Fs.Garbage]> (Fs.files (world s))
    /\ Fs.trace w = Fs.trace (world s) ++ [Fs.IoCreate (_lockPath x)]
    /\ Fs.now (world s) <= Fs.now w.
Proof.
  intros Hobj Hholder Hq Hf.
  destruct (step_Date_now s Hq) as (w1 & E1 & Hq1 & Hfs1 & Htr1 & Hn1).
  destruct (step_existsSync (_lockPath x) (set_world w1 s) Hq1)
    as (w2 & E2 & Hq2 & Hfs2 & Htr2 & Hn2).
  simpl in Hfs2, Htr2, Hn2. cbn [world set_world] in E2. rewrite Hfs1, Hf in E2.
  pose proof (env_step_quiet w2 Hq2) as (Hq3 & Hfs3 & Htr3 & Hn3).
  exists (Fs.log (Fs.IoCreate (_lockPath x))
            (Fs.set_files (<[_lockPath x := Fs.touch (Fs.now (Fs.env_step w2)) Fs.Garbage]>
                             (Fs.files (Fs.env_step w2))) (Fs.env_step w2))).
  split; [|split_and!].
  - cbn [acquireLock_sync].
    unfold bind at 1. unfold this at 1. rewrite Hobj. cbv beta iota zeta.
    unfold bind at 1. unfold gets at 1. cbv beta iota.
    assert (Hpick : forall A (k1 k2 : M St A),
              match _lockHolder x with
              | Some h' => if h' =? pid s then k1 else k2
              | None => k2
              end = k2).
    { intros A k1 k2. destruct (_lockHolder x) as [h'|]; [|done].
      destruct (Z.eqb_spec h' (pid s)) as [->|]; done. }
    rewrite Hpick.
    unfold bind at 1. rewrite E1. cbv beta iota.
    unfold bind at 1. rewrite E2. cbv beta iota.
    rewrite sync_create. cbv zeta. cbn [world set_world].
    rewrite Hfs3, Hfs2, Hfs1, Hf.
    unfold bind, gets, update, modify, ret. cbv beta iota. reflexivity.
  - by apply Forall_impl with (P := fun e => Fs.ev_act e = Fs.Nop).
  - simpl. by rewrite Hfs3, Hfs2, Hfs1.
  - simpl. by rewrite Htr3, Htr2, Htr1.
  - simpl. lia.
Qed.

(** A call of [save()] when the sentinel is free takes the lock before
    it returns. *)
Lemma save_free (s : St) (i : nat) (x : JsonFile.t) :
  objects s !! i = Some x ->
  _batchMode x = false ->
  _lockHolder x <> Some (pid s) ->
  Fs.quiet (world s) ->
  Fs.files (world s) !! _lockPath x = None ->
  exists w,
    save i s
    = (Ok tt, set_pending (pending s ++ [(i, SaveLocked)])
                (set_objects (alter (set_lockHolder (Some (pid s))) i (objects s))
                   (set_world w s)))
    /\ Fs.quiet w
    /\ Fs.files w = <[_lockPath x := Fs.touch (Fs.now w) Fs.Garbage]> (Fs.files (world s))
    /\ Fs.trace w = Fs.trace (world s) ++ [Fs.IoCreate (_lockPath x)]
    /\ Fs.now (world s) <= Fs.now w.
Proof.
  intros Hobj Hb Hholder Hq Hf.
  destruct (sync_free (length (Fs.sched (world s))) i s x Hobj Hholder Hq Hf)
    as (w & E & Hw).
  exists w. split; [|exact Hw].
  unfold save. unfold bind at 1. unfold this at 1. rewrite Hobj.
  cbv beta iota. rewrite Hb. unfold bind at 1. unfold gets at 1. cbv beta iota.
  unfold bind at 1. unfold try_catch. unfold bind at 1. rewrite E. reflexivity.
Qed.

End SaveLocks.

Section SaveSplit.
Import JsonFile.

(** [#acquireLock] as a whole does what its part inside the call
    does, and goes on from the [await] where that part stops. *)
Lemma acquireLock_split (turns : nat) (i : nat) (x : JsonFile.t) :
  forall (s s1 : St) (r : res (option Z)),
    objects s !! i = Some x ->
    acquireLock_sync turns i s = (r, s1) ->
    r <> Diverge ->
    exists k, forall fuel,
      acquireLock (k + fuel) i s
      = match r with
        | Ok None => (Ok tt, s1)
        | Ok (Some start) => acquireLock_resume fuel start i s1
        | Throw e => (Throw e, s1)
        | Diverge => (Diverge, s1)
        end.
Proof.
  unfold acquireLock.
  induction turns as [|turns IH]; intros s s1 r Hobj Hs Hr.
  { injection Hs as <- <-. done. }
  cbn [acquireLock_sync] in Hs.
  rewrite (run_this i _ s x Hobj) in Hs. cbv zeta in Hs.
  unfold bind at 1 in Hs. unfold gets at 1 in Hs. cbv beta iota in Hs.
  (* the creation of the sentinel, on both sides *)
  assert (Hcreate : forall sc : St,
            objects sc = objects s -> pid sc = pid s ->
            forall r s1,
              (let* outcome :=
                 try_catch
                   (io (Fs.writeFileSync_wx (_lockPath x)) ;; ret true)
                   (fun error =>
                      match error with
                      | FsError "EEXIST" => ret false
                      | _ => throw error
                      end) in
               if (outcome : bool)
               then let* p := gets pid in
                    update i (set_lockHolder (Some p)) ;; ret None
               else acquireLock_sync turns i) sc = (r, s1) ->
              r <> Diverge ->
              exists k, forall fuel,
                (let* outcome :=
                   try_catch
                     (io (Fs.writeFileSync_wx (_lockPath x)) ;; ret true)
                     (fun error =>
                        match error with
                        | FsError "EEXIST" => ret false
                        | _ => throw error
                        end) in
                 if (outcome : bool)
                 then let* p := gets pid in update i (set_lockHolder (Some p))
                 else acquireLock_from (k + fuel) LockEnter i) sc
                = match r with
                  | Ok None => (Ok tt, s1)
                  | Ok (Some start) => acquireLock_resume fuel start i s1
                  | Throw e => (Throw e, s1)
                  | Diverge => (Diverge, s1)
                  end).
  { intros sc Ho Hp r' s1' Hc Hr'. rewrite sync_create in Hc. cbv zeta in Hc.
    destruct (Fs.files (Fs.env_step (world sc)) !! _lockPath x) eqn:Ef.
    - destruct (IH (set_world (Fs.env_step (world sc)) sc) s1' r') as (k & Hk);
        [simpl; by rewrite Ho|exact Hc|exact Hr'|].
      exists k. intros fuel. rewrite sync_create. cbv zeta. rewrite Ef. apply Hk.
    - exists 0%nat. intros fuel. rewrite sync_create. cbv zeta. rewrite Ef.
      unfold bind, gets, update, modify, ret in Hc |- *. cbv beta iota in Hc |- *.
      injection Hc as <- <-. reflexivity. }
  assert (Henter : forall r s1,
            (let* start := io Fs.Date_now in
             let* locked := io (Fs.existsSync (_lockPath x)) in
             if (locked : bool) then
               let* stats := io (Fs.statSync (_lockPath x)) in
               let* t1 := io Fs.Date_now in
               let lockAge := t1 - Fs.ctimeMs stats in
               if lockAge >? lockMaxAge x * 1000 then
                 io (Fs.unlinkSync (_lockPath x)) ;;
                 (let* outcome :=
                    try_catch
                      (io (Fs.writeFileSync_wx (_lockPath x)) ;; ret true)
                      (fun error =>
                         match error with
                         | FsError "EEXIST" => ret false
                         | _ => throw error
                         end) in
                  if (outcome : bool)
                  then let* p := gets pid in
                       update i (set_lockHolder (Some p)) ;; ret None
                  else acquireLock_sync turns i)
               else ret (Some start)
             else
               (let* outcome :=
                  try_catch
                    (io (Fs.writeFileSync_wx (_lockPath x)) ;; ret true)
                    (fun error =>
                       match error with
                       | FsError "EEXIST" => ret false
                       | _ => throw error
                       end) in
                if (outcome : bool)
                then let* p := gets pid in
                     update i (set_lockHolder (Some p)) ;; ret None
                else acquireLock_sync turns i)) s = (r, s1) ->
            r <> Diverge ->
            exists k, forall fuel,
              (let* start := io Fs.Date_now in
               acquireLock_from (S (k + fuel)) (LockLoop start) i) s
              = match r with
                | Ok None => (Ok tt, s1)
                | Ok (Some start) => acquireLock_resume fuel start i s1
                | Throw e => (Throw e, s1)
                | Diverge => (Diverge, s1)
                end).
  { intros r' s1' He Hr'.
    rewrite run_Date_now, run_existsSync in He.
    destruct (Fs.files (Fs.env_step (world (set_world (Fs.env_step (world s)) s)))
              !! _lockPath x) as [f|] eqn:Ef.
    - rewrite run_statSync in He.
      destruct (Fs.files _ !! _lockPath x) as [st|] eqn:Est in He.
      + rewrite run_Date_now in He. cbv zeta in He.
        destruct (_ >? lockMaxAge x * 1000) eqn:Estale in He.
        * rewrite run_unlinkSync in He. cbv zeta in He.
          destruct (Fs.files _ !! _lockPath x) as [st5|] eqn:E5 in He.
          -- edestruct Hcreate as (k & Hk); [ | |exact He|exact Hr'|];
               [reflexivity|reflexivity|].
             exists k. intros fuel. rewrite run_Date_now, acquireLock_from_eq.
             rewrite (run_this i _ _ x) by done. cbv zeta.
             rewrite run_existsSync, Ef, run_statSync, Est, run_Date_now.
             cbv zeta. rewrite Estale, run_unlinkSync. cbv zeta. rewrite E5.
             apply Hk.
          -- exists 0%nat. intros fuel. rewrite run_Date_now, acquireLock_from_eq.
             rewrite (run_this i _ _ x) by done. cbv zeta.
             rewrite run_existsSync, Ef, run_statSync, Est, run_Date_now.
             cbv zeta. rewrite Estale, run_unlinkSync. cbv zeta. rewrite E5.
             injection He as <- <-. reflexivity.
        * exists 0%nat. intros fuel. rewrite run_Date_now, acquireLock_from_eq.
          rewrite (run_this i _ _ x) by done. cbv zeta.
          rewrite run_existsSync, Ef, run_statSync, Est, run_Date_now.
          cbv zeta. rewrite Estale.
          injection He as <- <-. unfold acquireLock_resume.
          rewrite (run_this i _ _ x) by done. reflexivity.
      + exists 0%nat. intros fuel. rewrite run_Date_now, acquireLock_from_eq.
        rewrite (run_this i _ _ x) by done. cbv zeta.
        rewrite run_existsSync, Ef, run_statSync, Est.
        injection He as <- <-. reflexivity.
    - edestruct Hcreate as (k & Hk); [ | |exact He|exact Hr'|];
        [reflexivity|reflexivity|].
      exists k. intros fuel. rewrite run_Date_now, acquireLock_from_eq.
      rewrite (run_this i _ _ x) by done. cbv zeta.
      rewrite run_existsSync, Ef. apply Hk. }
  assert (Hgo : (exists k, forall fuel,
                    (let* start := io Fs.Date_now in
                     acquireLock_from (S (k + fuel)) (LockLoop start) i) s
                    = match r with
                      | Ok None => (Ok tt, s1)
                      | Ok (Some start) => acquireLock_resume fuel start i s1
                      | Throw e => (Throw e, s1)
                      | Diverge => (Diverge, s1)
                      end) ->
                 _lockHolder x <> Some (pid s) ->
                 exists k, forall fuel,
                   acquireLock_from (k + fuel) LockEnter i s
                   = match r with
                     | Ok None => (Ok tt, s1)
                     | Ok (Some start) => acquireLock_resume fuel start i s1
                     | Throw e => (Throw e, s1)
                     | Diverge => (Diverge, s1)
                     end).
  { intros (k & Hk) Hh. exists (S (S k)). intros fuel.
    change (S (S k) + fuel)%nat with (S (S (k + fuel))).
    rewrite acquireLock_from_eq. rewrite (run_this i _ _ x) by done. cbv zeta.
    unfold bind at 1. unfold gets at 1. cbv beta iota.
    destruct (_lockHolder x) as [h|].
    - destruct (Z.eqb_spec h (pid s)) as [Heq|_]; [by rewrite Heq in Hh|]. apply Hk.
    - apply Hk. }
  destruct (_lockHolder x) as [h|] eqn:Eh.
  - destruct (Z.eqb_spec h (pid s)) as [Heq|Hne].
    + exists 1%nat. intros fuel. change (1 + fuel)%nat with (S fuel).
      rewrite acquireLock_from_eq. rewrite (run_this i _ _ x) by done. cbv zeta.
      unfold bind at 1. unfold gets at 1. cbv beta iota.
      rewrite Eh, Heq, Z.eqb_refl.
      injection Hs as <- <-. reflexivity.
    + apply Hgo; [|congruence]. by apply Henter.
  - apply Hgo; [|done]. by apply Henter.
Qed.

End SaveSplit.

(** ** One-segment paths on an object document *)

Section TopLevel.
Import JsonFile.

Lemma pop_last_single (k : string) :
  Str.mem "/" k = false -> Traverse.pop_last (Str.split "/"%char k) = ([], k).
Proof. intros H. by rewrite split_no_sep. Qed.

Lemma setDeep_top (l : loc) (props : Obj.props jsval) (k : string) (v : jsval) (m : Mem) :
  cells m !! l = Some (CObj props) ->
  Str.mem "/" k = false ->
  Obj.has k props = true \/ k <> "__proto__" ->
  Traverse.setDeep (RProxy l) k v m
  = (Ok tt, {| cells := <[l := CObj (Obj.set k v props)]> (cells m);
               traps := traps m + 1 |}).
Proof.
  intros Hl Hk Hp. unfold Traverse.setDeep. rewrite pop_last_single by done.
  simpl. unfold bind, ret, Heap.read. rewrite Hl. unfold Traverse.obj_set.
  assert (negb (Obj.has k props) && String.eqb k "__proto__" = false) as ->.
  { destruct Hp as [-> | Hne]; [done|].
    apply String.eqb_neq in Hne. rewrite Hne. apply andb_false_r. }
  reflexivity.
Qed.

Lemma getDeep_top (l : loc) (props : Obj.props jsval) (k : string) (m : Mem) :
  cells m !! l = Some (CObj props) ->
  Str.mem "/" k = false ->
  Traverse.getDeep (RProxy l) k m
  = (match Obj.get k props with
     | Some v => Ok v
     | None => if Obj.inherited k then Throw (Unmodelled "inherited property")
               else Ok VUndef
     end, m).
Proof.
  intros Hl Hk. unfold Traverse.getDeep. rewrite split_no_sep by done.
  simpl. unfold bind, ret, Heap.read. rewrite Hl. simpl. rewrite Hl.
  unfold Traverse.obj_get. destruct (Obj.get k props); [done|].
  by destruct (Obj.inherited k).
Qed.

Lemma on_data_eq {A} (i : nat) (c : ref -> M Mem A) (s : St) (x : JsonFile.t) :
  objects s !! i = Some x ->
  on_data i c s
  = let target := match data x with Some l => RProxy l | None => RPlain VUndef end in
    let '(r, m) := c target {| cells := cells (mem s); traps := 0 |} in
    match repeatM (traps m) (trap_handler i) (set_mem m s) with
    | (Ok _, s') => (r, s')
    | (Throw e, s') => (Throw e, s')
    | (Diverge, s') => (Diverge, s')
    end.
Proof. intros H. unfold on_data, this. by rewrite H. Qed.

(** What a one-segment [set] leaves behind. *)
Lemma set_top (s : St) (i : nat) (x : JsonFile.t) (l : loc)
      (props : Obj.props jsval) (k : string) (v : jsval) :
  objects s !! i = Some x ->
  data x = Some l ->
  cells (mem s) !! l = Some (CObj props) ->
  Str.mem "/" k = false ->
  Obj.has k props = true \/ k <> "__proto__" ->
  set i k v s
  = let s1 := set_mem {| cells := <[l := CObj (Obj.set k v props)]> (cells (mem s));
                         traps := 1 |} s in
    if _batchMode x
    then (Ok tt, set_objects (alter (set_queuedSave true) i (objects s)) s1)
    else save i s1.
Proof.
  intros Hobj Hdata Hl Hk Hp. unfold set. rewrite (on_data_eq _ _ _ x) by done.
  rewrite Hdata. cbv zeta. rewrite (setDeep_top l props) by done.
  cbn [traps Nat.add repeatM]. unfold bind at 1, trap_handler.
  unfold bind at 1, this at 1. cbn [objects set_mem]. rewrite Hobj.
  destruct (_batchMode x) eqn:Hb; cbn [negb].
  - reflexivity.
  - by destruct (save i _) as [[[]|e|] s'].
Qed.

End TopLevel.

(** ** Reading *)

Section ReadFacts.
Import JsonFile.

Lemma read_only_step (curr : ref) (key : string) :
  preserves eq (Traverse._traverse_step false curr key).
Proof.
  assert (Hloc : forall l m,
            snd ((let* c := Heap.read l in
                  match c with
                  | CArr elems props =>
                      ret tt ;;
                      let* c' := Heap.read l in
                      match c' with
                      | CArr elems' props' =>
                          ret (RPlain (Traverse.arr_get elems' props' (Num.parseInt key)))
                      | CObj _ => throw (Unmodelled "array became an object")
                      end
                  | CObj props =>
                      let* present := ret true in
                      (if negb present
                       then
                         let* fresh := Heap.new (CObj []) in
                         Traverse.obj_set curr l props key fresh
                       else ret tt) ;;
                      let* c' := Heap.read l in
                      match c' with
                      | CObj props' =>
                          let* v := Traverse.obj_get props' key in ret (RPlain v)
                      | CArr _ _ => throw (Unmodelled "object became an array")
                      end
                  end)%monad m) = m).
  { intros l m. unfold bind, ret, Heap.read.
    destruct (cells m !! l) as [[props|elems props]|] eqn:E; cbn; rewrite ?E; cbn; [|done..].
    unfold Traverse.obj_get. destruct (Obj.get key props); [done|].
    by destruct (Obj.inherited key). }
  intros m. unfold Traverse._traverse_step.
  destruct curr as [l|[| | | | |l]]; try done; symmetry; apply Hloc.
Qed.

Lemma read_only_traverse (keys : list string) (curr : ref) :
  preserves eq (Traverse._traverse curr keys false).
Proof.
  revert curr. induction keys as [|key keys IH]; intros curr.
  - apply preserves_ret. apply _.
  - rewrite traverse_cons. apply preserves_bind; [apply _|apply read_only_step|done].
Qed.

Lemma read_only_getDeep (obj : ref) (path : string) :
  preserves eq (Traverse.getDeep obj path).
Proof.
  unfold Traverse.getDeep. cbv zeta.
  apply preserves_bind; [apply _|apply read_only_traverse|].
  intros r. apply preserves_ret. apply _.
Qed.

(** A traversal that changes nothing sets off no trap handler. *)
Lemma on_data_read_only {A} (i : nat) (c : ref -> M Mem A) (s : St) :
  (forall t, preserves eq (c t)) ->
  snd (on_data i c s) = s
  \/ snd (on_data i c s) = set_mem {| cells := cells (mem s); traps := 0 |} s.
Proof.
  intros Hc. unfold on_data, this. destruct (objects s !! i) as [x|]; [|by left].
  right. set (target := match data x with Some l => RProxy l | None => RPlain VUndef end).
  pose proof (Hc target {| cells := cells (mem s); traps := 0 |}) as Hm.
  destruct (c target _) as [r m]. simpl in Hm. subst m. reflexivity.
Qed.

End ReadFacts.

(** X1: reading never writes. On every store and for every path and
    default value, [get] leaves the file system, the document, the store
    objects and the registry as they were, and starts no save. *)
Theorem get_changes_nothing (i : nat) (key : string) (d : jsval) (s : JsonFile.St) :
  let s' := snd (JsonFile.get i key d s) in
  JsonFile.world s' = JsonFile.world s
  /\ cells (JsonFile.mem s') = cells (JsonFile.mem s)
  /\ JsonFile.objects s' = JsonFile.objects s
  /\ JsonFile._instances s' = JsonFile._instances s
  /\ JsonFile.pending s' = JsonFile.pending s
  /\ JsonFile.unhandled s' = JsonFile.unhandled s.
Proof.
  cbv zeta. unfold JsonFile.get, try_catch.
  pose proof (on_data_read_only i (fun t => Traverse.getDeep t key) s
                (fun t => read_only_getDeep t key)) as H.
  destruct (JsonFile.on_data i _ s) as [[v|e|] s1]; simpl in H.
  1,3: destruct H as [-> | ->]; done.
  destruct e; simpl; destruct H as [-> | ->]; done.
Qed.

(** ** Properties of one object *)

Section ObjLookup.
Context {V : Type}.
Implicit Types o : Obj.props V.

Lemma obj_get_set_eq k (v : V) o : Obj.get k (Obj.set k v o) = Some v.
Proof.
  induction o as [|[k' v'] o IH]; simpl.
  - by rewrite String.eqb_refl.
  - destruct (String.eqb_spec k k') as [->|Hne]; simpl.
    + by rewrite String.eqb_refl.
    + by rewrite (proj2 (String.eqb_neq _ _) Hne).
Qed.

Lemma obj_get_set_ne k k' (v : V) o :
  k <> k' -> Obj.get k (Obj.set k' v o) = Obj.get k o.
Proof.
  intros Hne. induction o as [|[k0 v0] o IH]; simpl.
  - by rewrite (proj2 (String.eqb_neq _ _) Hne).
  - destruct (String.eqb_spec k' k0) as [->|Hne0]; simpl.
    + by rewrite (proj2 (String.eqb_neq _ _) Hne).
    + by rewrite IH.
Qed.

Lemma obj_get_none k o : Obj.get k o = None <-> k ∉ map fst o.
Proof.
  induction o as [|[k' v'] o IH]; simpl.
  - split; [intros _; apply not_elem_of_nil|done].
  - destruct (String.eqb_spec k k') as [->|Hne].
    + split; [done|]. intros H. exfalso. apply H. by left.
    + rewrite IH. rewrite not_elem_of_cons. tauto.
Qed.

Lemma obj_get_remove_eq k o :
  NoDup (map fst o) -> Obj.get k (Obj.remove k o) = None.
Proof.
  induction o as [|[k' v'] o IH]; simpl; [done|].
  intros [Hk Hnd]%NoDup_cons.
  destruct (String.eqb_spec k k') as [->|Hne]; simpl.
  - by apply obj_get_none.
  - rewrite (proj2 (String.eqb_neq _ _) Hne). by apply IH.
Qed.

Lemma obj_get_remove_ne k k' o :
  k <> k' -> Obj.get k (Obj.remove k' o) = Obj.get k o.
Proof.
  intros Hne. induction o as [|[k0 v0] o IH]; simpl; [done|].
  destruct (String.eqb_spec k' k0) as [->|Hne0]; simpl.
  - by rewrite (proj2 (String.eqb_neq _ _) Hne).
  - by rewrite IH.
Qed.

Lemma obj_has_get k o : Obj.has k o = bool_decide (is_Some (Obj.get k o)).
Proof.
  unfold Obj.has. destruct (Obj.get k o).
  - by rewrite bool_decide_eq_true_2.
  - rewrite bool_decide_eq_false_2; [done|]. by intros [? ?].
Qed.

End ObjLookup.

Lemma inherited_proto : Obj.inherited "__proto__" = true.
Proof. reflexivity. Qed.

Lemma not_inherited_not_proto (k : string) : Obj.inherited k = false -> k <> "__proto__".
Proof. intros H ->. by rewrite inherited_proto in H. Qed.

Section TopLevelOps.
Import JsonFile.

Lemma get_top (s : St) (i : nat) (x : JsonFile.t) (l : loc)
      (props : Obj.props jsval) (k : string) (d : jsval) :
  objects s !! i = Some x ->
  data x = Some l ->
  cells (mem s) !! l = Some (CObj props) ->
  Str.mem "/" k = false ->
  Obj.inherited k = false \/ Obj.has k props = true ->
  get i k d s
  = (Ok (default VUndef (Obj.get k props)),
     set_mem {| cells := cells (mem s); traps := 0 |} s).
Proof.
  intros Hobj Hdata Hl Hk Hin. unfold get, try_catch.
  rewrite (on_data_eq _ _ _ x) by done. rewrite Hdata. cbv zeta.
  rewrite (getDeep_top l props) by done. cbn [traps repeatM ret].
  unfold Obj.has in Hin. destruct (Obj.get k props) as [v|]; [done|].
  destruct Hin as [-> | ?]; done.
Qed.

Lemma cell_after_write (cs : list cell) (l : loc) (c c' : cell) :
  cs !! l = Some c -> <[l := c']> cs !! l = Some c'.
Proof. intros H. apply list_lookup_insert_eq. by eapply lookup_lt_Some. Qed.

End TopLevelOps.

(** X2: the default value of [get] is used only when the traversal
    fails.  On an object document, a one-segment path whose key is
    absent yields [undefined] whatever default was passed, while a longer
    path whose first key is absent yields the default (and [null] when
    none was passed). *)
Theorem get_missing_key (s : JsonFile.St) (i : nat) (x : JsonFile.t) (l : loc)
        (props : Obj.props jsval) (k1 : string) (d : jsval) :
  JsonFile.objects s !! i = Some x ->
  JsonFile.data x = Some l ->
  cells (JsonFile.mem s) !! l = Some (CObj props) ->
  Obj.get k1 props = None ->
  Obj.inherited k1 = false ->
  (forall path, Str.split "/"%char path = [k1] ->
                fst (JsonFile.get i path d s) = Ok VUndef)
  /\ (forall path k2 rest, Str.split "/"%char path = k1 :: k2 :: rest ->
                fst (JsonFile.get i path d s) = Ok (JsonFile.or_null d)).
Proof.
  intros Hobj Hdata Hl Hk Hin.
  assert (Hstep : forall m, cells m = cells (JsonFile.mem s) ->
            Traverse._traverse_step false (RProxy l) k1 m = (Ok (RPlain VUndef), m)).
  { intros m Hm. unfold Traverse._traverse_step, bind, ret, Heap.read.
    rewrite Hm, Hl. cbn. rewrite Hm, Hl. cbn. unfold Traverse.obj_get.
    by rewrite Hk, Hin. }
  split.
  - intros path Hpath. unfold JsonFile.get, try_catch.
    rewrite (on_data_eq _ _ _ x) by done. rewrite Hdata. cbv zeta.
    unfold Traverse.getDeep. rewrite Hpath. cbv zeta.
    unfold bind at 1. rewrite traverse_cons. unfold bind at 1.
    rewrite Hstep by done. reflexivity.
  - intros path k2 rest Hpath. unfold JsonFile.get, try_catch.
    rewrite (on_data_eq _ _ _ x) by done. rewrite Hdata. cbv zeta.
    unfold Traverse.getDeep. rewrite Hpath. cbv zeta.
    unfold bind at 1. rewrite traverse_cons. unfold bind at 1.
    rewrite Hstep by done. reflexivity.
Qed.

(** The store on [{"theme": "dark"}]: [get("font", "fallback")] and
    [get("font/size", "fallback")]. *)
Lemma get_missing_key_witness :
  fst (JsonFile.get 0 "font" (VStr "fallback") Scenario.theme_store) = Ok VUndef
  /\ fst (JsonFile.get 0 "font/size" (VStr "fallback") Scenario.theme_store)
     = Ok (VStr "fallback").
Proof.
  edestruct (get_missing_key Scenario.theme_store 0) with (k1 := "font")
    (d := VStr "fallback") as [H1 H2].
  - vm_compute. reflexivity.
  - vm_compute. reflexivity.
  - vm_compute. reflexivity.
  - vm_compute. reflexivity.
  - vm_compute. reflexivity.
  - split.
    + apply H1. reflexivity.
    + apply (H2 "font/size" "size" []). reflexivity.
Defined.

(** X3: with batch mode off, a [set] on a one-segment path of an object
    document starts exactly one save, and the value is read back by
    [get] on the same path.  [save] takes the lock inside the call: with
    the lock free and no other process at work, the sentinel is on
    disk and the store is its holder when [set] returns, and the
    backing file has not been written yet. *)
Theorem set_then_get_top_level (s : JsonFile.St) (i : nat) (x : JsonFile.t) (l : loc)
        (props : Obj.props jsval) (k : string) (v : jsval) :
  JsonFile.objects s !! i = Some x ->
  JsonFile.data x = Some l ->
  JsonFile._batchMode x = false ->
  cells (JsonFile.mem s) !! l = Some (CObj props) ->
  Str.mem "/" k = false ->
  k <> "__proto__" ->
  exists s1 pc,
    JsonFile.set i k v s = (Ok tt, s1)
    /\ JsonFile.pending s1 = JsonFile.pending s ++ [(i, pc)]
    /\ (forall d, fst (JsonFile.get i k d s1) = Ok v)
    /\ (Fs.quiet (JsonFile.world s) ->
        JsonFile._lockHolder x = None ->
        Fs.files (JsonFile.world s) !! JsonFile._lockPath x = None ->
        pc = JsonFile.SaveLocked
        /\ JsonFile.objects s1 !! i
           = Some (JsonFile.set_lockHolder (Some (JsonFile.pid s)) x)
        /\ Fs.files (JsonFile.world s1)
           = <[JsonFile._lockPath x :=
                 Fs.touch (Fs.now (JsonFile.world s1)) Fs.Garbage]>
               (Fs.files (JsonFile.world s))
        /\ Fs.trace (JsonFile.world s1)
           = Fs.trace (JsonFile.world s) ++ [Fs.IoCreate (JsonFile._lockPath x)]).
Proof.
  intros Hobj Hdata Hbatch Hl Hk Hp.
  pose proof (set_top s i x l props k v Hobj Hdata Hl Hk (or_intror Hp)) as Hset.
  cbv zeta in Hset. rewrite Hbatch in Hset.
  remember (JsonFile.set_mem
              {| cells := <[l := CObj (Obj.set k v props)]> (cells (JsonFile.mem s));
                 traps := 1 |} s) as s0 eqn:Hs0.
  assert (Hobj0 : JsonFile.objects s0 !! i = Some x) by (by subst s0).
  destruct (save_starts s0 i x Hobj0 Hbatch) as (pc & s2 & Hsave & Hframe).
  pose proof Hframe as (Hm & _ & _ & Hq & _ & _).
  destruct (lock_frame_lookup s0 s2 i x Hframe Hobj0) as (h & Hx2).
  eexists _, pc. split; [by rewrite Hset, Hsave|]. split_and!.
  - simpl. by subst s0.
  - intros d.
    rewrite (get_top _ i (JsonFile.set_lockHolder h x) l (Obj.set k v props));
      simpl; try done.
    + by rewrite obj_get_set_eq.
    + rewrite Hm. subst s0. simpl. by eapply cell_after_write.
    + right. unfold Obj.has. by rewrite obj_get_set_eq.
  - intros Hquiet Hfree Hnone.
    assert (Hholder : JsonFile._lockHolder x <> Some (JsonFile.pid s0))
      by (by rewrite Hfree).
    destruct (save_free s0 i x Hobj0 Hbatch Hholder) as (w & E & _ & Hfs & Htr & _).
    { by subst s0. }
    { by subst s0. }
    rewrite Hsave in E. apply (f_equal snd) in E. cbn [snd] in E.
    assert (Hpc : pc = JsonFile.SaveLocked).
    { apply (f_equal JsonFile.pending) in E. simpl in E.
      apply app_inj_tail in E as [_ E]. congruence. }
    split; [exact Hpc|].
    apply (f_equal (fun st => (JsonFile.objects st, JsonFile.world st))) in E.
    simpl in E. injection E as Eo Ew.
    cbn [JsonFile.objects JsonFile.world JsonFile.set_pending]. rewrite Eo, Ew. split_and!.
    + rewrite list_lookup_alter_eq, Hobj0. simpl. by subst s0.
    + rewrite Hfs. by subst s0.
    + rewrite Htr. by subst s0.
Qed.

(** The store on [{"theme": "dark"}], the lock free: [set("font", 12)]. *)
Lemma set_then_get_top_level_witness :
  exists s1,
    JsonFile.set 0 "font" (VNum 12) Scenario.theme_store = (Ok tt, s1)
    /\ JsonFile.pending s1 = [(0%nat, JsonFile.SaveLocked)]
    /\ fst (JsonFile.get 0 "font" VUndef s1) = Ok (VNum 12)
    /\ Fs.trace (JsonFile.world s1) = [Fs.IoCreate "cfg.json.lock"].
Proof.
  edestruct (set_then_get_top_level Scenario.theme_store 0) with (k := "font")
    (v := VNum 12) as (s1 & pc & E & Hp & Hg & Hlock).
  - vm_compute. reflexivity.
  - vm_compute. reflexivity.
  - vm_compute. reflexivity.
  - vm_compute. reflexivity.
  - vm_compute. reflexivity.
  - discriminate.
  - destruct Hlock as (-> & _ & _ & Htr).
    + vm_compute. constructor.
    + vm_compute. reflexivity.
    + vm_compute. reflexivity.
    + exists s1. split_and!; [exact E|exact Hp|apply Hg|exact Htr].
Defined.

Section TopLevelRemoval.
Import JsonFile.

Lemma popDeep_top (l : loc) (props : Obj.props jsval) (k : string) (d : jsval) (m : Mem) :
  cells m !! l = Some (CObj props) ->
  Str.mem "/" k = false ->
  Obj.inherited k = false ->
  Traverse.popDeep (RProxy l) k d m
  = (Ok (default d (Obj.get k props)),
     {| cells := <[l := CObj (Obj.remove k props)]> (cells m); traps := traps m + 1 |}).
Proof.
  intros Hl Hk Hin. unfold Traverse.popDeep. rewrite pop_last_single by done.
  simpl. unfold bind, ret, Heap.read. rewrite Hl. cbn.
  unfold Traverse.obj_in, Traverse.obj_get, Obj.has.
  destruct (Obj.get k props) as [v|]; [done|]. by rewrite Hin.
Qed.

Lemma setDefaultDeep_top (l : loc) (props : Obj.props jsval) (k : string)
      (d : jsval) (m : Mem) :
  cells m !! l = Some (CObj props) ->
  Str.mem "/" k = false ->
  Obj.inherited k = false ->
  Traverse.setDefaultDeep (RProxy l) k d m
  = match Obj.get k props with
    | Some v => (Ok v, m)
    | None => (Ok d, {| cells := <[l := CObj (Obj.set k d props)]> (cells m);
                        traps := traps m + 1 |})
    end.
Proof.
  intros Hl Hk Hin. unfold Traverse.setDefaultDeep. rewrite pop_last_single by done.
  cbv beta iota. unfold Traverse._traverse, bind, ret, Heap.read. rewrite Hl.
  cbv beta iota. unfold Traverse.obj_in, Traverse.obj_set, Traverse.obj_get, Obj.has.
  rewrite Hin.
  destruct (Obj.get k props) as [v|] eqn:E; cbv beta iota; unfold ret.
  - cbn [negb]. cbv beta iota. rewrite Hl. cbv beta iota. by rewrite E.
  - cbn [negb andb]. cbv beta iota.
    rewrite (proj2 (String.eqb_neq _ _) (not_inherited_not_proto k Hin)).
    unfold Heap.write, Heap.trap, modify, bind. cbn [cells traps].
    rewrite (cell_after_write _ _ _ _ Hl). cbv beta iota.
    by rewrite obj_get_set_eq.
Qed.

(** One run of the trap handler with batch mode off. *)
Lemma trap_once (s : St) (i : nat) (x : JsonFile.t) :
  objects s !! i = Some x ->
  _batchMode x = false ->
  exists pc s',
    repeatM 1 (trap_handler i) s = (Ok tt, s')
    /\ pending s' = pending s ++ [(i, pc)]
    /\ mem s' = mem s
    /\ exists h, objects s' !! i = Some (set_lockHolder h x).
Proof.
  intros Hobj Hb. cbn [repeatM]. unfold bind at 1, trap_handler.
  unfold bind at 1, this at 1. rewrite Hobj, Hb. cbn [negb].
  destruct (save_starts s i x Hobj Hb) as (pc & s1 & Hsave & Hframe).
  rewrite Hsave. exists pc. eexists. split; [reflexivity|].
  pose proof Hframe as (Hm & _). split_and!; [done|done|].
  exact (lock_frame_lookup s s1 i x Hframe Hobj).
Qed.

End TopLevelRemoval.

(** X4: with batch mode off, [pop] on a one-segment path of an object
    document returns the stored value, or the default ([null] when none
    is passed) when the key is absent; either way the key is absent
    afterwards and exactly one save is started, also when there was
    nothing to remove. *)
Theorem pop_top_level (s : JsonFile.St) (i : nat) (x : JsonFile.t) (l : loc)
        (props : Obj.props jsval) (k : string) (d : jsval) :
  JsonFile.objects s !! i = Some x ->
  JsonFile.data x = Some l ->
  JsonFile._batchMode x = false ->
  cells (JsonFile.mem s) !! l = Some (CObj props) ->
  NoDup (map fst props) ->
  Str.mem "/" k = false ->
  Obj.inherited k = false ->
  exists s1 pc,
    JsonFile.pop i k d s
    = (Ok (default (JsonFile.or_null d) (Obj.get k props)), s1)
    /\ JsonFile.pending s1 = JsonFile.pending s ++ [(i, pc)]
    /\ (forall d', fst (JsonFile.get i k d' s1) = Ok VUndef)
    /\ (forall k' d', k' <> k -> Str.mem "/" k' = false -> Obj.inherited k' = false ->
                      fst (JsonFile.get i k' d' s1) = fst (JsonFile.get i k' d' s)).
Proof.
  intros Hobj Hdata Hbatch Hl Hnd Hk Hin.
  remember (JsonFile.set_mem
              {| cells := <[l := CObj (Obj.remove k props)]> (cells (JsonFile.mem s));
                 traps := 1 |} s) as s0 eqn:Hs0.
  assert (Hobj0 : JsonFile.objects s0 !! i = Some x) by (by subst s0).
  destruct (trap_once s0 i x Hobj0 Hbatch) as (pc & s1 & Htrap & Hp & Hm & h & Hx1).
  assert (Hcell : cells (JsonFile.mem s1) !! l = Some (CObj (Obj.remove k props))).
  { rewrite Hm. subst s0. simpl. by eapply cell_after_write. }
  exists s1, pc. split; [|split_and!].
  - unfold JsonFile.pop. rewrite (on_data_eq _ _ _ x) by done. rewrite Hdata. cbv zeta.
    rewrite (popDeep_top l props) by done. cbn [traps cells Nat.add].
    rewrite <- Hs0, Htrap. reflexivity.
  - rewrite Hp. by subst s0.
  - intros d'.
    rewrite (get_top _ i (JsonFile.set_lockHolder h x) l (Obj.remove k props));
      simpl; try done.
    + by rewrite obj_get_remove_eq.
    + by left.
  - intros k' d' Hne Hk' Hin'.
    rewrite (get_top _ i (JsonFile.set_lockHolder h x) l (Obj.remove k props));
      simpl; try done.
    + rewrite (get_top s i x l props); simpl; try done; [|by left].
      by rewrite obj_get_remove_ne.
    + by left.
Qed.

Lemma pop_top_level_witness :
  exists s1,
    JsonFile.pop 0 "theme" VUndef Scenario.theme_store = (Ok (VStr "dark"), s1)
    /\ length (JsonFile.pending s1) = 1%nat
    /\ fst (JsonFile.get 0 "theme" VUndef s1) = Ok VUndef.
Proof.
  edestruct (pop_top_level Scenario.theme_store 0) with (k := "theme") (d := VUndef)
    as (s1 & pc & E & Hp & Hg & _).
  - vm_compute. reflexivity.
  - vm_compute. reflexivity.
  - vm_compute. reflexivity.
  - vm_compute. reflexivity.
  - simpl. apply NoDup_singleton.
  - vm_compute. reflexivity.
  - vm_compute. reflexivity.
  - exists s1. split_and!; [exact E|by rewrite Hp|apply Hg].
Defined.

(** X5: with batch mode off, [setDefault] on a one-segment path of an
    object document returns the value already stored and changes
    nothing when the key is present (also when that value is [null]);
    when the key is absent it stores the default, returns it and starts
    exactly one save. *)
Theorem store_setDefault_top_level (s : JsonFile.St) (i : nat) (x : JsonFile.t) (l : loc)
        (props : Obj.props jsval) (k : string) (d : jsval) :
  JsonFile.objects s !! i = Some x ->
  JsonFile.data x = Some l ->
  JsonFile._batchMode x = false ->
  cells (JsonFile.mem s) !! l = Some (CObj props) ->
  Str.mem "/" k = false ->
  Obj.inherited k = false ->
  (forall v, Obj.get k props = Some v ->
     exists s1,
       JsonFile.setDefault i k d s = (Ok v, s1)
       /\ JsonFile.pending s1 = JsonFile.pending s
       /\ JsonFile.world s1 = JsonFile.world s
       /\ cells (JsonFile.mem s1) = cells (JsonFile.mem s))
  /\ (Obj.get k props = None ->
      exists s1 pc,
        JsonFile.setDefault i k d s = (Ok d, s1)
        /\ JsonFile.pending s1 = JsonFile.pending s ++ [(i, pc)]
        /\ forall d', fst (JsonFile.get i k d' s1) = Ok d).
Proof.
  intros Hobj Hdata Hbatch Hl Hk Hin. split.
  - intros v Hv. eexists. split; [|split_and!].
    + unfold JsonFile.setDefault. rewrite (on_data_eq _ _ _ x) by done.
      rewrite Hdata. cbv zeta. rewrite (setDefaultDeep_top l props) by done.
      rewrite Hv. cbn [traps repeatM ret]. reflexivity.
    + done.
    + done.
    + done.
  - intros Hv.
    remember (JsonFile.set_mem
                {| cells := <[l := CObj (Obj.set k d props)]> (cells (JsonFile.mem s));
                   traps := 1 |} s) as s0 eqn:Hs0.
    assert (Hobj0 : JsonFile.objects s0 !! i = Some x) by (by subst s0).
    destruct (trap_once s0 i x Hobj0 Hbatch) as (pc & s1 & Htrap & Hp & Hm & h & Hx1).
    exists s1, pc. split; [|split_and!].
    + unfold JsonFile.setDefault. rewrite (on_data_eq _ _ _ x) by done.
      rewrite Hdata. cbv zeta. rewrite (setDefaultDeep_top l props) by done.
      rewrite Hv. cbn [traps cells Nat.add].
      rewrite <- Hs0, Htrap. reflexivity.
    + rewrite Hp. by subst s0.
    + intros d'.
      rewrite (get_top _ i (JsonFile.set_lockHolder h x) l (Obj.set k d props));
        simpl; try done.
      * by rewrite obj_get_set_eq.
      * rewrite Hm. subst s0. simpl. by eapply cell_after_write.
      * by left.
Qed.

Lemma store_setDefault_top_level_witness :
  (exists s1, JsonFile.setDefault 0 "theme" (VStr "light") Scenario.theme_store
              = (Ok (VStr "dark"), s1)
              /\ JsonFile.pending s1 = [])
  /\ (exists s1, JsonFile.setDefault 0 "font" (VNum 12) Scenario.theme_store
                 = (Ok (VNum 12), s1)
                 /\ length (JsonFile.pending s1) = 1%nat).
Proof.
  split.
  - edestruct (store_setDefault_top_level Scenario.theme_store 0) with (k := "theme")
      (d := VStr "light") as [H _].
    1-6: vm_compute; reflexivity.
    destruct (H (VStr "dark") eq_refl) as (s1 & E & Hp & _).
    exists s1. split; [exact E|exact Hp].
  - edestruct (store_setDefault_top_level Scenario.theme_store 0) with (k := "font")
      (d := VNum 12) as [_ H].
    1-6: vm_compute; reflexivity.
    destruct (H eq_refl) as (s1 & pc & E & Hp & _).
    exists s1. split; [exact E|by rewrite Hp].
Defined.

(** ** Batch mode *)

Section BatchFacts.
Import JsonFile.

Lemma batch_writes (i : nat) (l : loc) (ws : list (string * jsval)) :
  forall (s : St) (x : JsonFile.t) (props : Obj.props jsval),
    objects s !! i = Some x ->
    _batchMode x = true ->
    data x = Some l ->
    cells (mem s) !! l = Some (CObj props) ->
    Forall (fun w => Str.mem "/" (fst w) = false /\ fst w <> "__proto__") ws ->
    exists s1 x1 props1,
      Scenario.set_each i ws s = (Ok tt, s1)
      /\ pending s1 = pending s
      /\ world s1 = world s
      /\ objects s1 !! i = Some x1
      /\ _batchMode x1 = true
      /\ data x1 = Some l
      /\ _queuedSave x1 = match ws with [] => _queuedSave x | _ => true end
      /\ cells (mem s1) !! l = Some (CObj props1).
Proof.
  induction ws as [|[k v] ws IH]; intros s x props Hobj Hb Hdata Hl Hws.
  - exists s, x, props. by split_and!.
  - apply Forall_cons in Hws as [[Hk Hp] Hws]. simpl in Hk, Hp.
    cbn [Scenario.set_each]. unfold bind at 1.
    rewrite (set_top s i x l props) by auto. rewrite Hb. cbv zeta beta iota.
    set (s0 := set_objects _ _).
    destruct (IH s0 (set_queuedSave true x) (Obj.set k v props))
      as (s1 & x1 & props1 & E & Hp1 & Hw1 & Hobj1 & Hb1 & Hd1 & Hq1 & Hl1).
    + subst s0. simpl. by rewrite list_lookup_alter_eq, Hobj.
    + done.
    + done.
    + subst s0. simpl. by eapply cell_after_write.
    + done.
    + exists s1, x1, props1. split_and!; try done.
      rewrite Hq1. by destruct ws.
Qed.

End BatchFacts.

(** X6: batch mode coalesces the saves: after [beginBatch] any number
    of one-segment writes to an object document starts no save and
    touches no file, and [endBatch] then starts exactly one; a batch
    without a write starts none.  Batch mode is off afterwards. *)
Theorem batch_starts_one_save (s : JsonFile.St) (i : nat) (x : JsonFile.t) (l : loc)
        (props : Obj.props jsval) (ws : list (string * jsval)) :
  JsonFile.objects s !! i = Some x ->
  JsonFile.data x = Some l ->
  cells (JsonFile.mem s) !! l = Some (CObj props) ->
  Forall (fun w => Str.mem "/" (fst w) = false /\ fst w <> "__proto__") ws ->
  exists s1 s' x',
    (JsonFile.beginBatch i ;; Scenario.set_each i ws) s = (Ok tt, s1)
    /\ JsonFile.pending s1 = JsonFile.pending s
    /\ JsonFile.world s1 = JsonFile.world s
    /\ JsonFile.endBatch i s1 = (Ok tt, s')
    /\ match ws with
       | [] => JsonFile.pending s' = JsonFile.pending s
               /\ JsonFile.world s' = JsonFile.world s
       | _ => exists pc, JsonFile.pending s' = JsonFile.pending s ++ [(i, pc)]
       end
    /\ JsonFile.objects s' !! i = Some x'
    /\ JsonFile._batchMode x' = false
    /\ JsonFile._queuedSave x' = false.
Proof.
  intros Hobj Hdata Hl Hws.
  unfold bind at 1. unfold JsonFile.beginBatch, bind, JsonFile.update, modify.
  cbv beta iota.
  set (s0 := JsonFile.set_objects _ (JsonFile.set_objects _ s)).
  assert (Hobj0 : JsonFile.objects s0 !! i
                  = Some (JsonFile.set_queuedSave false (JsonFile.set_batchMode true x))).
  { subst s0. simpl. by rewrite !list_lookup_alter_eq, Hobj. }
  destruct (batch_writes i l ws s0 _ props Hobj0)
    as (s1 & x1 & props1 & E & Hp1 & Hw1 & Hobj1 & Hb1 & Hd1 & Hq1 & Hl1); try done.
  rewrite E. exists s1.
  unfold JsonFile.endBatch. unfold bind at 1. unfold JsonFile.update at 1, modify at 1.
  cbv beta iota.
  remember (JsonFile.set_objects (alter (JsonFile.set_batchMode false) i (JsonFile.objects s1)) s1)
    as s2 eqn:Hs2.
  assert (Hobj2 : JsonFile.objects s2 !! i = Some (JsonFile.set_batchMode false x1)).
  { subst s2. simpl. by rewrite list_lookup_alter_eq, Hobj1. }
  unfold bind at 1. unfold JsonFile.this at 1. rewrite Hobj2. cbv beta iota.
  cbn [JsonFile._queuedSave JsonFile.set_batchMode]. rewrite Hq1.
  destruct ws as [|w ws].
  - cbn [JsonFile._queuedSave JsonFile.set_queuedSave JsonFile.set_batchMode].
    simpl in Hq1.
    exists s2, (JsonFile.set_batchMode false x1).
    split_and!; try done; subst s2 s0; simpl in *; congruence.
  - destruct (save_starts s2 i _ Hobj2 eq_refl) as (pc & s3 & Hsave & Hframe).
    destruct (lock_frame_lookup s2 s3 i _ Hframe Hobj2) as (h & Hx3).
    unfold bind at 1. rewrite Hsave. cbv beta iota.
    unfold JsonFile.update, modify.
    eexists _, (JsonFile.set_queuedSave false
                  (JsonFile.set_lockHolder h (JsonFile.set_batchMode false x1))).
    split_and!; [done|done|done|reflexivity| | |done|done].
    + exists pc. simpl. subst s2 s0. simpl in *. by rewrite Hp1.
    + simpl. by rewrite list_lookup_alter_eq, Hx3.
Qed.

(** The store on [{"theme": "dark"}]: three writes in one batch. *)
Lemma batch_starts_one_save_witness :
  exists s1 s',
    (JsonFile.beginBatch 0 ;;
     Scenario.set_each 0 [("font", VNum 12); ("theme", VStr "light"); ("font", VNum 14)])
      Scenario.theme_store = (Ok tt, s1)
    /\ JsonFile.pending s1 = []
    /\ JsonFile.endBatch 0 s1 = (Ok tt, s')
    /\ length (JsonFile.pending s') = 1%nat.
Proof.
  edestruct (batch_starts_one_save Scenario.theme_store 0) with
    (ws := [("font", VNum 12); ("theme", VStr "light"); ("font", VNum 14)])
    as (s1 & s' & x' & E & Hp & _ & E' & (pc & Hp') & _).
  - vm_compute. reflexivity.
  - vm_compute. reflexivity.
  - vm_compute. reflexivity.
  - repeat constructor; discriminate.
  - exists s1, s'. split_and!; [exact E|exact Hp|exact E'|by rewrite Hp'].
Defined.

(** ** Taking and releasing the lock *)

Section LockRoundTrip.
Import JsonFile.

Lemma step_writeFileSync (p : string) (c : Fs.content) (s : St) :
  Fs.quiet (world s) ->
  exists w,
    io (Fs.writeFileSync p c) s = (Ok tt, set_world w s)
    /\ Fs.quiet w
    /\ Fs.files w = <[p := Fs.touch (Fs.now w) c]> (Fs.files (world s))
    /\ Fs.trace w = Fs.trace (world s) ++ [Fs.IoWrite p]
    /\ Fs.now (world s) <= Fs.now w.
Proof.
  intros Hq.
  destruct (env_step_quiet _ Hq) as (? & Hfs & Htr & ?).
  eexists. split.
  - unfold io, zoom, Fs.writeFileSync, bind, Fs.env, modify. simpl. reflexivity.
  - simpl. rewrite Htr, Hfs. split_and!; done.
Qed.

(** The whole of [#acquireLock] when the sentinel is free. *)
Lemma acquire_free (fuel : nat) (i : nat) (s : St) (x : JsonFile.t) :
  objects s !! i = Some x ->
  _lockHolder x <> Some (pid s) ->
  Fs.quiet (world s) ->
  Fs.files (world s) !! _lockPath x = None ->
  exists w,
    acquireLock (S (S fuel)) i s
    = (Ok tt, set_objects (alter (set_lockHolder (Some (pid s))) i (objects s))
                (set_world w s))
    /\ Fs.quiet w
    /\ Fs.files w = <[_lockPath x := Fs.touch (Fs.now w) Fs.Garbage]> (Fs.files (world s))
    /\ Fs.trace w = Fs.trace (world s) ++ [Fs.IoCreate (_lockPath x)]
    /\ Fs.now (world s) <= Fs.now w.
Proof.
  intros Hobj Hholder Hq Hf.
  destruct (step_Date_now s Hq) as (w1 & E1 & Hq1 & Hfs1 & Htr1 & Hn1).
  destruct (step_existsSync (_lockPath x) (set_world w1 s) Hq1)
    as (w2 & E2 & Hq2 & Hfs2 & Htr2 & Hn2).
  simpl in Hfs2, Htr2, Hn2. cbn [world set_world] in E2. rewrite Hfs1, Hf in E2.
  destruct (step_create (_lockPath x) (set_world w2 (set_world w1 s)) Hq2)
    as (w3 & E3 & Hq3 & Hfs3 & Htr3 & Hn3).
  { simpl. by rewrite Hfs2, Hfs1. }
  simpl in Hfs3, Htr3, Hn3.
  exists w3. split; [|split_and!; try done].
  - assert (Hloop : acquireLock_from (S fuel) (LockLoop (Fs.now w1)) i (set_world w1 s)
                    = (Ok tt, set_objects (alter (set_lockHolder (Some (pid s))) i (objects s))
                                (set_world w3 s))).
    { rewrite acquireLock_from_eq.
      unfold bind at 1. unfold this at 1. cbn [objects set_world]. rewrite Hobj.
      cbv beta iota zeta.
      unfold bind at 1. rewrite E2. cbv beta iota.
      unfold bind at 1, try_catch. unfold bind at 1. rewrite E3. cbv beta iota.
      unfold ret at 1. cbv beta iota.
      unfold bind, gets, update, modify. cbv beta iota. reflexivity. }
    unfold acquireLock. rewrite acquireLock_from_eq.
    unfold bind at 1. unfold this at 1. rewrite Hobj. cbv beta iota zeta.
    unfold bind at 1. unfold gets at 1. cbv beta iota.
    destruct (_lockHolder x) as [h|].
    + destruct (Z.eqb_spec h (pid s)) as [->|_]; [done|].
      unfold bind at 1. rewrite E1. cbv beta iota. exact Hloop.
    + unfold bind at 1. rewrite E1. cbv beta iota. exact Hloop.
  - by rewrite Hfs3, Hfs2, Hfs1.
  - by rewrite Htr3, Htr2, Htr1.
  - lia.
Qed.

(** [#releaseLock] by the holder, the sentinel being there. *)
Lemma release_held (i : nat) (s : St) (x : JsonFile.t) (f : Fs.file) :
  objects s !! i = Some x ->
  _lockHolder x = Some (pid s) ->
  Fs.quiet (world s) ->
  Fs.files (world s) !! _lockPath x = Some f ->
  exists w,
    releaseLock i s
    = (Ok tt, set_objects (alter (set_lockHolder None) i (objects s)) (set_world w s))
    /\ Fs.quiet w
    /\ Fs.files w = delete (_lockPath x) (Fs.files (world s))
    /\ Fs.trace w = Fs.trace (world s) ++ [Fs.IoUnlink (_lockPath x)]
    /\ Fs.now (world s) <= Fs.now w.
Proof.
  intros Hobj Hholder Hq Hf.
  destruct (step_unlinkSync (_lockPath x) s f Hq Hf) as (w & E & Hqw & Hfs & Htr & Hn).
  exists w. split; [|done].
  unfold releaseLock, try_catch. unfold bind at 1. unfold this at 1. rewrite Hobj.
  cbv beta iota. unfold bind at 1. unfold gets at 1. cbv beta iota.
  rewrite Hholder, Z.eqb_refl. unfold bind at 1. rewrite E. cbv beta iota.
  reflexivity.
Qed.

Lemma holder_reset (x : JsonFile.t) (p : Z) :
  _lockHolder x = None -> set_lockHolder None (set_lockHolder (Some p) x) = x.
Proof. destruct x. simpl. by intros ->. Qed.

End LockRoundTrip.

(** X7: taking a free lock and releasing it is a round trip: the
    acquisition creates the sentinel and records this process as the
    holder; the release unlinks it and forgets the holder, so that the
    files and the store object are as before.  (No other process
    touches the files meanwhile.) *)
Theorem acquire_release_round_trip (fuel : nat) (i : nat) (s : JsonFile.St)
        (x : JsonFile.t) :
  JsonFile.objects s !! i = Some x ->
  JsonFile._lockHolder x = None ->
  Fs.quiet (JsonFile.world s) ->
  Fs.files (JsonFile.world s) !! JsonFile._lockPath x = None ->
  (2 <= fuel)%nat ->
  exists s1 s2,
    JsonFile.acquireLock fuel i s = (Ok tt, s1)
    /\ JsonFile.objects s1 !! i = Some (JsonFile.set_lockHolder (Some (JsonFile.pid s)) x)
    /\ is_Some (Fs.files (JsonFile.world s1) !! JsonFile._lockPath x)
    /\ JsonFile.releaseLock i s1 = (Ok tt, s2)
    /\ JsonFile.objects s2 = JsonFile.objects s
    /\ Fs.files (JsonFile.world s2) = Fs.files (JsonFile.world s)
    /\ Fs.trace (JsonFile.world s2)
       = Fs.trace (JsonFile.world s)
         ++ [Fs.IoCreate (JsonFile._lockPath x); Fs.IoUnlink (JsonFile._lockPath x)].
Proof.
  intros Hobj Hholder Hq Hf Hfuel.
  destruct fuel as [|[|fuel]]; [lia|lia|].
  destruct (acquire_free fuel i s x) as (w1 & E1 & Hq1 & Hfs1 & Htr1 & Hn1); try done.
  { by rewrite Hholder. }
  set (s1 := JsonFile.set_objects _ (JsonFile.set_world w1 s)) in E1.
  assert (Hobj1 : JsonFile.objects s1 !! i
                  = Some (JsonFile.set_lockHolder (Some (JsonFile.pid s)) x)).
  { subst s1. simpl. by rewrite list_lookup_alter_eq, Hobj. }
  destruct (release_held i s1 _ (Fs.touch (Fs.now w1) Fs.Garbage) Hobj1)
    as (w2 & E2 & Hq2 & Hfs2 & Htr2 & Hn2); try done.
  { subst s1. simpl. by rewrite Hfs1, lookup_insert_eq. }
  exists s1, (JsonFile.set_objects
                (alter (JsonFile.set_lockHolder None) i (JsonFile.objects s1))
                (JsonFile.set_world w2 s1)).
  split_and!; try done.
  - subst s1. simpl. rewrite Hfs1, lookup_insert_eq. eauto.
  - subst s1. simpl. apply list_eq. intros j.
    destruct (decide (i = j)) as [<-|Hne].
    + rewrite !list_lookup_alter_eq, Hobj. simpl. by rewrite holder_reset.
    + by rewrite !list_lookup_alter_ne.
  - simpl in *. rewrite Hfs2. subst s1. simpl. rewrite Hfs1. by apply delete_insert_id.
  - simpl in *. rewrite Htr2. subst s1. simpl. rewrite Htr1. by rewrite <- app_assoc.
Qed.

Lemma acquire_release_round_trip_witness :
  exists s1 s2,
    JsonFile.acquireLock 2 0 Scenario.theme_store = (Ok tt, s1)
    /\ JsonFile.releaseLock 0 s1 = (Ok tt, s2)
    /\ Fs.files (JsonFile.world s2) = Fs.files (JsonFile.world Scenario.theme_store)
    /\ Fs.trace (JsonFile.world s2)
       = [Fs.IoCreate "cfg.json.lock"; Fs.IoUnlink "cfg.json.lock"].
Proof.
  edestruct (acquire_release_round_trip 2 0 Scenario.theme_store)
    as (s1 & s2 & E1 & _ & _ & E2 & _ & Hfs & Htr).
  - vm_compute. reflexivity.
  - vm_compute. reflexivity.
  - vm_compute. constructor.
  - vm_compute. reflexivity.
  - lia.
  - exists s1, s2. split_and!; [exact E1|exact E2|exact Hfs|exact Htr].
Defined.

(** X8: a release that finds the sentinel gone fails silently and does
    not forget the holder: the store still takes itself for the holder,
    and every later acquisition returns at once without creating a
    sentinel. *)
Theorem release_without_sentinel_keeps_holder (i : nat) (s : JsonFile.St)
        (x : JsonFile.t) :
  JsonFile.objects s !! i = Some x ->
  JsonFile._lockHolder x = Some (JsonFile.pid s) ->
  Fs.files (Fs.env_step (JsonFile.world s)) !! JsonFile._lockPath x = None ->
  exists s1,
    JsonFile.releaseLock i s = (Ok tt, s1)
    /\ s1 = JsonFile.set_world (Fs.env_step (JsonFile.world s)) s
    /\ JsonFile._lockHolder <$> (JsonFile.objects s1 !! i) = Some (Some (JsonFile.pid s1))
    /\ forall fuel, JsonFile.acquireLock (S fuel) i s1 = (Ok tt, s1).
Proof.
  intros Hobj Hholder Hf. eexists. split; [|split_and!].
  - unfold JsonFile.releaseLock, try_catch. unfold bind at 1.
    unfold JsonFile.this at 1. rewrite Hobj. cbv beta iota.
    unfold bind at 1. unfold gets at 1. cbv beta iota.
    rewrite Hholder, Z.eqb_refl.
    unfold bind at 1, JsonFile.io, zoom, Fs.unlinkSync, bind, Fs.env, modify, gets.
    cbv beta iota. rewrite Hf. reflexivity.
  - reflexivity.
  - simpl. by rewrite Hobj, <- Hholder.
  - intros fuel. unfold JsonFile.acquireLock. rewrite acquireLock_from_eq.
    unfold bind at 1. unfold JsonFile.this at 1. simpl JsonFile.objects. rewrite Hobj.
    cbv beta iota zeta. unfold bind at 1. unfold gets at 1. cbv beta iota.
    rewrite Hholder. simpl JsonFile.pid. by rewrite Z.eqb_refl.
Qed.

(** The sentinel of a lock held for 31 s is removed by another process. *)
Lemma release_without_sentinel_keeps_holder_witness :
  exists s1,
    JsonFile.releaseLock 0 Scenario.lock_lost = (Ok tt, s1)
    /\ JsonFile._lockHolder <$> (JsonFile.objects s1 !! 0%nat)
       = Some (Some (JsonFile.pid s1))
    /\ JsonFile.acquireLock 1 0 s1 = (Ok tt, s1).
Proof.
  edestruct (release_without_sentinel_keeps_holder 0 Scenario.lock_lost)
    as (s1 & E & _ & Hh & Ha).
  - vm_compute. reflexivity.
  - vm_compute. reflexivity.
  - vm_compute. reflexivity.
  - exists s1. split_and!; [exact E|exact Hh|apply Ha].
Defined.

(** ** Saving *)

Section SaveFacts.
Import JsonFile.

Lemma holder_reset_modified (x : JsonFile.t) (p t : Z) :
  _lockHolder x = None ->
  set_lockHolder None (set_lastModified t (set_lockHolder (Some p) x))
  = set_lastModified t x.
Proof. destruct x. simpl. by intros ->. Qed.

End SaveFacts.

(** X9: one save, undisturbed: with the lock free and no other process
    at work, the body of [save] takes the lock, writes the text of the
    in-memory document to the backing file, records the file's
    modification time in [_lastModified] and releases the lock; the
    sentinel is gone afterwards and nothing else changes. *)
Theorem save_writes_document (fuel : nat) (i : nat) (s : JsonFile.St)
        (x : JsonFile.t) (l : loc) (j : json) :
  JsonFile.objects s !! i = Some x ->
  JsonFile._lockHolder x = None ->
  JsonFile.data x = Some l ->
  Heap.serialize (cells (JsonFile.mem s)) (VRef l) = Heap.SJson j ->
  JsonFile._lockPath x <> JsonFile.filename x ->
  Fs.quiet (JsonFile.world s) ->
  Fs.files (JsonFile.world s) !! JsonFile._lockPath x = None ->
  (2 <= fuel)%nat ->
  exists s' t,
    JsonFile.save_body fuel i s = (Ok tt, s')
    /\ Fs.files (JsonFile.world s')
       = <[JsonFile.filename x := Fs.touch t (Fs.Text j)]> (Fs.files (JsonFile.world s))
    /\ JsonFile.objects s' !! i = Some (JsonFile.set_lastModified t x)
    /\ Fs.trace (JsonFile.world s')
       = Fs.trace (JsonFile.world s)
         ++ [Fs.IoCreate (JsonFile._lockPath x); Fs.IoWrite (JsonFile.filename x);
             Fs.IoUnlink (JsonFile._lockPath x)]
    /\ JsonFile.mem s' = JsonFile.mem s
    /\ JsonFile.pending s' = JsonFile.pending s
    /\ JsonFile._instances s' = JsonFile._instances s.
Proof.
  intros Hobj Hholder Hdata Hser Hne Hq Hf Hfuel.
  destruct fuel as [|[|fuel]]; [lia|lia|].
  destruct (acquire_free fuel i s x) as (w1 & E1 & Hq1 & Hfs1 & Htr1 & Hn1); try done.
  { by rewrite Hholder. }
  set (s1 := JsonFile.set_objects _ (JsonFile.set_world w1 s)) in E1.
  set (x1 := JsonFile.set_lockHolder (Some (JsonFile.pid s)) x).
  assert (Hobj1 : JsonFile.objects s1 !! i = Some x1).
  { subst s1. simpl. by rewrite list_lookup_alter_eq, Hobj. }
  destruct (step_writeFileSync (JsonFile.filename x) (Fs.Text j) s1)
    as (w2 & E2 & Hq2 & Hfs2 & Htr2 & Hn2); [done|].
  set (f := Fs.touch (Fs.now w2) (Fs.Text j)) in Hfs2.
  destruct (step_statSync (JsonFile.filename x) (JsonFile.set_world w2 s1) f)
    as (w3 & E3 & Hq3 & Hfs3 & Htr3 & Hn3); [done| |].
  { simpl. by rewrite Hfs2, lookup_insert_eq. }
  set (s3 := JsonFile.set_objects
               (alter (JsonFile.set_lastModified (Fs.mtimeMs f)) i (JsonFile.objects s1))
               (JsonFile.set_world w3 s1)).
  assert (Hobj3 : JsonFile.objects s3 !! i
                  = Some (JsonFile.set_lastModified (Fs.mtimeMs f) x1)).
  { subst s3. cbn [JsonFile.objects JsonFile.set_objects]. by rewrite list_lookup_alter_eq, Hobj1. }
  destruct (release_held i s3 _ (Fs.touch (Fs.now w1) Fs.Garbage) Hobj3)
    as (w4 & E4 & Hq4 & Hfs4 & Htr4 & Hn4); try done.
  { subst s3. simpl in *. rewrite Hfs3, Hfs2. subst s1. simpl.
    rewrite lookup_insert_ne by done. by rewrite Hfs1, lookup_insert_eq. }
  exists (JsonFile.set_objects
            (alter (JsonFile.set_lockHolder None) i (JsonFile.objects s3))
            (JsonFile.set_world w4 s3)), (Fs.now w2).
  split; [|split_and!].
  - unfold JsonFile.save_body. unfold bind at 1. rewrite E1. cbv beta iota.
    unfold try_finally.
    assert (Hbody :
      (let* self := JsonFile.this i in
       let* text := JsonFile.JSON_stringify_data i in
       JsonFile.io (Fs.writeFileSync (JsonFile.filename self) text) ;;
       let* stats := JsonFile.io (Fs.statSync (JsonFile.filename self)) in
       JsonFile.update i (JsonFile.set_lastModified (Fs.mtimeMs stats)))%monad s1
      = (Ok tt, s3)).
    { unfold bind at 1. unfold JsonFile.this at 1. rewrite Hobj1. cbv beta iota.
      unfold bind at 1. unfold JsonFile.JSON_stringify_data.
      unfold bind at 1. unfold JsonFile.this at 1. rewrite Hobj1. cbv beta iota.
      unfold bind at 1. unfold gets at 1. cbv beta iota.
      change (JsonFile.data x1) with (JsonFile.data x). rewrite Hdata.
      change (cells (JsonFile.mem s1)) with (cells (JsonFile.mem s)). rewrite Hser.
      unfold ret at 1. cbv beta iota.
      change (JsonFile.filename x1) with (JsonFile.filename x).
      unfold bind at 1. rewrite E2. cbv beta iota.
      unfold bind at 1. rewrite E3. cbv beta iota. reflexivity. }
    rewrite Hbody. rewrite E4. reflexivity.
  - simpl in *. rewrite Hfs4. subst s3. simpl. rewrite Hfs3, Hfs2. subst s1. simpl.
    rewrite Hfs1. rewrite delete_insert_ne by done. by rewrite delete_insert_id.
  - simpl. rewrite !list_lookup_alter_eq, Hobj. simpl.
    by rewrite holder_reset_modified.
  - simpl in *. rewrite Htr4. subst s3. simpl. rewrite Htr3, Htr2. subst s1. simpl.
    rewrite Htr1. by rewrite <- !app_assoc.
  - done.
  - done.
  - done.
Qed.

Lemma save_writes_document_witness :
  exists s' t,
    JsonFile.save_body 2 0 Scenario.theme_store = (Ok tt, s')
    /\ Fs.files (JsonFile.world s')
       = <["cfg.json" := Fs.touch t (Fs.Text (JObj [("theme", JStr "dark")]))]>
           (Fs.files (JsonFile.world Scenario.theme_store))
    /\ Fs.trace (JsonFile.world s')
       = [Fs.IoCreate "cfg.json.lock"; Fs.IoWrite "cfg.json"; Fs.IoUnlink "cfg.json.lock"].
Proof.
  edestruct (save_writes_document 2 0 Scenario.theme_store)
    as (s' & t & E & Hfs & _ & Htr & _).
  - vm_compute. reflexivity.
  - vm_compute. reflexivity.
  - vm_compute. reflexivity.
  - vm_compute. reflexivity.
  - vm_compute. discriminate.
  - vm_compute. constructor.
  - vm_compute. reflexivity.
  - lia.
  - exists s', t. split_and!; [exact E|exact Hfs|exact Htr].
Defined.

(** X10: the watcher reloads only a newer file: when the backing file is
    missing, or its modification time is not later than the one the
    store recorded, a firing of the timer takes no lock and changes
    neither the document nor the store; after [close] it does nothing
    at all. *)
Theorem watcher_ignores_unchanged_file (fuel : nat) (i : nat) (s : JsonFile.St)
        (x : JsonFile.t) :
  JsonFile.objects s !! i = Some x ->
  match Fs.files (Fs.env_step (JsonFile.world s)) !! JsonFile.filename x with
  | Some f => Fs.mtimeMs f <= JsonFile._lastModified x
  | None => True
  end ->
  JsonFile.watcher_tick fuel i s
  = (Ok tt, if JsonFile._watcherInterval x
            then JsonFile.set_world (Fs.env_step (JsonFile.world s)) s
            else s).
Proof.
  intros Hobj Hf. unfold JsonFile.watcher_tick. unfold bind at 1.
  unfold JsonFile.this at 1. rewrite Hobj. cbv beta iota.
  destruct (JsonFile._watcherInterval x); [|done].
  unfold try_catch. unfold bind at 1.
  unfold JsonFile.io, zoom, Fs.statSync, bind, Fs.env, modify, gets. cbv beta iota.
  destruct (Fs.files (Fs.env_step (JsonFile.world s)) !! JsonFile.filename x) as [f|];
    cbv beta iota; [|done].
  unfold ret at 1. cbv beta iota. unfold JsonFile.this. cbn [JsonFile.objects JsonFile.set_world].
  rewrite Hobj. cbv beta iota.
  rewrite Z.gtb_ltb. by rewrite (proj2 (Z.ltb_ge _ _) Hf).
Qed.

(** After its own save the store does not reload its file. *)
Lemma watcher_ignores_unchanged_file_witness :
  JsonFile.watcher_tick 8 0 (snd (JsonFile.save_body 2 0 Scenario.theme_store))
  = (Ok tt, snd (JsonFile.save_body 2 0 Scenario.theme_store)).
Proof.
  eapply eq_trans.
  - eapply (watcher_ignores_unchanged_file 8 0).
    + vm_compute. reflexivity.
    + vm_compute. discriminate.
  - vm_compute. reflexivity.
Defined.

(** ** Loading *)

Section LoadFacts.
Import JsonFile.

Lemma step_readFileSync (p : string) (s : St) (f : Fs.file) :
  Fs.quiet (world s) ->
  Fs.files (world s) !! p = Some f ->
  exists w,
    io (Fs.readFileSync p) s = (Ok (Fs.f_content f), set_world w s)
    /\ Fs.quiet w /\ Fs.files w = Fs.files (world s)
    /\ Fs.trace w = Fs.trace (world s) /\ Fs.now (world s) <= Fs.now w.
Proof.
  intros Hq Hf. exists (Fs.env_step (world s)).
  destruct (env_step_quiet _ Hq) as (? & Hfs & ? & ?). split; [|done].
  unfold io, zoom, Fs.readFileSync, bind, Fs.env, modify, gets. simpl.
  by rewrite Hfs, Hf.
Qed.

End LoadFacts.

(** X11: [loadSync] never throws, whatever the state of the disk; when
    the backing file is missing or does not hold JSON text, the store
    starts from a fresh empty document and keeps the modification time
    it had recorded. *)
Theorem loadSync_never_throws (i : nat) (s : JsonFile.St) (x : JsonFile.t) :
  JsonFile.objects s !! i = Some x ->
  exists s',
    JsonFile.loadSync i s = (Ok tt, s')
    /\ ((forall j, Fs.f_content <$> (Fs.files (Fs.env_step (JsonFile.world s))
                                       !! JsonFile.filename x) <> Some (Fs.Text j)) ->
        JsonFile.objects s' !! i
        = Some (JsonFile.set__data (VRef (length (cells (JsonFile.mem s)))) x)
        /\ cells (JsonFile.mem s') = cells (JsonFile.mem s) ++ [CObj []]
        /\ JsonFile.world s' = Fs.env_step (JsonFile.world s)).
Proof.
  intros Hobj. unfold JsonFile.loadSync, try_catch. unfold bind at 1.
  unfold JsonFile.this at 1. rewrite Hobj. cbv beta iota.
  unfold bind at 1.
  unfold JsonFile.io at 1, zoom, Fs.readFileSync, bind at 1, Fs.env, modify.
  cbv beta iota. unfold bind at 1, gets at 1. cbv beta iota.
  destruct (Fs.files (Fs.env_step (JsonFile.world s)) !! JsonFile.filename x)
    as [f|] eqn:E; cbv beta iota.
  - unfold ret at 1. cbv beta iota. unfold bind at 1.
    destruct (Fs.f_content f) as [j|] eqn:Ec.
    + unfold JsonFile.JSON_parse, JsonFile.heap, zoom, Heap.parse.
      cbn [JsonFile.mem JsonFile.set_world].
      destruct (Heap.alloc j (cells (JsonFile.mem s))) as [v h]. cbv beta iota.
      unfold bind at 1, JsonFile.update at 1, modify at 1. cbv beta iota.
      unfold bind at 1.
      unfold JsonFile.io at 1, zoom, Fs.statSync, bind at 1, Fs.env, modify.
      cbv beta iota. unfold bind at 1, gets at 1. cbv beta iota.
      match goal with
      | |- context [match ?m !! JsonFile.filename x with _ => _ end] =>
          destruct (m !! JsonFile.filename x) as [f2|]
      end; cbv beta iota.
      * eexists. split; [reflexivity|]. intros Hno. destruct (Hno j). simpl. by rewrite Ec.
      * eexists. split; [reflexivity|]. intros Hno. destruct (Hno j). simpl. by rewrite Ec.
    + eexists. split; [reflexivity|]. intros _. cbn.
      rewrite list_lookup_alter_eq, Hobj. done.
  - eexists. split; [reflexivity|]. intros _. cbn.
    rewrite list_lookup_alter_eq, Hobj. done.
Qed.

(** A store opened on a disk without its file. *)
Lemma loadSync_never_throws_witness :
  exists s',
    JsonFile.loadSync 0 (Scenario.opened "cfg.json" ∅) = (Ok tt, s')
    /\ Scenario.loaded s' 0 = Some (Heap.SJson (JObj [])).
Proof.
  edestruct (loadSync_never_throws 0 (Scenario.opened "cfg.json" ∅))
    as (s' & E & _).
  - vm_compute. reflexivity.
  - exists s'. split; [exact E|].
    assert (s' = snd (JsonFile.loadSync 0 (Scenario.opened "cfg.json" ∅))) as ->
      by (by rewrite E).
    vm_compute. reflexivity.
Defined.

Section OpenFacts.
Import JsonFile.

(** [loadSync] on a file that holds JSON text, undisturbed. *)
Lemma loadSync_text (i : nat) (s : St) (x : JsonFile.t) (f : Fs.file) (j : json) :
  objects s !! i = Some x ->
  Fs.quiet (world s) ->
  Fs.files (world s) !! filename x = Some f ->
  Fs.f_content f = Fs.Text j ->
  exists w,
    loadSync i s
    = (Ok tt,
       set_objects
         (alter (set_lastModified (Fs.mtimeMs f)) i
            (alter (set__data (fst (Heap.alloc j (cells (mem s))))) i (objects s)))
         (set_world w
            (set_mem {| cells := snd (Heap.alloc j (cells (mem s)));
                        traps := traps (mem s) |} s)))
    /\ Fs.quiet w /\ Fs.files w = Fs.files (world s)
    /\ Fs.trace w = Fs.trace (world s).
Proof.
  intros Hobj Hq Hf Hc.
  destruct (step_readFileSync (filename x) s f Hq Hf) as (w1 & E1 & Hq1 & Hfs1 & Htr1 & _).
  set (m1 := {| cells := snd (Heap.alloc j (cells (mem s))); traps := traps (mem s) |}).
  set (s2 := set_objects (alter (set__data (fst (Heap.alloc j (cells (mem s))))) i (objects s))
               (set_mem m1 (set_world w1 s))).
  destruct (step_statSync (filename x) s2 f) as (w2 & E2 & Hq2 & Hfs2 & Htr2 & _).
  { done. }
  { subst s2. simpl. by rewrite Hfs1. }
  exists w2. split; [|split_and!].
  - unfold loadSync, try_catch. unfold bind at 1. unfold this at 1. rewrite Hobj.
    cbv beta iota. unfold bind at 1. rewrite E1. cbv beta iota. rewrite Hc.
    unfold bind at 1. unfold JSON_parse, heap, zoom, Heap.parse.
    cbn [mem set_world].
    destruct (Heap.alloc j (cells (mem s))) as [v h] eqn:Ea. cbv beta iota.
    unfold bind at 1, update at 1, modify at 1. cbv beta iota.
    cbn [fst snd] in *. fold m1. 
    change (set_objects (alter (set__data v) i (objects (set_mem m1 (set_world w1 s))))
              (set_mem m1 (set_world w1 s))) with s2.
    unfold bind at 1. rewrite E2. cbv beta iota. reflexivity.
  - done.
  - subst s2. simpl in Hfs2. by rewrite Hfs2, Hfs1.
  - subst s2. simpl in Htr2. by rewrite Htr2, Htr1.
Qed.

Lemma alloc_primitive (j : json) (h : list cell) :
  match j with JArr _ | JObj _ => False | _ => True end ->
  snd (Heap.alloc j h) = h
  /\ forall l, fst (Heap.alloc j h) <> VRef l.
Proof. destruct j; simpl; try done. Qed.

Lemma split_not_nil (sep : ascii) (p : string) : Str.split sep p <> [].
Proof.
  induction p as [|c p IH]; simpl; [done|].
  destruct (Ascii.eqb c sep); [done|]. by destruct (Str.split sep p).
Qed.

End OpenFacts.

Section BrokenStore.
Import JsonFile.

(** The traversal functions on [undefined]. *)
Lemma getDeep_undefined (path : string) (m : Mem) :
  exists msg, Traverse.getDeep (RPlain VUndef) path m = (Throw (JsError msg), m).
Proof.
  unfold Traverse.getDeep. cbv zeta.
  destruct (Str.split "/"%char path) as [|k ks] eqn:E.
  - by apply split_not_nil in E.
  - rewrite traverse_cons. unfold bind. simpl. eauto.
Qed.

Lemma setDeep_undefined (path : string) (v : jsval) (m : Mem) :
  exists msg, Traverse.setDeep (RPlain VUndef) path v m = (Throw (JsError msg), m).
Proof.
  unfold Traverse.setDeep, Traverse.pop_last.
  destruct (removelast (Str.split "/"%char path)) as [|k ks].
  - simpl. unfold bind, ret. eauto.
  - rewrite traverse_cons. unfold bind. simpl. eauto.
Qed.

End BrokenStore.

(** X12: a backing file that holds a JSON primitive ([null], a number, a
    string, a boolean) leaves a broken store behind: the constructor
    throws a [TypeError] when it builds the proxy, but it has already
    registered the object and started its watcher; [getInstance] then
    hands out this object, which has no [data]: every [get] returns its
    default and every [set] throws. *)
Theorem primitive_document_leaves_broken_store (file : string)
        (options : JsonFile.Options) (s : JsonFile.St) (f : Fs.file) (j : json) :
  JsonFile._instances s !! file = None ->
  Fs.quiet (JsonFile.world s) ->
  Fs.files (JsonFile.world s) !! file = Some f ->
  Fs.f_content f = Fs.Text j ->
  match j with JArr _ | JObj _ => False | _ => True end ->
  exists s' x,
    snd (JsonFile.getInstance file options s) = s'
    /\ (exists msg, fst (JsonFile.getInstance file options s) = Throw (JsTypeError msg))
    /\ JsonFile._instances s' !! file = Some (length (JsonFile.objects s))
    /\ JsonFile.objects s' !! length (JsonFile.objects s) = Some x
    /\ JsonFile.data x = None
    /\ JsonFile._watcherInterval x = true
    /\ JsonFile.getInstance file options s' = (Ok (length (JsonFile.objects s)), s')
    /\ (forall key d, fst (JsonFile.get (length (JsonFile.objects s)) key d s')
                      = Ok (JsonFile.or_null d))
    /\ (forall key v, exists msg,
          fst (JsonFile.set (length (JsonFile.objects s)) key v s') = Throw (JsError msg)).
Proof.
  intros Hnone Hq Hf Hc Hprim.
  set (i := length (JsonFile.objects s)).
  set (x0 := {| JsonFile.filename := file;
                JsonFile._lockPath := file +:+ ".lock";
                JsonFile._lockHolder := None;
                JsonFile._lastModified := 0;
                JsonFile._batchMode := false;
                JsonFile._queuedSave := false;
                JsonFile.lockRetryInterval :=
                  JsonFile.or_default (JsonFile.o_lockRetryInterval options) 100;
                JsonFile._lockTimeout :=
                  JsonFile.or_default (JsonFile.o_lockTimeout options) 5000;
                JsonFile.lockMaxAge :=
                  JsonFile.or_default (JsonFile.o_lockMaxAge options) 30;
                JsonFile.watchInterval :=
                  JsonFile.or_default (JsonFile.o_watchInterval options) 3000;
                JsonFile._data := VUndef;
                JsonFile.data := None;
                JsonFile._watcherInterval := false |}).
  set (s_a := JsonFile.set_instances (<[file := i]> (JsonFile._instances s))
                (JsonFile.set_objects (JsonFile.objects s ++ [x0]) s)).
  assert (Hobj_a : JsonFile.objects s_a !! i = Some x0).
  { subst s_a i. simpl. by rewrite list_lookup_middle. }
  destruct (loadSync_text i s_a x0 f j Hobj_a Hq Hf Hc) as (w & El & _).
  destruct (alloc_primitive j (cells (JsonFile.mem s_a)) Hprim) as [Hh Hv].
  set (s_b := JsonFile.set_objects _ _) in El.
  set (x_b := JsonFile.set_lastModified (Fs.mtimeMs f)
                (JsonFile.set__data (fst (Heap.alloc j (cells (JsonFile.mem s_a)))) x0)).
  assert (Hobj_b : JsonFile.objects s_b !! i = Some x_b).
  { subst s_b. cbn [JsonFile.objects JsonFile.set_objects].
    by rewrite !list_lookup_alter_eq, Hobj_a. }
  set (s_c := JsonFile.set_objects
                (alter (JsonFile.set_watcherInterval true) i (JsonFile.objects s_b)) s_b).
  assert (Hobj_c : JsonFile.objects s_c !! i = Some (JsonFile.set_watcherInterval true x_b)).
  { subst s_c. cbn [JsonFile.objects JsonFile.set_objects].
    by rewrite list_lookup_alter_eq, Hobj_b. }
  assert (Hctor : exists msg,
            JsonFile.constructor file options s = (Throw (JsTypeError msg), s_c)).
  { unfold JsonFile.constructor. unfold bind at 1. unfold gets at 1. cbv beta iota.
    rewrite Hnone. unfold bind at 1. unfold gets at 1. cbv beta iota.
    unfold bind at 1. unfold modify at 1. cbv beta iota.
    fold i. fold x0. fold s_a.
    unfold bind at 1. rewrite El. cbv beta iota.
    unfold bind at 1. unfold JsonFile._setupWatcher, JsonFile.update, modify.
    cbv beta iota. fold s_c.
    unfold bind at 1. unfold JsonFile._setupProxy. unfold bind at 1.
    unfold JsonFile.this at 1. rewrite Hobj_c. cbv beta iota.
    cbn [JsonFile._data JsonFile.set_watcherInterval x_b JsonFile.set_lastModified
         JsonFile.set__data].
    destruct (fst (Heap.alloc j (cells (JsonFile.mem s_a)))) as [| | | | |l] eqn:Ev;
      try (eexists; reflexivity).
    by destruct (Hv l). }
  destruct Hctor as [msg Hctor].
  assert (Hget : JsonFile.getInstance file options s = (Throw (JsTypeError msg), s_c)).
  { unfold JsonFile.getInstance. unfold bind at 1. unfold gets at 1. cbv beta iota.
    rewrite Hnone. unfold bind at 1. unfold bind at 1. rewrite Hctor. reflexivity. }
  assert (Hreg : JsonFile._instances s_c !! file = Some i).
  { subst s_c s_b s_a. simpl. by rewrite lookup_insert_eq. }
  exists s_c, (JsonFile.set_watcherInterval true x_b).
  rewrite Hget. split_and!; try done.
  - eauto.
  - by apply getInstance_registered.
  - intros key d. unfold JsonFile.get, try_catch.
    rewrite (on_data_eq _ _ _ _ Hobj_c). cbn [JsonFile.data  JsonFile.set_watcherInterval
      x_b JsonFile.set_lastModified JsonFile.set__data x0]. cbv zeta.
    destruct (getDeep_undefined key {| cells := cells (JsonFile.mem s_c); traps := 0 |})
      as [m ->]. reflexivity.
  - intros key v. unfold JsonFile.set.
    rewrite (on_data_eq _ _ _ _ Hobj_c). cbn [JsonFile.data  JsonFile.set_watcherInterval
      x_b JsonFile.set_lastModified JsonFile.set__data x0]. cbv zeta.
    destruct (setDeep_undefined key v {| cells := cells (JsonFile.mem s_c); traps := 0 |})
      as [m ->]. exists m. reflexivity.
Qed.

Lemma primitive_document_leaves_broken_store_witness :
  exists s',
    snd (JsonFile.getInstance "cfg.json" JsonFile.no_options Scenario.null_disk) = s'
    /\ JsonFile._instances s' !! "cfg.json" = Some 0%nat
    /\ JsonFile.getInstance "cfg.json" JsonFile.no_options s' = (Ok 0%nat, s')
    /\ fst (JsonFile.get 0 "theme" (VStr "dark") s') = Ok (VStr "dark").
Proof.
  edestruct (primitive_document_leaves_broken_store "cfg.json" JsonFile.no_options
               Scenario.null_disk) with (j := JNull)
    as (s' & x & E & _ & Hreg & _ & _ & _ & Hget & Hg & _).
  - vm_compute. reflexivity.
  - vm_compute. constructor.
  - vm_compute. reflexivity.
  - vm_compute. reflexivity.
  - exact I.
  - exists s'. split_and!; [exact E|exact Hreg|exact Hget|apply (Hg "theme" (VStr "dark"))].
Defined.

(** ** What a parsed key is made of *)

Section ParseFacts.

Lemma break_at_spec (c : ascii) (s a r : string) :
  Str.break_at c s = Some (a, r) -> s = a +:+ String c r /\ Str.mem c a = false.
Proof.
  revert a. induction s as [|d s IH]; intros a; simpl; [done|].
  destruct (Ascii.eqb_spec d c) as [->|Hne].
  - intros [= <- <-]. done.
  - destruct (Str.break_at c s) as [[a' r']|]; [|done].
    intros [= <- <-]. destruct (IH a' eq_refl) as [-> Hm]. split; [done|].
    simpl. rewrite Hm. destruct (Ascii.eqb_spec c d); [congruence|done].
Qed.

Lemma split_pieces (sep : ascii) (s : string) :
  Forall (fun p => Str.mem sep p = false) (Str.split sep s).
Proof.
  induction s as [|d s IH]; simpl.
  - by repeat constructor.
  - destruct (Ascii.eqb_spec d sep) as [->|Hne].
    + by constructor.
    + destruct (Str.split sep s) as [|w ws].
      * repeat constructor. simpl.
        destruct (Ascii.eqb_spec sep d); [congruence|done].
      * apply Forall_cons in IH as [Hw Hws]. constructor; [|done]. simpl.
        rewrite Hw. destruct (Ascii.eqb_spec sep d); [congruence|done].
Qed.

Lemma mem_split (c sep : ascii) (s : string) :
  Str.mem c s = false -> Forall (fun p => Str.mem c p = false) (Str.split sep s).
Proof.
  induction s as [|d s IH]; simpl.
  - by repeat constructor.
  - intros [Hd Hs]%orb_false_elim. specialize (IH Hs).
    destruct (Ascii.eqb d sep).
    + by constructor.
    + destruct (Str.split sep s) as [|w ws].
      * repeat constructor. simpl. by rewrite Hd.
      * apply Forall_cons in IH as [Hw Hws]. constructor; [|done]. simpl.
        by rewrite Hd, Hw.
Qed.

Lemma obj_set_Forall {V} (P : string * V -> Prop) k (v : V) (o : Obj.props V) :
  P (k, v) -> Forall P o -> Forall P (Obj.set k v o).
Proof.
  intros Hkv. induction 1 as [|[k' v'] o Hx Ho IH]; simpl.
  - by repeat constructor.
  - destruct (String.eqb k k'); by constructor.
Qed.

(** One pair of an attribute prefix keeps the attribute object well
    formed. *)
Lemma add_pair_keeps (acc : Key.attrs) (pair : string) :
  Str.mem "&" pair = false -> Str.mem "}" pair = false ->
  Forall (fun e => Key.wf_attr e = true) acc -> NoDup (map fst acc) ->
  Forall (fun e => Key.wf_attr e = true) (Key.add_pair acc pair)
  /\ NoDup (map fst (Key.add_pair acc pair)).
Proof.
  intros Hamp Hbrace Hwf Hnd. unfold Key.add_pair.
  pose proof (split_pieces "="%char pair) as Heq.
  pose proof (mem_split "&"%char "="%char pair Hamp) as Ha.
  pose proof (mem_split "}"%char "="%char pair Hbrace) as Hb.
  destruct (Str.split "="%char pair) as [|k [|v rest]]; [done..|].
  apply Forall_cons in Heq as [Hk1 [Hv1 _]%Forall_cons].
  apply Forall_cons in Ha as [Hk2 [Hv2 _]%Forall_cons].
  apply Forall_cons in Hb as [Hk3 [Hv3 _]%Forall_cons].
  destruct (Str.nonempty k) eqn:Hk0; [|done].
  destruct (Str.nonempty v) eqn:Hv0; [|done].
  simpl. unfold Key.obj_assign.
  destruct (String.eqb k "__proto__") eqn:Hp; [done|]. split.
  - apply obj_set_Forall; [|done].
    unfold Key.wf_attr, Key.token. simpl.
    by rewrite Hk0, Hv0, Hk1, Hk2, Hk3, Hv1, Hv2, Hv3, Hp.
  - by apply obj_set_nodup.
Qed.

Lemma fold_add_pair_keeps (pairs : list string) (acc : Key.attrs) :
  Forall (fun p => Str.mem "&" p = false) pairs ->
  Forall (fun p => Str.mem "}" p = false) pairs ->
  Forall (fun e => Key.wf_attr e = true) acc -> NoDup (map fst acc) ->
  Forall (fun e => Key.wf_attr e = true) (fold_left Key.add_pair pairs acc)
  /\ NoDup (map fst (fold_left Key.add_pair pairs acc)).
Proof.
  revert acc. induction pairs as [|p pairs IH]; intros acc Ha Hb Hwf Hnd; simpl.
  - done.
  - apply Forall_cons in Ha as [Hpa Ha]. apply Forall_cons in Hb as [Hpb Hb].
    destruct (add_pair_keeps acc p Hpa Hpb Hwf Hnd) as [Hwf' Hnd'].
    by apply IH.
Qed.

(** Whatever the key, the attributes read from it are well formed and
    have distinct names; a key that matched the prefix pattern leaves
    a base key the pattern accepts. *)
Lemma parse_attrs_wf (key : string) :
  Forall (fun e => Key.wf_attr e = true) (fst (Key.parseKeyWithAttributes key))
  /\ NoDup (map fst (fst (Key.parseKeyWithAttributes key)))
  /\ (fst (Key.parseKeyWithAttributes key) <> [] ->
      Key.wf_base (snd (Key.parseKeyWithAttributes key)) = true).
Proof.
  unfold Key.parseKeyWithAttributes.
  destruct (Key.match_attr_prefix key) as [[attrsStr actualKey]|] eqn:E; simpl.
  2: { split_and!; [constructor|constructor|done]. }
  unfold Key.match_attr_prefix in E.
  destruct key as [|c rest]; [done|].
  destruct (Ascii.eqb_spec c "{"%char) as [->|Hne].
  2: { destruct c as [[] [] [] [] [] [] [] []]; try done. }
  destruct (Str.break_at "}"%char rest) as [[a r]|] eqn:Eb; [|done].
  destruct (Str.nonempty a && Str.nonempty r && negb (Str.has_line_terminator r)) eqn:Ec;
    [|done].
  injection E as <- <-.
  apply break_at_spec in Eb as [_ Hbrace].
  destruct (fold_add_pair_keeps (Str.split "&"%char a) []) as [Hwf Hnd].
  - apply split_pieces.
  - by apply mem_split.
  - constructor.
  - constructor.
  - split_and!; [done|done|]. intros _. unfold Key.wf_base.
    apply andb_true_iff in Ec as [[_ ->]%andb_true_iff ->]. done.
Qed.

End ParseFacts.

(** ** What the flags add *)

Section FlagFacts.
Variable host : Config.Host.


Lemma elem_of_obj_set {V} (k : string) (v : V) (o : Obj.props V) (e : string * V) :
  NoDup (map fst o) ->
  e ∈ Obj.set k v o <-> e = (k, v) \/ (e ∈ o /\ fst e <> k).
Proof.
  intros Hnd. rewrite (obj_set_perm k v o Hnd). rewrite elem_of_cons.
  rewrite list_elem_of_In, filter_In, <- list_elem_of_In, negb_true_iff.
  rewrite String.eqb_neq. intuition congruence.
Qed.

Lemma elem_of_spread (o : Key.attrs) (k v : string) (e : string * string) :
  NoDup (map fst o) ->
  e ∈ Key.spread_with o k v <-> e = (k, v) \/ (e ∈ o /\ fst e <> k).
Proof.
  intros Hnd. unfold Key.spread_with. rewrite elem_of_obj_set.
  - by rewrite entries_perm.
  - by rewrite entries_perm.
Qed.

Lemma spread_nodup (o : Key.attrs) (k v : string) :
  NoDup (map fst o) -> NoDup (map fst (Key.spread_with o k v)).
Proof.
  intros Hnd. unfold Key.spread_with. apply obj_set_nodup. by rewrite entries_perm.
Qed.


Lemma handler_other (flag : string) :
  flag <> "pluginOnly" -> flag <> "folderOnly" -> Config.handler host flag = None.
Proof.
  intros H1 H2. unfold Config.handler.
  by rewrite (proj2 (String.eqb_neq _ _) H1), (proj2 (String.eqb_neq _ _) H2).
Qed.

(** What the loop over the flags leaves in the attribute object. *)
Lemma flags_result (fl : list string) :
  forall (o a : Key.attrs),
    Config.processFlags_loop host fl o = Ok a ->
    NoDup (map fst o) ->
    NoDup (map fst a)
    /\ (forall e, e ∈ a ->
          e ∈ o \/ (exists id, Config.plugin_id host = Some id /\ e = ("pluginId", id))
          \/ e = ("folderOnly", "true"))
    /\ ("pluginOnly" ∈ fl ->
        exists id, Config.plugin_id host = Some id /\ ("pluginId", id) ∈ a)
    /\ ("folderOnly" ∈ fl -> ("folderOnly", "true") ∈ a)
    /\ (forall e, e ∈ o -> fst e <> "pluginId" -> fst e <> "folderOnly" -> e ∈ a)
    /\ (forall id, Config.plugin_id host = Some id ->
                   ("pluginId", id) ∈ o -> ("pluginId", id) ∈ a)
    /\ (("folderOnly", "true") ∈ o -> ("folderOnly", "true") ∈ a).
Proof.
  induction fl as [|flag fl IH]; intros o a Hrun Hnd.
  - simpl in Hrun. injection Hrun as <-. split_and!; try done.
    + intros e He. by left.
    + intros H. by apply elem_of_nil in H.
    + intros H. by apply elem_of_nil in H.
  - cbn [Config.processFlags_loop] in Hrun.
    destruct (decide (flag = "pluginOnly")) as [->|Hp].
    + unfold Config.handler in Hrun. simpl in Hrun.
      destruct (Config.plugin_id host) as [id|] eqn:Eid; [|done].
      destruct (IH _ _ Hrun (spread_nodup o "pluginId" id Hnd))
        as (H1 & H2 & H3 & H4 & H5 & H6 & H7).
      split_and!.
      * done.
      * intros e He. destruct (H2 e He) as [Ho|[?|?]]; [|by right; left|by right; right].
        apply elem_of_spread in Ho; [|done].
        destruct Ho as [->|[? _]]; [right; left; eauto|by left].
      * intros _. exists id. split; [done|]. apply (H6 id); [done|].
        apply elem_of_spread; [done|]. by left.
      * intros [?|Hin]%elem_of_cons; [done|]. by apply H4.
      * intros e He Hn1 Hn2. apply H5; try done.
        apply elem_of_spread; [done|]. by right.
      * intros id' [= ->] _. apply (H6 id'); [done|].
        apply elem_of_spread; [done|]. by left.
      * intros Hin. apply H7. apply elem_of_spread; [done|]. by right.
    + destruct (decide (flag = "folderOnly")) as [->|Hf].
      * unfold Config.handler in Hrun. simpl in Hrun.
        destruct (IH _ _ Hrun (spread_nodup o "folderOnly" "true" Hnd))
          as (H1 & H2 & H3 & H4 & H5 & H6 & H7).
        split_and!.
        -- done.
        -- intros e He. destruct (H2 e He) as [Ho|[?|?]]; [|by right; left|by right; right].
           apply elem_of_spread in Ho; [|done].
           destruct Ho as [->|[? _]]; [by right; right|by left].
        -- intros [?|Hin]%elem_of_cons; [done|]. by apply H3.
        -- intros _. apply H7. apply elem_of_spread; [done|]. by left.
        -- intros e He Hn1 Hn2. apply H5; try done.
           apply elem_of_spread; [done|]. by right.
        -- intros id Hid Hin. apply (H6 id); [done|].
           apply elem_of_spread; [done|]. by right.
        -- intros _. apply H7. apply elem_of_spread; [done|]. by left.
      * rewrite handler_other in Hrun by done.
        destruct (IH _ _ Hrun Hnd) as (H1 & H2 & H3 & H4 & H5 & H6 & H7).
        split_and!; try done.
        -- intros [?|Hin]%elem_of_cons; [done|]. by apply H3.
        -- intros [?|Hin]%elem_of_cons; [done|]. by apply H4.
Qed.


End FlagFacts.

(** ** Flags and the constructor *)

Section Validation.
Variable host : Config.Host.

Lemma validateFlags_iff (scope : string) (flags : list string) :
  Config.validateFlags host scope flags = Ok tt
  <-> (("pluginOnly" ∈ flags -> scope <> "plugin" /\ is_Some (Config.plugin_id host))
       /\ ("folderOnly" ∈ flags -> scope <> "folder")).
Proof.
  induction flags as [|flag flags IH]; simpl.
  - split; [|done]. intros _. split; intros H; by apply elem_of_nil in H.
  - unfold Config.invalidScopes, Config.requiresContext.
    destruct (String.eqb_spec flag "pluginOnly") as [->|Hp].
    + simpl. destruct (String.eqb_spec scope "plugin") as [->|Hs].
      * split; [done|]. intros [H _]. destruct H as [H _]; [by left|done].
      * destruct (Config.plugin_id host) as [id|].
        -- rewrite IH. split.
           ++ intros [H1 H2]. split; [eauto|].
              intros [?|Hin]%elem_of_cons; [done|]. by apply H2.
           ++ intros [H1 H2]. split; [eauto|].
              intros Hin. apply H2. by right.
        -- split; [done|]. intros [H _]. destruct H as [_ [? ?]]; [by left|done].
    + destruct (String.eqb_spec flag "folderOnly") as [->|Hf].
      * simpl. destruct (String.eqb_spec scope "folder") as [->|Hs].
        -- split; [done|]. intros [_ H]. destruct H; [by left|done].
        -- rewrite IH. split.
           ++ intros [H1 H2]. split; [|done].
              intros [?|Hin]%elem_of_cons; [done|]. by apply H1.
           ++ intros [H1 H2]. split; [|eauto].
              intros Hin. apply H1. by right.
      * rewrite IH. split.
        -- intros [H1 H2]. split.
           ++ intros [?|Hin]%elem_of_cons; [done|]. by apply H1.
           ++ intros [?|Hin]%elem_of_cons; [done|]. by apply H2.
        -- intros [H1 H2]. split.
           ++ intros Hin. apply H1. by right.
           ++ intros Hin. apply H2. by right.
Qed.

End Validation.

(** X13: [config(scope, flags)] succeeds exactly when [pluginOnly] is not
    combined with the plugin scope or a missing plugin, and [folderOnly]
    is not combined with the folder scope.  Nothing else is checked:
    unknown flags and unknown scope names are accepted.  The new object
    has no arguments and no store yet, upstream storage is switched on
    and its threshold is 3. *)
Theorem config_accepts_iff (host : Config.Host) (scope : string) (flags : list string) :
  ((exists c, Config.config host scope flags = Ok c)
   <-> (("pluginOnly" ∈ flags -> scope <> "plugin" /\ is_Some (Config.plugin_id host))
        /\ ("folderOnly" ∈ flags -> scope <> "folder")))
  /\ (forall c, Config.config host scope flags = Ok c ->
        Config.scope c = scope
        /\ Config._args c = None /\ Config._cache c = None
        /\ Config.keyUpstreamToggle c = true /\ Config.keyUpstreamThreshold c = 3
        /\ Config.shouldUseUpstream c = false).
Proof.
  split.
  - rewrite <- validateFlags_iff. unfold Config.config.
    destruct (Config.validateFlags host scope flags) as [[]|e|]; split; try done; eauto.
    + by intros [c ?].
    + by intros [c ?].
  - intros c. unfold Config.config.
    destruct (Config.validateFlags host scope flags) as [[]|e|]; [|done..].
    intros [= <-]. done.
Qed.

(** ** Keys *)

(** X14: building a key from an attribute object and parsing it again
    gives the attribute object and the base key back: the same
    attributes with the same values (in sorted order) around the same
    base key. *)
Theorem parse_build_round_trip (cmp : string -> string -> Z)
        (attributes : Key.attrs) (base : string) :
  attributes <> [] ->
  Forall (fun e => Key.wf_attr e = true) attributes ->
  NoDup (map fst attributes) ->
  Key.wf_base base = true ->
  exists parsed,
    Key.parseKeyWithAttributes (Key.buildKeyWithAttributes cmp attributes base)
    = (parsed, base)
    /\ parsed ≡ₚ attributes.
Proof.
  intros Hne Hwf Hnd Hbase.
  assert (Hperm : js_sort (Key.by_name cmp) (Obj.entries attributes) ≡ₚ attributes).
  { by rewrite js_sort_perm, entries_perm. }
  exists (js_sort (Key.by_name cmp) (Obj.entries attributes)). split; [|done].
  unfold Key.buildKeyWithAttributes.
  destruct (Obj.entries attributes) as [|e es] eqn:E.
  { exfalso. apply Hne. apply Permutation_nil. by rewrite <- Hperm. }
  apply parse_prefixed.
  - intros Hnil. rewrite Hnil in Hperm. apply Hne. by apply Permutation_nil.
  - by rewrite Hperm.
  - by rewrite Hperm.
  - done.
Qed.

Lemma parse_build_round_trip_witness :
  Key.parseKeyWithAttributes
    (Key.buildKeyWithAttributes Scenario.codeUnitCompare
       [("ref", "k3x9f2a7"); ("folderOnly", "true")] "theme")
  = ([("folderOnly", "true"); ("ref", "k3x9f2a7")], "theme").
Proof.
  edestruct (parse_build_round_trip Scenario.codeUnitCompare
               [("ref", "k3x9f2a7"); ("folderOnly", "true")] "theme")
    as (parsed & E & _).
  - discriminate.
  - repeat constructor.
  - simpl. apply NoDup_cons. split; [|apply NoDup_singleton].
    intros Hin%list_elem_of_singleton. discriminate Hin.
  - reflexivity.
  - rewrite E. f_equal.
    assert (parsed = fst (Key.parseKeyWithAttributes
                            (Key.buildKeyWithAttributes Scenario.codeUnitCompare
                               [("ref", "k3x9f2a7"); ("folderOnly", "true")] "theme"))) as ->
      by (by rewrite E).
    vm_compute. reflexivity.
Defined.

Section BuildKeyFacts.
Variable host : Config.Host.

Lemma buildKey_eq (key : string) (s : Config.State) :
  Config.buildKey host key s
  = (match Config.processFlags_loop host (Config.flags (Config.self s))
             (Obj.entries (fst (Key.parseKeyWithAttributes key))) with
     | Ok a => Ok (Key.buildKeyWithAttributes (Config.localeCompare host) a
                     (snd (Key.parseKeyWithAttributes key)))
     | Throw e => Throw e
     | Diverge => Diverge
     end, s).
Proof.
  unfold Config.buildKey, bind, gets, Config.lift_res, ret, Config.processFlags.
  destruct (Key.parseKeyWithAttributes key) as [attributes baseKey]. simpl.
  by destruct (Config.processFlags_loop host _ _).
Qed.

(** A pair without [=] adds no attribute. *)
Lemma fold_add_pair_junk (pairs : list string) (acc : Key.attrs) :
  Forall (fun p => Str.mem "=" p = false) pairs ->
  fold_left Key.add_pair pairs acc = acc.
Proof.
  revert acc. induction pairs as [|p pairs IH]; intros acc Hp; simpl; [done|].
  apply Forall_cons in Hp as [Hp Hps]. rewrite <- (IH acc Hps) at 2. f_equal.
  unfold Key.add_pair. by rewrite split_no_sep.
Qed.

End BuildKeyFacts.

(** X15: an attribute prefix without a valid [name=value] pair is
    dropped: with no flags set, the key [{junk}base] is stored under
    [base], the same entry as the key [base] itself. *)
Theorem prefix_without_pairs_is_dropped (host : Config.Host) (s : Config.State)
        (junk base : string) :
  Config.flags (Config.self s) = [] ->
  Str.nonempty junk = true ->
  Str.mem "}" junk = false ->
  Str.mem "=" junk = false ->
  Key.wf_base base = true ->
  Config.buildKey host ("{" +:+ junk +:+ "}" +:+ base) s = (Ok base, s).
Proof.
  intros Hflags Hne Hbrace Heq [Hb Ht]%andb_true_iff. apply negb_true_iff in Ht.
  rewrite buildKey_eq, Hflags. unfold Key.parseKeyWithAttributes.
  change ("{" +:+ junk +:+ "}" +:+ base) with (String "{"%char (junk +:+ String "}"%char base)).
  rewrite match_attr_prefix_brace, break_at_append by done.
  rewrite Hne, Hb, Ht. simpl.
  rewrite fold_add_pair_junk by (by apply mem_split). reflexivity.
Qed.

Lemma prefix_without_pairs_is_dropped_witness :
  Config.buildKey (Scenario.host None) "{draft&v2}theme" Scenario.user_state
  = (Ok "theme", Scenario.user_state).
Proof.
  apply (prefix_without_pairs_is_dropped (Scenario.host None) Scenario.user_state
           "draft&v2" "theme"); reflexivity.
Defined.

(** X16: the flags stamp every key: whatever key the caller writes, the
    key built under [pluginOnly] carries [pluginId=<the plugin's id>]
    and the key built under [folderOnly] carries [folderOnly=true],
    each exactly once (a value the caller wrote for that name is
    replaced), next to the caller's other attributes. *)
Theorem flags_stamp_every_key (host : Config.Host) (s : Config.State)
        (key k : string) (s' : Config.State) :
  "pluginOnly" ∈ Config.flags (Config.self s)
  \/ "folderOnly" ∈ Config.flags (Config.self s) ->
  Config.buildKey host key s = (Ok k, s') ->
  exists es,
    k = Key.prefixed es (snd (Key.parseKeyWithAttributes key))
    /\ NoDup (map fst es)
    /\ ("pluginOnly" ∈ Config.flags (Config.self s) ->
        exists id, Config.plugin_id host = Some id /\ ("pluginId", id) ∈ es)
    /\ ("folderOnly" ∈ Config.flags (Config.self s) -> ("folderOnly", "true") ∈ es)
    /\ (forall e, e ∈ fst (Key.parseKeyWithAttributes key) ->
                  fst e <> "pluginId" -> fst e <> "folderOnly" -> e ∈ es).
Proof.
  intros Hflag. rewrite buildKey_eq.
  destruct (parse_attrs_wf key) as (_ & Hnd & _).
  destruct (Config.processFlags_loop host _ _) as [a|e|] eqn:Ea; [|done..].
  intros [= <- <-].
  destruct (flags_result host _ _ _ Ea) as (H1 & H2 & H3 & H4 & H5 & _).
  { by rewrite entries_perm. }
  assert (Hperm : js_sort (Key.by_name (Config.localeCompare host)) (Obj.entries a) ≡ₚ a).
  { by rewrite js_sort_perm, entries_perm. }
  exists (js_sort (Key.by_name (Config.localeCompare host)) (Obj.entries a)).
  split_and!.
  - unfold Key.buildKeyWithAttributes.
    destruct (Obj.entries a) as [|e es] eqn:E; [|done].
    exfalso. rewrite ?E in Hperm. simpl in Hperm.
    apply Permutation_nil in Hperm. subst a.
    destruct Hflag as [Hf|Hf].
    + destruct (H3 Hf) as (id & _ & Hin). by apply elem_of_nil in Hin.
    + specialize (H4 Hf). by apply elem_of_nil in H4.
  - by rewrite Hperm.
  - intros Hf. destruct (H3 Hf) as (id & Hid & Hin). exists id. by rewrite Hperm.
  - intros Hf. rewrite Hperm. by apply H4.
  - intros e He Hn1 Hn2. rewrite Hperm. apply H5; try done. by rewrite entries_perm.
Qed.

Lemma flags_stamp_every_key_witness :
  exists es,
    "{a=1&b=2&pluginId=my-plugin}theme" = Key.prefixed es "theme"
    /\ ("pluginId", "my-plugin") ∈ es
    /\ NoDup (map fst es).
Proof.
  edestruct (flags_stamp_every_key (Scenario.host None)
               (Scenario.start (Scenario.flagged Config.ITEM ["pluginOnly"])
                  (Scenario.world_at Scenario.t0 ∅ []))
               "{b=2&pluginId=other&a=1}theme"
               "{a=1&b=2&pluginId=my-plugin}theme")
    as (es & E & Hnd & Hp & _).
  - left. vm_compute. by left.
  - vm_compute. reflexivity.
  - destruct Hp as (id & Hid & Hin); [vm_compute; by left|].
    injection Hid as <-.
    exists es. split_and!; [exact E|exact Hin|exact Hnd].
Defined.



(** ** The store behind a scope *)

Section CacheFacts.
Variable host : Config.Host.

Lemma getCache_cached (s : Config.State) (i : nat) :
  Config._cache (Config.self s) = Some i -> Config.getCache host s = (Ok i, s).
Proof. intros H. unfold Config.getCache, bind, gets. by rewrite H. Qed.

Lemma getCache_fresh (s : Config.State) :
  Config._cache (Config.self s) = None ->
  Config.getCache host s
  = match Config.createCache host s with
    | (Ok i, s1) => (Ok i, Config.set_self (Config.set_cache (Some i) (Config.self s1)) s1)
    | (Throw e, s1) => (Throw e, s1)
    | (Diverge, s1) => (Diverge, s1)
    end.
Proof.
  intros H. unfold Config.getCache. unfold bind at 1, gets at 1. rewrite H.
  unfold bind at 1. by destruct (Config.createCache host s) as [[i|e|] s1].
Qed.

Lemma getInstance_ok_registered (file : string) (options : JsonFile.Options)
      (s s' : JsonFile.St) (i : nat) :
  JsonFile.getInstance file options s = (Ok i, s') ->
  JsonFile._instances s' !! file = Some i.
Proof.
  unfold JsonFile.getInstance. unfold bind at 1, gets at 1. cbv beta iota.
  unfold bind at 1.
  destruct ((match JsonFile._instances s !! file with
             | Some _ => ret ()
             | None =>
                 let* i0 := JsonFile.constructor file options in
                 modify (fun s0 => JsonFile.set_instances
                                     (<[file := i0]> (JsonFile._instances s0)) s0)
             end)%monad s) as [[u|e|] s1]; [|done..].
  unfold bind, gets. destruct (JsonFile._instances s1 !! file) as [j|] eqn:E; [|done].
  by intros [= <- <-].
Qed.

End CacheFacts.

(** X18: the application scope cannot open its store: [roamingPath] is
    imported as a function and handed to [path.join] without being
    called, so on a configuration made by [config("app", flags)] every
    [get], [set] and [supplyArgs] throws a [TypeError] and leaves the
    state as it was. *)
Theorem app_scope_always_throws (host : Config.Host) (flags : list string)
        (c : Config.t) (st : JsonFile.St) (rnd : list string) :
  Config.config host Config.APP flags = Ok c ->
  let s := {| Config.self := c; Config.store := st; Config.random := rnd |} in
  (forall key, exists msg, Config.get host key s = (Throw (JsTypeError msg), s))
  /\ (forall key v, exists msg, Config.set host key v s = (Throw (JsTypeError msg), s))
  /\ (forall key v, exists msg,
        Config.setdefault host key v s = (Throw (JsTypeError msg), s))
  /\ (forall key, exists msg, Config.pop host key s = (Throw (JsTypeError msg), s))
  /\ (forall args, exists e, fst (Config.supplyArgs host args s) = Throw e).
Proof.
  unfold Config.config.
  destruct (Config.validateFlags host Config.APP flags) as [[]|e|]; [|done..].
  intros Hc. injection Hc as <-. cbv zeta.
  set (s := {| Config.self := _; Config.store := st; Config.random := rnd |}).
  assert (Hcreate : exists msg, Config.createCache host s = (Throw (JsTypeError msg), s)).
  { eexists. reflexivity. }
  destruct Hcreate as [msg Hcreate].
  assert (Hget : forall key, Config.get host key s = (Throw (JsTypeError msg), s)).
  { intros key. unfold Config.get. unfold bind at 1, gets at 1. cbv beta iota.
    change (Config.shouldUseUpstream (Config.self s)) with false. cbv beta iota.
    unfold bind at 1. rewrite getCache_fresh by done. by rewrite Hcreate. }
  split_and!.
  - intros key. exists msg. apply Hget.
  - intros key v. exists msg. unfold Config.set. unfold bind at 1, gets at 1.
    cbv beta iota. change (Config.shouldUseUpstream (Config.self s)) with false.
    cbv beta iota. unfold bind at 1. rewrite getCache_fresh by done. by rewrite Hcreate.
  - intros key v. exists msg. unfold Config.setdefault. unfold bind at 1.
    by rewrite Hget.
  - intros key. exists msg. unfold Config.pop. unfold bind at 1. by rewrite Hget.
  - intros args. unfold Config.supplyArgs. unfold bind at 1.
    destruct (Config.truthy (Config.item args) && Config.truthy (Config.folder args)).
    + eexists. reflexivity.
    + unfold ret at 1. cbv beta iota. unfold bind at 1, gets at 1. cbv beta iota.
      unfold bind at 1.
      destruct (negb (Config.truthy (Config.item args))
                && negb (Config.truthy (Config.folder args))).
      * change (String.eqb (Config.scope (Config.self s)) Config.ITEM) with false.
        change (String.eqb (Config.scope (Config.self s)) Config.FOLDER) with false.
        cbv beta iota. unfold ret at 1. cbv beta iota. unfold bind at 1.
        rewrite Hcreate. eexists. reflexivity.
      * unfold modify at 1. cbv beta iota. unfold bind at 1. eexists. reflexivity.
Qed.

Lemma app_scope_always_throws_witness :
  exists msg,
    Config.get (Scenario.host None) "theme"
      (Scenario.start (Scenario.fresh Config.APP) (Scenario.world_at Scenario.t0 ∅ []))
    = (Throw (JsTypeError msg),
       Scenario.start (Scenario.fresh Config.APP) (Scenario.world_at Scenario.t0 ∅ [])).
Proof.
  edestruct (app_scope_always_throws (Scenario.host None) [] (Scenario.fresh Config.APP))
    as (Hget & _).
  - reflexivity.
  - apply (Hget "theme").
Defined.

(** X19: a scope name outside the six known ones is accepted by
    [config] and rejected only when the store is first needed: [get]
    and [set] throw [Invalid scope: <name>]. *)
Theorem unknown_scope_fails_late (host : Config.Host) (scope : string)
        (st : JsonFile.St) (rnd : list string) :
  scope ∉ [Config.APP; Config.PLUGIN; Config.ITEM; Config.FOLDER; Config.LIBRARY;
           Config.USER] ->
  exists c,
    Config.config host scope [] = Ok c
    /\ let s := {| Config.self := c; Config.store := st; Config.random := rnd |} in
       (forall key, Config.get host key s
                    = (Throw (JsError ("Invalid scope: " +:+ scope)), s))
       /\ (forall key v, Config.set host key v s
                         = (Throw (JsError ("Invalid scope: " +:+ scope)), s)).
Proof.
  intros Hscope. eexists. split; [reflexivity|]. cbv zeta.
  set (s := {| Config.self := _; Config.store := st; Config.random := rnd |}).
  assert (Hne : forall x, x ∈ [Config.APP; Config.PLUGIN; Config.ITEM; Config.FOLDER;
                               Config.LIBRARY; Config.USER] -> String.eqb scope x = false).
  { intros x Hx. apply String.eqb_neq. intros ->. done. }
  assert (Hcreate : Config.createCache host s
                    = (Throw (JsError ("Invalid scope: " +:+ scope)), s)).
  { unfold Config.createCache. unfold bind, gets. cbv beta iota.
    cbn [Config.scope Config.self s].
    rewrite !Hne; [done|..]; repeat (first [by left|right]). }
  split.
  - intros key. unfold Config.get. unfold bind at 1, gets at 1. cbv beta iota.
    change (Config.shouldUseUpstream (Config.self s)) with false. cbv beta iota.
    unfold bind at 1. rewrite getCache_fresh by done. by rewrite Hcreate.
  - intros key v. unfold Config.set. unfold bind at 1, gets at 1. cbv beta iota.
    change (Config.shouldUseUpstream (Config.self s)) with false. cbv beta iota.
    unfold bind at 1. rewrite getCache_fresh by done. by rewrite Hcreate.
Qed.

Lemma unknown_scope_fails_late_witness :
  exists c,
    Config.config (Scenario.host None) "global" [] = Ok c
    /\ Config.get (Scenario.host None) "theme"
         {| Config.self := c; Config.store := Scenario.boot (Scenario.world_at 0 ∅ []);
            Config.random := [] |}
       = (Throw (JsError "Invalid scope: global"),
          {| Config.self := c; Config.store := Scenario.boot (Scenario.world_at 0 ∅ []);
             Config.random := [] |}).
Proof.
  edestruct (unknown_scope_fails_late (Scenario.host None) "global"
               (Scenario.boot (Scenario.world_at 0 ∅ [])) [])
    as (c & Hc & Hget & _).
  - intros H. repeat (apply elem_of_cons in H as [H|H]; [discriminate H|]).
    by apply elem_of_nil in H.
  - exists c. split; [exact Hc|]. apply (Hget "theme").
Defined.

(** X20: the folder scope and the library scope share one store: both
    open [coolerConfig.json] in the library directory, so the store the
    folder scope has opened is the very object the library scope gets
    (and the one upstream storage writes to). *)
Theorem folder_and_library_share_store (host : Config.Host)
        (s1 s1' s2 : Config.State) (i : nat) :
  Config.scope (Config.self s1) = Config.FOLDER ->
  Config.scope (Config.self s2) = Config.LIBRARY ->
  Config.createCache host s1 = (Ok i, s1') ->
  Config.store s2 = Config.store s1' ->
  Config.createCache host s2 = (Ok i, s2)
  /\ Config.libraryConfig host s2 = (Ok i, s2).
Proof.
  intros Hs1 Hs2 Hc Hst.
  unfold Config.createCache in Hc. unfold bind at 1, gets at 1 in Hc.
  rewrite Hs1 in Hc. cbn [String.eqb Ascii.eqb Bool.eqb Config.APP Config.PLUGIN Config.ITEM
                          Config.FOLDER] in Hc. cbv beta iota in Hc.
  destruct (Config.library_path host) as [p|] eqn:Ep; [|done].
  destruct (negb (Config.nonempty_opt (Some p))) eqn:Hp; [done|].
  unfold Config.config_in, bind, ret, Config.file, zoom in Hc.
  destruct (JsonFile.getInstance _ _ (Config.store s1)) as [r st1] eqn:Eg.
  injection Hc as -> <-.
  apply getInstance_ok_registered in Eg. simpl in Hst. rewrite <- Hst in Eg.
  assert (Hlib : Config.libraryConfig host s2 = (Ok i, s2)).
  { unfold Config.libraryConfig, Config.config_in. rewrite Ep.
    unfold bind, ret, Config.file, zoom.
    rewrite (getInstance_registered _ _ _ i Eg). by destruct s2. }
  split; [|done].
  unfold Config.createCache. unfold bind at 1, gets at 1. rewrite Hs2.
  cbn [String.eqb Ascii.eqb Bool.eqb Config.APP Config.PLUGIN Config.ITEM
       Config.FOLDER Config.LIBRARY]. cbv beta iota. rewrite Ep, Hp.
  unfold Config.config_in, bind, ret, Config.file, zoom.
  rewrite (getInstance_registered _ _ _ i Eg). by destruct s2.
Qed.


Lemma folder_and_library_share_store_witness :
  Config.createCache Scenario.library_host
    (Config.set_self (Scenario.fresh Config.LIBRARY)
       (snd (Config.createCache Scenario.library_host
               (Scenario.start (Scenario.fresh Config.FOLDER)
                  (Scenario.world_at Scenario.t0 ∅ [])))))
  = (Ok 0%nat,
     Config.set_self (Scenario.fresh Config.LIBRARY)
       (snd (Config.createCache Scenario.library_host
               (Scenario.start (Scenario.fresh Config.FOLDER)
                  (Scenario.world_at Scenario.t0 ∅ []))))).
Proof.
  edestruct (folder_and_library_share_store Scenario.library_host
               (Scenario.start (Scenario.fresh Config.FOLDER)
                  (Scenario.world_at Scenario.t0 ∅ []))
               (snd (Config.createCache Scenario.library_host
                       (Scenario.start (Scenario.fresh Config.FOLDER)
                          (Scenario.world_at Scenario.t0 ∅ []))))
               (Config.set_self (Scenario.fresh Config.LIBRARY)
                  (snd (Config.createCache Scenario.library_host
                          (Scenario.start (Scenario.fresh Config.FOLDER)
                             (Scenario.world_at Scenario.t0 ∅ [])))))
               0) as [H _].
  - reflexivity.
  - reflexivity.
  - vm_compute. reflexivity.
  - reflexivity.
  - exact H.
Defined.

(** ** Direct storage *)

Section DirectFacts.
Variable host : Config.Host.

Lemma buildKey_same_self (key kk : string) (s s1 : Config.State) :
  Config.buildKey host key s = (Ok kk, s) ->
  Config.self s1 = Config.self s ->
  Config.buildKey host key s1 = (Ok kk, s1).
Proof.
  rewrite !buildKey_eq. intros [= H] ->. by rewrite H.
Qed.

Lemma config_set_direct (key kk : string) (v : jsval) (s : Config.State) (i : nat) :
  Config.shouldUseUpstream (Config.self s) = false ->
  Config._cache (Config.self s) = Some i ->
  Config.buildKey host key s = (Ok kk, s) ->
  Config.set host key v s
  = (fst (JsonFile.set i kk v (Config.store s)),
     Config.set_store (snd (JsonFile.set i kk v (Config.store s))) s).
Proof.
  intros Hup Hc Hk. unfold Config.set. unfold bind at 1, gets at 1. rewrite Hup.
  unfold bind at 1. rewrite (getCache_cached host s i Hc).
  unfold bind at 1. rewrite Hk. unfold Config.file, zoom.
  by destruct (JsonFile.set i kk v (Config.store s)).
Qed.

Lemma config_get_direct (key kk : string) (s : Config.State) (i : nat) :
  Config.shouldUseUpstream (Config.self s) = false ->
  Config._cache (Config.self s) = Some i ->
  Config.buildKey host key s = (Ok kk, s) ->
  Config.get host key s
  = (fst (JsonFile.get i kk VUndef (Config.store s)),
     Config.set_store (snd (JsonFile.get i kk VUndef (Config.store s))) s).
Proof.
  intros Hup Hc Hk. unfold Config.get. unfold bind at 1, gets at 1. rewrite Hup.
  unfold bind at 1. rewrite (getCache_cached host s i Hc).
  unfold bind at 1. rewrite Hk. unfold Config.file, zoom.
  by destruct (JsonFile.get i kk VUndef (Config.store s)).
Qed.

(** A one-segment [set] through the facade, and the [get] after it. *)
Lemma direct_set_get (s : Config.State) (i : nat) (x : JsonFile.t) (l : loc)
      (props : Obj.props jsval) (key kk : string) (v : jsval) :
  Config.shouldUseUpstream (Config.self s) = false ->
  Config._cache (Config.self s) = Some i ->
  JsonFile.objects (Config.store s) !! i = Some x ->
  JsonFile.data x = Some l ->
  cells (JsonFile.mem (Config.store s)) !! l = Some (CObj props) ->
  Config.buildKey host key s = (Ok kk, s) ->
  Str.mem "/" kk = false ->
  kk <> "__proto__" ->
  exists st1,
    Config.set host key v s = (Ok tt, Config.set_store st1 s)
    /\ fst (JsonFile.get i kk VUndef st1) = Ok v.
Proof.
  intros Hup Hc Hobj Hdata Hl Hk Hseg Hp.
  rewrite (config_set_direct key kk v s i) by done.
  rewrite (set_top (Config.store s) i x l props) by auto. cbv zeta.
  remember (JsonFile.set_mem
              {| cells := <[l := CObj (Obj.set kk v props)]>
                            (cells (JsonFile.mem (Config.store s)));
                 traps := 1 |} (Config.store s)) as s0 eqn:Hs0.
  assert (Hobj0 : JsonFile.objects s0 !! i = Some x) by (by subst s0).
  assert (Hcell0 : cells (JsonFile.mem s0) !! l = Some (CObj (Obj.set kk v props))).
  { subst s0. simpl. by eapply cell_after_write. }
  assert (exists st1 x',
             (if JsonFile._batchMode x
              then (Ok tt, JsonFile.set_objects
                             (alter (JsonFile.set_queuedSave true) i
                                (JsonFile.objects (Config.store s))) s0)
              else JsonFile.save i s0) = (Ok tt, st1)
             /\ JsonFile.objects st1 !! i = Some x' /\ JsonFile.data x' = Some l
             /\ cells (JsonFile.mem st1) = cells (JsonFile.mem s0))
    as (st1 & x' & -> & Hobj' & Hdata' & Hcells).
  { destruct (JsonFile._batchMode x) eqn:Hb.
    - eexists _, _. split; [reflexivity|]. simpl.
      rewrite list_lookup_alter_eq, Hobj. simpl. split_and!; [reflexivity|done|done].
    - destruct (save_starts s0 i x Hobj0 Hb) as (pc & s2 & Hsave & Hframe).
      destruct (lock_frame_lookup s0 s2 i x Hframe Hobj0) as (h & Hx2).
      destruct Hframe as (Hm & _).
      eexists _, _. split; [exact Hsave|]. simpl. rewrite Hx2, Hm.
      split_and!; [reflexivity|done|done]. }
  cbn [fst snd]. exists st1. split; [reflexivity|].
  rewrite (get_top st1 i x' l (Obj.set kk v props)); try done.
  - simpl. by rewrite obj_get_set_eq.
  - by rewrite Hcells.
  - right. unfold Obj.has. by rewrite obj_get_set_eq.
Qed.

End DirectFacts.

(** X21: on direct storage, a value set under one key is returned by
    [get] under every key that is built into the same stored key, for
    instance the same attributes written in another order (the stored
    key being a single path segment of an object document). *)
Theorem config_set_then_get (host : Config.Host) (s : Config.State) (i : nat)
        (x : JsonFile.t) (l : loc) (props : Obj.props jsval)
        (key1 key2 kk : string) (v : jsval) :
  Config.shouldUseUpstream (Config.self s) = false ->
  Config._cache (Config.self s) = Some i ->
  JsonFile.objects (Config.store s) !! i = Some x ->
  JsonFile.data x = Some l ->
  cells (JsonFile.mem (Config.store s)) !! l = Some (CObj props) ->
  Config.buildKey host key1 s = (Ok kk, s) ->
  Config.buildKey host key2 s = (Ok kk, s) ->
  Str.mem "/" kk = false ->
  kk <> "__proto__" ->
  exists s1,
    Config.set host key1 v s = (Ok tt, s1)
    /\ fst (Config.get host key2 s1) = Ok v
    /\ fst (Config.get host key1 s1) = Ok v.
Proof.
  intros Hup Hc Hobj Hdata Hl Hk1 Hk2 Hseg Hp.
  destruct (direct_set_get host s i x l props key1 kk v) as (st1 & Hs & Hread); try done.
  exists (Config.set_store st1 s). split; [done|]. split.
  - rewrite (config_get_direct host key2 kk _ i); try done.
    by apply (buildKey_same_self host key2 kk s).
  - rewrite (config_get_direct host key1 kk _ i); try done.
    by apply (buildKey_same_self host key1 kk s).
Qed.

(** The attributes in two orders, on the user scope. *)
Lemma config_set_then_get_witness :
  exists s1,
    Config.set Scenario.library_host "{b=2&a=1}theme" (VStr "dark") Scenario.user_opened
    = (Ok tt, s1)
    /\ fst (Config.get Scenario.library_host "{a=1&b=2}theme" s1) = Ok (VStr "dark").
Proof.
  edestruct (config_set_then_get Scenario.library_host Scenario.user_opened 0) with
    (key1 := "{b=2&a=1}theme") (key2 := "{a=1&b=2}theme") (kk := "{a=1&b=2}theme")
    (v := VStr "dark") as (s1 & E & Hg & _).
  - vm_compute. reflexivity.
  - vm_compute. reflexivity.
  - vm_compute. reflexivity.
  - vm_compute. reflexivity.
  - vm_compute. reflexivity.
  - vm_compute. reflexivity.
  - vm_compute. reflexivity.
  - vm_compute. reflexivity.
  - discriminate.
  - exists s1. split; [exact E|exact Hg].
Defined.

(** X22: on direct storage [setdefault] stores its value only when [get]
    yields [undefined]: under an absent one-segment key the value is
    stored and returned, and under a key that holds any other value
    (also [null]) that value is returned and the document and the save
    queue are left alone. *)
Theorem config_setdefault_direct (host : Config.Host) (s : Config.State) (i : nat)
        (x : JsonFile.t) (l : loc) (props : Obj.props jsval)
        (key kk : string) (v : jsval) :
  Config.shouldUseUpstream (Config.self s) = false ->
  Config._cache (Config.self s) = Some i ->
  JsonFile.objects (Config.store s) !! i = Some x ->
  JsonFile.data x = Some l ->
  cells (JsonFile.mem (Config.store s)) !! l = Some (CObj props) ->
  Config.buildKey host key s = (Ok kk, s) ->
  Str.mem "/" kk = false ->
  Obj.inherited kk = false ->
  (Obj.get kk props = None ->
   exists s1,
     Config.setdefault host key v s = (Ok v, s1)
     /\ fst (Config.get host key s1) = Ok v)
  /\ (forall v0, Obj.get kk props = Some v0 -> v0 <> VUndef ->
      exists s1,
        Config.setdefault host key v s = (Ok v0, s1)
        /\ cells (JsonFile.mem (Config.store s1)) = cells (JsonFile.mem (Config.store s))
        /\ JsonFile.pending (Config.store s1) = JsonFile.pending (Config.store s)).
Proof.
  intros Hup Hc Hobj Hdata Hl Hk Hseg Hin.
  pose proof (not_inherited_not_proto kk Hin) as Hp.
  assert (Hget : Config.get host key s
                 = (Ok (default VUndef (Obj.get kk props)),
                    Config.set_store
                      (JsonFile.set_mem
                         {| cells := cells (JsonFile.mem (Config.store s)); traps := 0 |}
                         (Config.store s)) s)).
  { rewrite (config_get_direct host key kk s i) by done.
    rewrite (get_top (Config.store s) i x l props); try done. by left. }
  split.
  - intros Hnone. rewrite Hnone in Hget.
    set (s0 := Config.set_store _ s) in Hget.
    destruct (direct_set_get host s0 i x l props key kk v) as (st1 & Hs & Hread); try done.
    { by apply (buildKey_same_self host key kk s). }
    exists (Config.set_store st1 s0). split.
    + unfold Config.setdefault. unfold bind at 1. rewrite Hget. cbn [default jsval_eqb].
      cbv beta iota. unfold bind at 1. by rewrite Hs.
    + rewrite (config_get_direct host key kk _ i); try done.
      by apply (buildKey_same_self host key kk s).
  - intros v0 Hv0 Hne. rewrite Hv0 in Hget. eexists. split; [|split].
    + unfold Config.setdefault. unfold bind at 1. rewrite Hget.
      change (default VUndef (Some v0)) with v0. cbv beta iota.
      assert (jsval_eqb v0 VUndef = false) as -> by (by destruct v0).
      reflexivity.
    + done.
    + done.
Qed.

Lemma config_setdefault_direct_witness :
  exists s1 s2,
    Config.setdefault Scenario.library_host "theme" (VStr "dark") Scenario.user_opened
    = (Ok (VStr "dark"), s1)
    /\ Config.setdefault Scenario.library_host "theme" (VStr "light") s1
       = (Ok (VStr "dark"), s2).
Proof.
  edestruct (config_setdefault_direct Scenario.library_host Scenario.user_opened 0) with
    (key := "theme") (kk := "theme") (v := VStr "dark") as [H1 _].
  1-8: vm_compute; reflexivity.
  destruct (H1 eq_refl) as (s1 & E1 & _).
  assert (Hs1 : s1 = snd (Config.setdefault Scenario.library_host "theme" (VStr "dark")
                            Scenario.user_opened)) by (by rewrite E1).
  subst s1.
  edestruct (config_setdefault_direct Scenario.library_host
               (snd (Config.setdefault Scenario.library_host "theme" (VStr "dark")
                       Scenario.user_opened)) 0) with
    (key := "theme") (kk := "theme") (v := VStr "light") as [_ H2].
  1-8: vm_compute; reflexivity.
  destruct (H2 (VStr "dark")) as (s2 & E2 & _).
  - vm_compute. reflexivity.
  - discriminate.
  - eexists _, s2. split; [exact E1|exact E2].
Defined.

(** ** Binding the arguments *)

Section ArgsFacts.
Variable host : Config.Host.


#[local] Instance same_self_preorder :
  PreOrder (fun s s' : Config.State => Config.self s' = Config.self s).
Proof. split; [done|]. intros s1 s2 s3 H1 H2. congruence. Qed.

Lemma preserves_file {A} (c : M JsonFile.St A) :
  preserves (fun s s' : Config.State => Config.self s' = Config.self s) (Config.file c).
Proof. intros s. unfold Config.file, zoom. by destruct (c (Config.store s)). Qed.

Lemma createCache_self :
  preserves (fun s s' : Config.State => Config.self s' = Config.self s)
            (Config.createCache host).
Proof.
  pose proof (@preserves_file) as Hfile.
  unfold Config.createCache, Config.config_in.
  repeat first
    [ progress intros
    | progress cbv zeta
    | solve [auto with frame]
    | apply Hfile
    | apply preserves_bind
    | match goal with
      | |- preserves _ (match ?x with _ => _ end) => destruct x
      | |- preserves _ (if ?b then _ else _) => destruct b
      end ].
Qed.

End ArgsFacts.

(** X23: what [supplyArgs] does with its arguments: items together with
    folders are refused; given items or folders are bound as they are
    and the store of the scope is opened; without arguments an item
    (folder) scope takes the host's selection and refuses an empty
    one.  A refusal leaves the configuration as it was. *)
Theorem supplyArgs_outcomes (host : Config.Host) (args : Config.Args) (s : Config.State) :
  (Config.truthy (Config.item args) && Config.truthy (Config.folder args) = true ->
   Config.supplyArgs host args s
   = (Throw (JsError "Cannot supply both items and folders"), s))
  /\ (Config.truthy (Config.item args) || Config.truthy (Config.folder args) = true ->
      forall s', Config.supplyArgs host args s = (Ok tt, s') ->
        Config._args (Config.self s') = Some args
        /\ is_Some (Config._cache (Config.self s'))
        /\ Config.scope (Config.self s') = Config.scope (Config.self s)
        /\ Config.flags (Config.self s') = Config.flags (Config.self s)
        /\ Config.keyUpstreamToggle (Config.self s') = Config.keyUpstreamToggle (Config.self s)
        /\ Config.keyUpstreamThreshold (Config.self s')
           = Config.keyUpstreamThreshold (Config.self s))
  /\ (Config.truthy (Config.item args) || Config.truthy (Config.folder args) = false ->
      Config.scope (Config.self s) = Config.ITEM ->
      match Config.item_getSelected host with
      | [] => Config.supplyArgs host args s = (Throw (JsError "No items selected"), s)
      | selected =>
          forall s', Config.supplyArgs host args s = (Ok tt, s') ->
            Config._args (Config.self s')
            = Some {| Config.item := Config.Many selected; Config.folder := Config.Missing |}
      end)
  /\ (Config.truthy (Config.item args) || Config.truthy (Config.folder args) = false ->
      Config.scope (Config.self s) = Config.FOLDER ->
      match Config.folder_getSelected host with
      | [] => Config.supplyArgs host args s = (Throw (JsError "No folders selected"), s)
      | selected =>
          forall s', Config.supplyArgs host args s = (Ok tt, s') ->
            Config._args (Config.self s')
            = Some {| Config.item := Config.Missing; Config.folder := Config.Many selected |}
      end).
Proof.
  unfold Config.supplyArgs. split_and!.
  - intros ->. reflexivity.
  - intros Hone s'.
    destruct (Config.truthy (Config.item args) && Config.truthy (Config.folder args));
      [done|].
    assert (negb (Config.truthy (Config.item args))
            && negb (Config.truthy (Config.folder args)) = false) as ->.
    { destruct (Config.truthy (Config.item args)), (Config.truthy (Config.folder args)); done. }
    cbv beta iota zeta delta [bind ret gets modify].
    match goal with
    | |- context [Config.createCache host ?s0] =>
        pose proof (createCache_self host s0) as Hself;
        destruct (Config.createCache host s0) as [[i|e|] s1]; [|done..]
    end.
    intros [= <-]. simpl in *. rewrite Hself. simpl. eauto 10.
  - intros Hnone Hscope.
    apply orb_false_elim in Hnone as [Hi Hf]. rewrite Hi, Hf. cbn [andb negb].
    cbv beta iota zeta delta [bind ret gets modify throw]. rewrite Hscope.
    change (String.eqb Config.ITEM Config.ITEM) with true. cbv beta iota.
    destruct (Config.item_getSelected host) as [|d sel]; [reflexivity|].
    intros s'.
    match goal with
    | |- context [Config.createCache host ?s0] =>
        pose proof (createCache_self host s0) as Hself;
        destruct (Config.createCache host s0) as [[i|e|] s1]; [|done..]
    end.
    intros [= <-]. simpl in *. by rewrite Hself.
  - intros Hnone Hscope.
    apply orb_false_elim in Hnone as [Hi Hf]. rewrite Hi, Hf. cbn [andb negb].
    cbv beta iota zeta delta [bind ret gets modify throw]. rewrite Hscope.
    change (String.eqb Config.FOLDER Config.ITEM) with false.
    change (String.eqb Config.FOLDER Config.FOLDER) with true. cbv beta iota.
    destruct (Config.folder_getSelected host) as [|d sel]; [reflexivity|].
    intros s'.
    match goal with
    | |- context [Config.createCache host ?s0] =>
        pose proof (createCache_self host s0) as Hself;
        destruct (Config.createCache host s0) as [[i|e|] s1]; [|done..]
    end.
    intros [= <-]. simpl in *. by rewrite Hself.
Qed.

(** ** A sentinel that is not stale is respected *)

Section LockSafety.
Import JsonFile.

Lemma step_setImmediate (s : St) :
  Fs.quiet (world s) ->
  exists w,
    io Fs.setImmediate s = (Ok tt, set_world w s)
    /\ Fs.quiet w /\ Fs.files w = Fs.files (world s)
    /\ Fs.now (world s) <= Fs.now w.
Proof.
  intros Hq. exists (Fs.env_step (world s)).
  destruct (env_step_quiet _ Hq) as (? & ? & ? & ?). by split.
Qed.

Lemma step_setTimeout (ms : Z) (s : St) :
  Fs.quiet (world s) ->
  exists w,
    io (Fs.setTimeout ms) s = (Ok tt, set_world w s)
    /\ Fs.quiet w /\ Fs.files w = Fs.files (world s)
    /\ Fs.now (world s) <= Fs.now w.
Proof.
  intros Hq.
  set (d := if (ms <? 1) || (2147483647 <? ms) then 1 else ms).
  assert (Hd : 0 < d) by (subst d; destruct (Z.ltb_spec ms 1); simpl; [lia|];
                          destruct (Z.ltb_spec 2147483647 ms); lia).
  set (w0 := Fs.log (Fs.IoSleep d) (Fs.advance d (world s))).
  assert (Hq0 : Fs.quiet w0) by exact Hq.
  destruct (env_step_quiet _ Hq0) as (Hq1 & Hfs & _ & Hn).
  exists (Fs.env_step w0). split; [reflexivity|]. split_and!; [done|done|].
  simpl in Hn. lia.
Qed.


(** X24: a sentinel of another process is respected as long as it is not
    stale: with the sentinel on disk and nobody else touching the
    files, an acquisition (from its entry or from any turn of its loop)
    can succeed only by finding the sentinel older than [lockMaxAge]
    seconds and unlinking it; until then it waits or reports its
    timeout. *)
Theorem fresh_sentinel_is_respected (fuel : nat) (pc : JsonFile.lock_pc) (i : nat)
        (s s' : JsonFile.St) (x : JsonFile.t) (f : Fs.file) :
  JsonFile.objects s !! i = Some x ->
  JsonFile._lockHolder x <> Some (JsonFile.pid s) ->
  Fs.quiet (JsonFile.world s) ->
  Fs.files (JsonFile.world s) !! JsonFile._lockPath x = Some f ->
  JsonFile.acquireLock_from fuel pc i s = (Ok tt, s') ->
  Fs.now (JsonFile.world s') - Fs.ctimeMs f > JsonFile.lockMaxAge x * 1000
  /\ Fs.IoUnlink (JsonFile._lockPath x) ∈ Fs.trace (JsonFile.world s').
Proof.
  revert pc i s s' x f.
  induction fuel as [|fuel IH]; intros pc i s s' x f Hobj Hholder Hq Hf; [done|].
  rewrite acquireLock_from_eq.
  unfold bind at 1. unfold this at 1. rewrite Hobj. cbv beta iota zeta.
  destruct pc as [|start].
  - unfold bind at 1. unfold gets at 1. cbv beta iota.
    destruct (step_Date_now s Hq) as (w & E & Hqw & Hfs & Htr & Hn).
    assert (Hgo : (let* start := io Fs.Date_now in
                   acquireLock_from fuel (LockLoop start) i)%monad s = (Ok tt, s') ->
                  Fs.now (world s') - Fs.ctimeMs f > lockMaxAge x * 1000
                  /\ Fs.IoUnlink (_lockPath x) ∈ Fs.trace (world s')).
    { unfold bind. rewrite E. apply (IH _ i _ s' x f); simpl; try done.
      by rewrite Hfs. }
    destruct (_lockHolder x) as [h|]; [|exact Hgo].
    destruct (Z.eqb_spec h (pid s)) as [->|_]; [done|exact Hgo].
  - destruct (step_existsSync (_lockPath x) s Hq) as (w1 & E1 & Hq1 & Hfs1 & Htr1 & Hn1).
    unfold bind at 1. rewrite E1. cbv beta iota. rewrite Hf.
    destruct (step_statSync (_lockPath x) (set_world w1 s) f Hq1)
      as (w2 & E2 & Hq2 & Hfs2 & Htr2 & Hn2); [by rewrite <- Hf, <- Hfs1|].
    unfold bind at 1. rewrite E2. cbv beta iota.
    destruct (step_Date_now (set_world w2 (set_world w1 s)) Hq2)
      as (w3 & E3 & Hq3 & Hfs3 & Htr3 & Hn3).
    unfold bind at 1. rewrite E3. cbv beta iota. simpl in *.
    destruct (Z.gtb_spec (Fs.now w3 - Fs.ctimeMs f) (lockMaxAge x * 1000)) as [Hstale|Hfresh].
    + destruct (step_unlinkSync (_lockPath x)
                  (set_world w3 (set_world w2 (set_world w1 s))) f Hq3)
        as (w4 & E4 & Hq4 & Hfs4 & Htr4 & Hn4).
      { simpl. by rewrite Hfs3, Hfs2, Hfs1. }
      unfold bind at 1. rewrite E4. cbv beta iota. simpl in *.
      destruct (create_free i (set_world w4 (set_world w3 (set_world w2 (set_world w1 s))))
                  x (acquireLock_from fuel LockEnter i) Hobj Hq4)
        as (s1 & E5 & Htr5 & _ & _ & _ & Hn5).
      { simpl. rewrite Hfs4. apply lookup_delete_eq. }
      rewrite E5. intros [= <-]. simpl in *. split; [lia|].
      rewrite Htr5, Htr4. apply elem_of_app. left. apply elem_of_app. right. by left.
    + destruct (step_setImmediate (set_world w3 (set_world w2 (set_world w1 s))) Hq3)
        as (w4 & E4 & Hq4 & Hfs4 & Hn4).
      unfold bind at 1. rewrite E4. cbv beta iota.
      destruct (step_Date_now (set_world w4 (set_world w3 (set_world w2 (set_world w1 s)))) Hq4)
        as (w5 & E5 & Hq5 & Hfs5 & Htr5 & Hn5).
      unfold bind at 1. rewrite E5. cbv beta iota. simpl in *.
      destruct (Fs.now w5 - start >? _lockTimeout x); [done|].
      destruct (step_setTimeout (lockRetryInterval x)
                  (set_world w5 (set_world w4 (set_world w3 (set_world w2 (set_world w1 s))))) Hq5)
        as (w6 & E6 & Hq6 & Hfs6 & Hn6).
      unfold bind at 1. rewrite E6. cbv beta iota.
      simpl in Hfs6.
      apply (IH _ i _ s' x f); simpl; try done.
      by rewrite Hfs6, Hfs5, Hfs4, Hfs3, Hfs2, Hfs1.
Qed.

(** A sentinel left an hour ago, with [lockMaxAge] at 30 s. *)
Lemma fresh_sentinel_is_respected_witness :
  Fs.IoUnlink "cfg.json.lock"
  ∈ Fs.trace (JsonFile.world (snd (JsonFile.acquireLock 2 0 Scenario.stale_lock))).
Proof.
  edestruct (fresh_sentinel_is_respected 2 LockEnter 0 Scenario.stale_lock
               (snd (JsonFile.acquireLock 2 0 Scenario.stale_lock))) as [_ H].
  - vm_compute. reflexivity.
  - vm_compute. discriminate.
  - vm_compute. constructor.
  - vm_compute. reflexivity.
  - vm_compute. reflexivity.
  - exact H.
Defined.

End LockSafety.

(** X25: a save that fails gives the lock back: when the document cannot
    be turned into JSON text (it refers to itself, or the store has no
    document), the body of [save] throws a [TypeError] after it has
    taken the lock, and its [finally] clause releases it; the backing
    file is not written and no sentinel stays behind. *)
Theorem failed_save_releases_lock (fuel : nat) (i : nat) (s : JsonFile.St)
        (x : JsonFile.t) :
  JsonFile.objects s !! i = Some x ->
  JsonFile._lockHolder x = None ->
  (forall l j, JsonFile.data x = Some l ->
               Heap.serialize (cells (JsonFile.mem s)) (VRef l) <> Heap.SJson j) ->
  Fs.quiet (JsonFile.world s) ->
  Fs.files (JsonFile.world s) !! JsonFile._lockPath x = None ->
  (2 <= fuel)%nat ->
  exists s' msg,
    JsonFile.save_body fuel i s = (Throw (JsTypeError msg), s')
    /\ Fs.files (JsonFile.world s') = Fs.files (JsonFile.world s)
    /\ JsonFile.objects s' = JsonFile.objects s
    /\ Fs.trace (JsonFile.world s')
       = Fs.trace (JsonFile.world s)
         ++ [Fs.IoCreate (JsonFile._lockPath x); Fs.IoUnlink (JsonFile._lockPath x)].
Proof.
  intros Hobj Hholder Hdoc Hq Hf Hfuel.
  destruct fuel as [|[|fuel]]; [lia|lia|].
  destruct (acquire_free fuel i s x) as (w1 & E1 & Hq1 & Hfs1 & Htr1 & Hn1); try done.
  { by rewrite Hholder. }
  set (s1 := JsonFile.set_objects _ (JsonFile.set_world w1 s)) in E1.
  set (x1 := JsonFile.set_lockHolder (Some (JsonFile.pid s)) x).
  assert (Hobj1 : JsonFile.objects s1 !! i = Some x1).
  { subst s1. simpl. by rewrite list_lookup_alter_eq, Hobj. }
  destruct (release_held i s1 _ (Fs.touch (Fs.now w1) Fs.Garbage) Hobj1)
    as (w2 & E2 & Hq2 & Hfs2 & Htr2 & Hn2); try done.
  { subst s1. simpl. by rewrite Hfs1, lookup_insert_eq. }
  assert (Hbody : exists msg,
    (let* self := JsonFile.this i in
     let* text := JsonFile.JSON_stringify_data i in
     JsonFile.io (Fs.writeFileSync (JsonFile.filename self) text) ;;
     let* stats := JsonFile.io (Fs.statSync (JsonFile.filename self)) in
     JsonFile.update i (JsonFile.set_lastModified (Fs.mtimeMs stats)))%monad s1
    = (Throw (JsTypeError msg), s1)).
  { unfold bind at 1. unfold JsonFile.this at 1. rewrite Hobj1. cbv beta iota.
    unfold bind at 1. unfold JsonFile.JSON_stringify_data.
    unfold bind at 1. unfold JsonFile.this at 1. rewrite Hobj1. cbv beta iota.
    unfold bind at 1. unfold gets at 1. cbv beta iota.
    change (JsonFile.data x1) with (JsonFile.data x).
    change (cells (JsonFile.mem s1)) with (cells (JsonFile.mem s)).
    destruct (JsonFile.data x) as [l|] eqn:Ed; [|eexists; reflexivity].
    specialize (Hdoc l).
    destruct (Heap.serialize (cells (JsonFile.mem s)) (VRef l)) as [j| |];
      [|eexists; reflexivity..].
    by destruct (Hdoc j). }
  destruct Hbody as [msg Hbody].
  eexists _, msg. split; [|split_and!].
  - unfold JsonFile.save_body. unfold bind at 1. rewrite E1. cbv beta iota.
    unfold try_finally. rewrite Hbody. rewrite E2. reflexivity.
  - simpl in *. rewrite Hfs2. subst s1. simpl. rewrite Hfs1. by apply delete_insert_id.
  - subst s1. simpl. apply list_eq. intros j.
    destruct (decide (i = j)) as [<-|Hne].
    + rewrite !list_lookup_alter_eq, Hobj. simpl. by rewrite holder_reset.
    + by rewrite !list_lookup_alter_ne.
  - simpl in *. rewrite Htr2. subst s1. simpl. rewrite Htr1. by rewrite <- app_assoc.
Qed.

Lemma failed_save_releases_lock_witness :
  exists s' msg,
    JsonFile.save_body 2 0 Scenario.cyclic_store = (Throw (JsTypeError msg), s')
    /\ Fs.files (JsonFile.world s') = Fs.files (JsonFile.world Scenario.cyclic_store).
Proof.
  edestruct (failed_save_releases_lock 2 0 Scenario.cyclic_store)
    as (s' & msg & E & Hfs & _).
  - vm_compute. reflexivity.
  - vm_compute. reflexivity.
  - intros l j [= <-]. vm_compute. discriminate.
  - vm_compute. constructor.
  - vm_compute. reflexivity.
  - lia.
  - exists s', msg. split; [exact E|exact Hfs].
Defined.

(** ** Single steps of a traversal *)

Section PaddingFacts.

Lemma padded_lookup (elems : list jsval) (filler : jsval) (i j : Z) :
  Z.of_nat (length elems) <= j <= i ->
  Traverse.arr_get (elems ++ replicate (Z.to_nat (i - Z.of_nat (length elems) + 1)) filler)
                   [] (Some j) = filler
  /\ forall props,
       Traverse.arr_get
         (elems ++ replicate (Z.to_nat (i - Z.of_nat (length elems) + 1)) filler)
         props (Some j) = filler.
Proof.
  intros Hj.
  assert (H : forall props,
            Traverse.arr_get
              (elems ++ replicate (Z.to_nat (i - Z.of_nat (length elems) + 1)) filler)
              props (Some j) = filler).
  { intros props. unfold Traverse.arr_get.
    rewrite length_app, length_replicate.
    assert ((0 <=? j) && (j <? Z.of_nat (length elems
              + Z.to_nat (i - Z.of_nat (length elems) + 1))) = true) as ->.
    { apply andb_true_iff. split; [apply Z.leb_le; lia|apply Z.ltb_lt; lia]. }
    rewrite lookup_app_r by lia.
    rewrite lookup_replicate_2 by lia. done. }
  split; [apply H|exact H].
Qed.

End PaddingFacts.

Section StepFacts.


(** A step through a key the object has. *)
Lemma step_obj_present (cm : bool) (r : ref) (l : loc) (props : Obj.props jsval)
      (k : string) (v : jsval) (m : Mem) :
  r = RProxy l \/ r = RPlain (VRef l) ->
  cells m !! l = Some (CObj props) ->
  Obj.get k props = Some v ->
  Traverse._traverse_step cm r k m = (Ok (RPlain v), m).
Proof.
  intros Hr Hl Hk.
  assert (Hpresent : (if cm then Traverse.obj_in props k else ret true) m = (Ok true, m)).
  { destruct cm; [|done]. unfold Traverse.obj_in, Obj.has. by rewrite Hk. }
  destruct Hr as [-> | ->]; unfold Traverse._traverse_step;
    unfold bind at 1, Heap.read at 1; rewrite Hl; cbv beta iota;
    unfold bind at 1; rewrite Hpresent; cbv beta iota; cbn [negb];
    unfold bind at 1, ret at 1; cbv beta iota;
    unfold bind at 1, Heap.read at 1; rewrite Hl; cbv beta iota;
    unfold Traverse.obj_get; rewrite Hk; reflexivity.
Qed.

(** A step into an array, at an index it has. *)
Lemma step_arr_present (cm : bool) (la : loc) (elems : list jsval)
      (props : Obj.props jsval) (k : string) (j : Z) (m : Mem) :
  cells m !! la = Some (CArr elems props) ->
  Num.parseInt k = Some j ->
  0 <= j < Z.of_nat (length elems) ->
  Traverse._traverse_step cm (RPlain (VRef la)) k m
  = (Ok (RPlain (Traverse.arr_get elems props (Some j))), m).
Proof.
  intros Hla Hk Hj. unfold Traverse._traverse_step.
  unfold bind at 1, Heap.read at 1. rewrite Hla. cbv beta iota zeta. rewrite Hk.
  unfold Num.ge_len. rewrite (proj2 (Z.leb_gt _ _)) by lia. rewrite andb_false_r.
  unfold bind at 1, ret at 1. cbv beta iota.
  unfold bind at 1, Heap.read at 1. rewrite Hla. reflexivity.
Qed.

(** A creating step through a key the object lacks: a new empty
    object is stored under the key. *)
Lemma step_obj_create (r : ref) (l : loc) (props : Obj.props jsval)
      (k : string) (m : Mem) :
  r = RProxy l \/ r = RPlain (VRef l) ->
  cells m !! l = Some (CObj props) ->
  Obj.get k props = None ->
  Obj.inherited k = false ->
  Traverse._traverse_step true r k m
  = (Ok (RPlain (VRef (length (cells m)))),
     {| cells := <[l := CObj (Obj.set k (VRef (length (cells m))) props)]>
                   (cells m ++ [CObj []]);
        traps := match r with RProxy _ => traps m + 1 | RPlain _ => traps m end |}).
Proof.
  intros Hr Hl Hk Hin.
  pose proof (not_inherited_not_proto k Hin) as Hp.
  assert (Hlt : (l < length (cells m))%nat) by (by eapply lookup_lt_Some).
  assert (Habsent : Traverse.obj_in props k m = (Ok false, m)).
  { unfold Traverse.obj_in, Obj.has. by rewrite Hk, Hin. }
  assert (Hread : forall t : unit,
            (<[l := CObj (Obj.set k (VRef (length (cells m))) props)]>
               (cells m ++ [CObj []])) !! l
            = Some (CObj (Obj.set k (VRef (length (cells m))) props))).
  { intros _. apply list_lookup_insert_eq. rewrite length_app. simpl. lia. }
  destruct Hr as [-> | ->]; unfold Traverse._traverse_step;
    unfold bind at 1, Heap.read at 1; rewrite Hl; cbv beta iota;
    unfold bind at 1; rewrite Habsent; cbv beta iota; cbn [negb];
    unfold bind at 1; unfold bind at 1, Heap.new at 1; cbv beta iota;
    unfold Traverse.obj_set, Obj.has; rewrite Hk; cbn [negb andb];
    rewrite (proj2 (String.eqb_neq _ _) Hp);
    unfold bind at 1, Heap.write at 1, modify at 1; cbv beta iota;
    unfold Heap.trap; cbv beta iota; unfold modify, ret; cbn [cells traps];
    unfold bind at 1, Heap.read at 1; cbn [cells]; rewrite (Hread tt); cbv beta iota;
    unfold Traverse.obj_get; rewrite obj_get_set_eq; reflexivity.
Qed.

(** A creating step into an array, past its end: the array is padded
    up to the index with one new empty object. *)
Lemma step_arr_pad (la : loc) (elems : list jsval) (props : Obj.props jsval)
      (k : string) (n : Z) (m : Mem) :
  cells m !! la = Some (CArr elems props) ->
  Num.parseInt k = Some n ->
  Z.of_nat (length elems) <= n < Traverse.max_array_length ->
  n - Z.of_nat (length elems) + 1 <= Traverse.max_spread_arguments ->
  Traverse._traverse_step true (RPlain (VRef la)) k m
  = (Ok (RPlain (VRef (length (cells m)))),
     {| cells :=
          <[la := CArr (elems ++ replicate (Z.to_nat (n - Z.of_nat (length elems) + 1))
                                   (VRef (length (cells m)))) props]>
            (cells m ++ [CObj []]);
        traps := traps m |}).
Proof.
  intros Hla Hk Hn Hfit.
  assert (Hlt : (la < length (cells m))%nat) by (by eapply lookup_lt_Some).
  assert (Hargs : (Traverse.max_spread_arguments
                   <? Z.of_nat (Z.to_nat (n - Z.of_nat (length elems) + 1))) = false).
  { apply Z.ltb_ge. rewrite Z2Nat.id by lia. exact Hfit. }
  unfold Traverse._traverse_step.
  unfold bind at 1, Heap.read at 1. rewrite Hla. cbv beta iota zeta. rewrite Hk.
  unfold Num.ge_len. rewrite (proj2 (Z.leb_le (Z.of_nat (length elems)) n)) by lia.
  cbn [andb from_option id].
  unfold Traverse.check_length.
  rewrite (proj2 (Z.leb_gt Traverse.max_array_length n)) by lia.
  unfold Traverse.push_fill. rewrite Hargs.
  unfold Heap.new, Heap.write, Heap.trap, modify, bind, ret, Heap.read.
  cbn [cells traps].
  rewrite list_lookup_insert_eq by (rewrite length_app; simpl; lia).
  cbv beta iota.
  by rewrite (proj2 (padded_lookup elems (VRef (length (cells m))) n n ltac:(lia)) props).
Qed.

End StepFacts.

(** ** Padding an array on the way *)


(** X26: the objects a write creates to pad an array are one object: a
    [set] on [k0/i/kf], where [k0] holds an array without slot [i] and
    the padding fits a spread call, fills the slots from the old length
    up to [i] with the same new object, so that the value written
    through slot [i] is read back through every one of these slots. *)
Theorem padding_objects_are_shared (s : JsonFile.St) (i : nat) (x : JsonFile.t)
        (l la : loc) (props0 props : Obj.props jsval) (elems : list jsval)
        (k0 ki kf : string) (n : Z) (v : jsval) (path : string) :
  JsonFile.objects s !! i = Some x ->
  JsonFile.data x = Some l ->
  cells (JsonFile.mem s) !! l = Some (CObj props0) ->
  Obj.get k0 props0 = Some (VRef la) ->
  cells (JsonFile.mem s) !! la = Some (CArr elems props) ->
  Str.split "/"%char path = [k0; ki; kf] ->
  Num.parseInt ki = Some n ->
  Z.of_nat (length elems) <= n < Traverse.max_array_length ->
  n - Z.of_nat (length elems) + 1 <= Traverse.max_spread_arguments ->
  Obj.inherited kf = false ->
  exists s1,
    JsonFile.set i path v s = (Ok tt, s1)
    /\ forall path' kj j d,
         Str.split "/"%char path' = [k0; kj; kf] ->
         Num.parseInt kj = Some j ->
         Z.of_nat (length elems) <= j <= n ->
         fst (JsonFile.get i path' d s1) = Ok v.
Proof.
  intros Hobj Hdata Hl Hk0 Hla Hpath Hki Hn Hfit Hkf.
  pose proof (not_inherited_not_proto kf Hkf) as Hproto.
  remember (cells (JsonFile.mem s)) as cs eqn:Hcs.
  remember (length cs) as nf eqn:Hnf.
  remember (elems ++ replicate (Z.to_nat (n - Z.of_nat (length elems) + 1)) (VRef nf))
    as elems' eqn:Helems.
  remember (<[nf := CObj [(kf, v)]]> (<[la := CArr elems' props]> (cs ++ [CObj []])))
    as cs' eqn:Hcs'.
  assert (Hla_lt : (la < nf)%nat) by (subst nf; by eapply lookup_lt_Some).
  assert (Hl_lt : (l < nf)%nat) by (subst nf; by eapply lookup_lt_Some).
  assert (Hne : l <> la) by (intros ->; congruence).
  assert (Hl' : cs' !! l = Some (CObj props0)).
  { subst cs'. rewrite !list_lookup_insert_ne by lia. by rewrite lookup_app_l by lia. }
  assert (Hla' : cs' !! la = Some (CArr elems' props)).
  { subst cs'. rewrite list_lookup_insert_ne by lia.
    apply list_lookup_insert_eq. rewrite length_app. simpl. lia. }
  assert (Hnf' : cs' !! nf = Some (CObj [(kf, v)])).
  { subst cs'. apply list_lookup_insert_eq.
    rewrite length_insert, length_app. simpl. lia. }
  assert (Hset : Traverse.setDeep (RProxy l) path v {| cells := cs; traps := 0 |}
                 = (Ok tt, {| cells := cs'; traps := 0 |})).
  { unfold Traverse.setDeep. rewrite Hpath. unfold Traverse.pop_last.
    cbn [removelast List.last]. cbv beta iota.
    unfold bind at 1. rewrite !traverse_cons.
    unfold bind at 1.
    rewrite (step_obj_present true (RProxy l) l props0 k0 (VRef la)); [|by left|done..].
    cbv beta iota. rewrite traverse_cons. unfold bind at 1.
    rewrite (step_arr_pad la elems props ki n); [|done..].
    cbn [cells traps]. rewrite <- Hnf, <- Helems.
    cbv beta iota. unfold Traverse._traverse, ret. cbv beta iota.
    unfold bind at 1, Heap.read at 1. cbn [cells].
    rewrite list_lookup_insert_ne by lia.
    rewrite lookup_app_r by lia. rewrite <- Hnf, Nat.sub_diag. cbn [lookup list_lookup].
    cbv beta iota. unfold Traverse.obj_set, Obj.has. cbn [Obj.get negb andb].
    rewrite (proj2 (String.eqb_neq _ _) Hproto). cbv beta iota.
    unfold Heap.write, Heap.trap, modify, bind, ret. cbn [cells traps]. by subst cs'. }
  eexists. split.
  - unfold JsonFile.set. rewrite (on_data_eq _ _ _ x) by done. rewrite Hdata. cbv zeta.
    rewrite <- Hcs, Hset. reflexivity.
  - intros path' kj j d Hpath' Hkj Hj.
    unfold JsonFile.get, try_catch. rewrite (on_data_eq _ _ _ x) by done.
    rewrite Hdata. cbv zeta. cbn [JsonFile.mem JsonFile.set_mem cells].
    assert (Hget : Traverse.getDeep (RProxy l) path' {| cells := cs'; traps := 0 |}
                   = (Ok v, {| cells := cs'; traps := 0 |})).
    { unfold Traverse.getDeep. rewrite Hpath'. cbv zeta.
      unfold bind at 1. rewrite !traverse_cons.
      unfold bind at 1.
      rewrite (step_obj_present false (RProxy l) l props0 k0 (VRef la)); [|by left|done..].
      cbv beta iota. rewrite traverse_cons. unfold bind at 1.
      rewrite (step_arr_present false la elems' props kj j); [|done|done|].
      2: { subst elems'. rewrite length_app, length_replicate. lia. }
      assert (Traverse.arr_get elems' props (Some j) = VRef nf) as ->.
      { subst elems'. apply (proj2 (padded_lookup elems (VRef nf) n j Hj) props). }
      cbv beta iota. rewrite traverse_cons. unfold bind at 1.
      rewrite (step_obj_present false (RPlain (VRef nf)) nf [(kf, v)] kf v);
        [|by right|done|].
      2: { cbn [Obj.get]. by rewrite String.eqb_refl. }
      reflexivity. }
    rewrite Hget. reflexivity.
Qed.

(** [set("list/2/name", "x")] on [{"list": []}]. *)
Lemma padding_objects_are_shared_witness :
  exists s1,
    JsonFile.set 0 "list/2/name" (VStr "x") Scenario.list_store = (Ok tt, s1)
    /\ fst (JsonFile.get 0 "list/0/name" VUndef s1) = Ok (VStr "x")
    /\ fst (JsonFile.get 0 "list/1/name" VUndef s1) = Ok (VStr "x").
Proof.
  edestruct (padding_objects_are_shared Scenario.list_store 0) with
    (k0 := "list") (ki := "2") (kf := "name") (n := 2) (v := VStr "x")
    (path := "list/2/name") as (s1 & E & Hg).
  - vm_compute. reflexivity.
  - vm_compute. reflexivity.
  - vm_compute. reflexivity.
  - vm_compute. reflexivity.
  - vm_compute. reflexivity.
  - vm_compute. reflexivity.
  - vm_compute. reflexivity.
  - vm_compute. split; [discriminate|reflexivity].
  - vm_compute. discriminate.
  - vm_compute. reflexivity.
  - exists s1. split_and!; [exact E| |].
    + apply (Hg "list/0/name" "0" 0); [reflexivity|reflexivity|].
      vm_compute. split; discriminate.
    + apply (Hg "list/1/name" "1" 1); [reflexivity|reflexivity|].
      vm_compute. split; discriminate.
Defined.

(** ** Creating the parents of a deep path *)

Section ChainFacts.

Lemma traverse_app (a b : list string) (r : ref) (cm : bool) (m : Mem) :
  Traverse._traverse r (a ++ b) cm m
  = (let* x := Traverse._traverse r a cm in Traverse._traverse x b cm)%monad m.
Proof.
  revert r m. induction a as [|k a IH]; intros r m.
  - reflexivity.
  - rewrite <- app_comm_cons, !traverse_cons. unfold bind.
    destruct (Traverse._traverse_step cm r k m) as [[x|e|] m1]; [|done..].
    rewrite IH. reflexivity.
Qed.

(** From a new empty object a creating traversal builds a chain of
    new objects, one under the other; the chain is still there when
    the last object is written. *)
Lemma build_chain (mid : list string) :
  forall (l0 : loc) (h : list cell) (t : nat),
    h !! l0 = Some (CObj []) ->
    Forall (fun k => Obj.inherited k = false) mid ->
    exists lt h',
      Traverse._traverse (RPlain (VRef l0)) mid true {| cells := h; traps := t |}
      = (Ok (RPlain (VRef lt)), {| cells := h'; traps := t |})
      /\ h' !! lt = Some (CObj [])
      /\ (length h <= length h')%nat
      /\ (lt = l0 \/ length h <= lt)%nat
      /\ (forall j, (j < length h)%nat -> j <> l0 -> h' !! j = h !! j)
      /\ (forall c t',
            Traverse._traverse (RPlain (VRef l0)) mid false
              {| cells := <[lt := c]> h'; traps := t' |}
            = (Ok (RPlain (VRef lt)), {| cells := <[lt := c]> h'; traps := t' |})).
Proof.
  induction mid as [|k ks IH]; intros l0 h t Hl0 Hks.
  - exists l0, h. split_and!; try done. by left.
  - apply Forall_cons in Hks as [Hk Hks].
    assert (Hlt : (l0 < length h)%nat) by (by eapply lookup_lt_Some).
    pose proof (step_obj_create (RPlain (VRef l0)) l0 [] k {| cells := h; traps := t |}) as Hstep.
    cbn [cells traps] in Hstep. specialize (Hstep ltac:(by right) Hl0 eq_refl Hk).
    remember (<[l0 := CObj (Obj.set k (VRef (length h)) [])]> (h ++ [CObj []])) as h1 eqn:Hh1.
    assert (Hlen1 : length h1 = S (length h)).
    { subst h1. rewrite length_insert, length_app. simpl. lia. }
    assert (Hn : h1 !! length h = Some (CObj [])).
    { subst h1. rewrite list_lookup_insert_ne by lia.
      rewrite lookup_app_r by lia. by rewrite Nat.sub_diag. }
    assert (Hl0' : h1 !! l0 = Some (CObj (Obj.set k (VRef (length h)) []))).
    { subst h1. apply list_lookup_insert_eq. rewrite length_app. simpl. lia. }
    destruct (IH (length h) h1 t Hn Hks) as (lt & h' & Hrun & Hcell & Hlen & Hwhere & Hstable & Hread).
    exists lt, h'. split_and!.
    + rewrite traverse_cons. unfold bind. rewrite Hstep. exact Hrun.
    + done.
    + lia.
    + right. destruct Hwhere as [-> | ?]; lia.
    + intros j Hj Hne. rewrite Hstable by lia. subst h1.
      rewrite list_lookup_insert_ne by done. by rewrite lookup_app_l.
    + intros c t'. rewrite traverse_cons. unfold bind.
      rewrite (step_obj_present false (RPlain (VRef l0)) l0
                 (Obj.set k (VRef (length h)) []) k (VRef (length h))).
      * apply Hread.
      * by right.
      * cbn [cells]. rewrite list_lookup_insert_ne by (destruct Hwhere; lia).
        rewrite Hstable by lia. done.
      * apply obj_get_set_eq.
Qed.

End ChainFacts.

(** X27: a [set] on a deep path whose first key is new creates the
    parents: with batch mode off, on an object document that lacks
    [k1], [set("k1/.../kn", v)] returns normally, starts exactly one
    save (the new first key goes through the proxy), and [get] on the
    same path returns [v]. *)
Theorem deep_set_creates_parents (s : JsonFile.St) (i : nat) (x : JsonFile.t)
        (l : loc) (props0 : Obj.props jsval) (k1 kn : string) (mid : list string)
        (v : jsval) (path : string) :
  JsonFile.objects s !! i = Some x ->
  JsonFile.data x = Some l ->
  JsonFile._batchMode x = false ->
  cells (JsonFile.mem s) !! l = Some (CObj props0) ->
  Str.split "/"%char path = k1 :: mid ++ [kn] ->
  Obj.get k1 props0 = None ->
  Forall (fun k => Obj.inherited k = false) (k1 :: mid ++ [kn]) ->
  exists s1 pc,
    JsonFile.set i path v s = (Ok tt, s1)
    /\ JsonFile.pending s1 = JsonFile.pending s ++ [(i, pc)]
    /\ forall d, fst (JsonFile.get i path d s1) = Ok v.
Proof.
  intros Hobj Hdata Hbatch Hl Hpath Hk1 Hkeys.
  apply Forall_cons in Hkeys as [Hin1 Hkeys].
  apply Forall_app in Hkeys as [Hmid [Hinn _]%Forall_cons].
  pose proof (not_inherited_not_proto kn Hinn) as Hproto.
  remember (cells (JsonFile.mem s)) as cs eqn:Hcs.
  assert (Hl_lt : (l < length cs)%nat) by (by eapply lookup_lt_Some).
  pose proof (step_obj_create (RProxy l) l props0 k1 {| cells := cs; traps := 0 |}) as Hstep.
  cbn [cells traps] in Hstep. specialize (Hstep ltac:(by left) Hl Hk1 Hin1).
  remember (<[l := CObj (Obj.set k1 (VRef (length cs)) props0)]> (cs ++ [CObj []]))
    as h1 eqn:Hh1.
  assert (Hlen1 : length h1 = S (length cs)).
  { subst h1. rewrite length_insert, length_app. simpl. lia. }
  assert (Hn : h1 !! length cs = Some (CObj [])).
  { subst h1. rewrite list_lookup_insert_ne by lia.
    rewrite lookup_app_r by lia. by rewrite Nat.sub_diag. }
  assert (Hl1 : h1 !! l = Some (CObj (Obj.set k1 (VRef (length cs)) props0))).
  { subst h1. apply list_lookup_insert_eq. rewrite length_app. simpl. lia. }
  destruct (build_chain mid (length cs) h1 1 Hn Hmid)
    as (lt & h' & Hrun & Hcell & Hlen & Hwhere & Hstable & Hread).
  assert (Hlt_lt : (lt < length h')%nat) by (by eapply lookup_lt_Some).
  assert (Hset : Traverse.setDeep (RProxy l) path v {| cells := cs; traps := 0 |}
                 = (Ok tt, {| cells := <[lt := CObj [(kn, v)]]> h'; traps := 1 |})).
  { unfold Traverse.setDeep. rewrite Hpath. unfold Traverse.pop_last.
    rewrite app_comm_cons, removelast_last, last_last. cbv beta iota.
    unfold bind at 1. rewrite traverse_cons. unfold bind at 1.
    rewrite Hstep. cbn [Nat.add]. rewrite Hrun.
    unfold bind at 1, Heap.read at 1. cbn [cells]. rewrite Hcell. cbv beta iota.
    unfold Traverse.obj_set, Obj.has. cbn [Obj.get negb andb].
    rewrite (proj2 (String.eqb_neq _ _) Hproto).
    unfold Heap.write, Heap.trap, modify, bind, ret. reflexivity. }
  remember (JsonFile.set_mem {| cells := <[lt := CObj [(kn, v)]]> h'; traps := 1 |} s)
    as s0 eqn:Hs0.
  assert (Hobj0 : JsonFile.objects s0 !! i = Some x) by (by subst s0).
  destruct (trap_once s0 i x Hobj0 Hbatch) as (pc & s1 & Htrap & Hp & Hm & h & Hx1).
  exists s1, pc. split; [|split].
  - unfold JsonFile.set. rewrite (on_data_eq _ _ _ x) by done. rewrite Hdata. cbv zeta.
    rewrite <- Hcs, Hset. cbn [traps].
    rewrite <- Hs0, Htrap. reflexivity.
  - rewrite Hp. by subst s0.
  - intros d. unfold JsonFile.get, try_catch.
    rewrite (on_data_eq _ _ _ (JsonFile.set_lockHolder h x)) by done.
    cbn [JsonFile.data JsonFile.set_lockHolder]. rewrite Hdata. cbv zeta.
    rewrite Hm. subst s0.
    cbn [JsonFile.mem JsonFile.set_mem JsonFile.set_pending cells].
    assert (Hget : Traverse.getDeep (RProxy l) path
                     {| cells := <[lt := CObj [(kn, v)]]> h'; traps := 0 |}
                   = (Ok v, {| cells := <[lt := CObj [(kn, v)]]> h'; traps := 0 |})).
    { unfold Traverse.getDeep. rewrite Hpath. cbv zeta.
      unfold bind at 1. rewrite traverse_cons. unfold bind at 1.
      rewrite (step_obj_present false (RProxy l) l
                 (Obj.set k1 (VRef (length cs)) props0) k1 (VRef (length cs))).
      2: { by left. }
      2: { cbn [cells]. rewrite list_lookup_insert_ne by (destruct Hwhere; lia).
           rewrite Hstable by lia. done. }
      2: { apply obj_get_set_eq. }
      rewrite traverse_app. unfold bind at 1. rewrite Hread.
      rewrite traverse_cons. unfold bind at 1.
      rewrite (step_obj_present false (RPlain (VRef lt)) lt [(kn, v)] kn v).
      - reflexivity.
      - by right.
      - cbn [cells]. by apply list_lookup_insert_eq.
      - cbn [Obj.get]. by rewrite String.eqb_refl. }
    rewrite Hget. reflexivity.
Qed.

(** [set("ui/font/size", 12)] on [{"theme": "dark"}]. *)
Lemma deep_set_creates_parents_witness :
  exists s1,
    JsonFile.set 0 "ui/font/size" (VNum 12) Scenario.theme_store = (Ok tt, s1)
    /\ length (JsonFile.pending s1) = 1%nat
    /\ fst (JsonFile.get 0 "ui/font/size" VUndef s1) = Ok (VNum 12).
Proof.
  edestruct (deep_set_creates_parents Scenario.theme_store 0) with
    (k1 := "ui") (mid := ["font"]) (kn := "size") (v := VNum 12) (path := "ui/font/size")
    as (s1 & pc & E & Hp & Hg).
  - vm_compute. reflexivity.
  - vm_compute. reflexivity.
  - vm_compute. reflexivity.
  - vm_compute. reflexivity.
  - vm_compute. reflexivity.
  - vm_compute. reflexivity.
  - repeat constructor.
  - exists s1. split_and!; [exact E|by rewrite Hp|apply Hg].
Defined.

(** X28: a started save is the body of [save()]: outside batch mode and
    with no other save under way, a call of [save()] followed by the
    event loop does what the body of [save()] does when it is run in one
    piece (the lock taken, the document written, the modification time
    recorded, the lock released), and an exception of the body ends as
    an unhandled rejection. *)
Theorem started_save_runs_the_body (s : JsonFile.St) (i : nat) (x : JsonFile.t) :
  JsonFile.objects s !! i = Some x ->
  JsonFile._batchMode x = false ->
  JsonFile.pending s = [] ->
  exists k, forall fuel,
    (JsonFile.save i ;; JsonFile.settle fuel) s
    = try_catch (JsonFile.save_body (k + fuel) i)
        (fun e => modify (fun s' => JsonFile.set_unhandled (JsonFile.unhandled s' ++ [e]) s'))
        s.
Proof.
  intros Hobj Hb Hq.
  pose proof (acquireLock_sync_returns (S (length (Fs.sched (JsonFile.world s)))) i s x
                ltac:(lia) Hobj) as Hc.
  pose proof (lock_frame_sync (S (length (Fs.sched (JsonFile.world s)))) i s) as Hf.
  destruct (JsonFile.acquireLock_sync (S (length (Fs.sched (JsonFile.world s)))) i s)
    as [r s1] eqn:Hsync.
  simpl in Hc, Hf.
  destruct (acquireLock_split _ i x s s1 r Hobj Hsync) as (k & Hk).
  { by destruct r. }
  destruct Hf as (_ & _ & _ & Hq1 & _ & _). rewrite Hq in Hq1.
  assert (Hs1 : forall q, JsonFile.set_pending [] (JsonFile.set_pending q s1) = s1).
  { intros q. destruct s1. simpl in *. by subst. }
  exists k. intros fuel.
  assert (Hsave : covered r ->
            JsonFile.save i s
            = (Ok tt,
               JsonFile.set_pending
                 [(i, match r with
                      | Ok None => JsonFile.SaveLocked
                      | Ok (Some start) => JsonFile.SaveWaiting start
                      | Throw e => JsonFile.SaveRejected e
                      | Diverge => JsonFile.SaveLocked
                      end)] s1)).
  { intros Hcov. unfold JsonFile.save. unfold bind at 1. unfold JsonFile.this at 1.
    rewrite Hobj. cbv beta iota. rewrite Hb.
    unfold bind at 1. unfold gets at 1. cbv beta iota.
    unfold bind at 1. unfold try_catch. unfold bind at 1. rewrite Hsync.
    destruct r as [[start|]|e|]; try done; [| |destruct e; try done];
      unfold ret, modify; cbv beta iota; by rewrite Hq1. }
  assert (Hbody : JsonFile.save_body (k + fuel) i s
                  = match r with
                    | Ok None => JsonFile.save_write i s1
                    | Ok (Some start) =>
                        (JsonFile.acquireLock_resume fuel start i ;; JsonFile.save_write i) s1
                    | Throw e => (Throw e, s1)
                    | Diverge => (Diverge, s1)
                    end).
  { unfold JsonFile.save_body. unfold bind at 1. rewrite Hk.
    by destruct r as [[start|]|e|]. }
  unfold bind at 1. rewrite (Hsave Hc). cbv beta iota.
  unfold JsonFile.settle. unfold bind at 1. unfold gets at 1. cbv beta iota.
  unfold bind at 1. unfold modify at 1. cbv beta iota.
  cbn [JsonFile.pending JsonFile.set_pending]. rewrite Hs1.
  cbn [JsonFile.run_saves]. unfold bind at 1. unfold try_catch. rewrite Hbody.
  destruct r as [[start|]|e|]; cbn [JsonFile.resume_save]; [| | |done].
  - destruct ((JsonFile.acquireLock_resume fuel start i ;; JsonFile.save_write i) s1)
      as [[[]|e|] s2]; try reflexivity.
    destruct e; reflexivity.
  - destruct (JsonFile.save_write i s1) as [[[]|e|] s2]; try reflexivity.
    destruct e; reflexivity.
  - destruct e; try done; reflexivity.
Qed.

(** The store on [{"theme": "dark"}], the lock free. *)
Lemma started_save_runs_the_body_witness :
  exists k, forall fuel,
    (JsonFile.save 0 ;; JsonFile.settle fuel) Scenario.theme_store
    = try_catch (JsonFile.save_body (k + fuel) 0)
        (fun e => modify (fun s' => JsonFile.set_unhandled (JsonFile.unhandled s' ++ [e]) s'))
        Scenario.theme_store.
Proof.
  eapply (started_save_runs_the_body Scenario.theme_store 0).
  - vm_compute. reflexivity.
  - vm_compute. reflexivity.
  - vm_compute. reflexivity.
Defined.
